(** * A shallow embedding of the CAN201 peer-to-peer file synchroniser

    The development follows [src/peer.py]: the [Recorder] class (the persistent
    map from a path to its transfer record) and the [Peer] class (bootstrap,
    the wire protocol, resume and the sync loop).

    Python objects are modelled as follows.
    - [self.record] is a [gmap string TransferRecord]; a record is the
      dictionary [{"ownership": bool, "mtime": number}] of the class
      docstring, with ["mtime"] optional.
    - A [str] is a Rocq [string] holding its UTF-8 bytes, so [encode] is the
      identity on bytes and [decode] checks that the bytes are UTF-8.
    - Integers are [Z]; the two header fields are unsigned 32-bit integers
      with the range check of [struct.pack] written out.
    - The attributes of a [Peer] and of its [Recorder], the file tree under
      the working directory, the clock and the behaviour of the network are
      the fields of one [world]; every method is a function in a
      state-and-exception monad over it.  [print] is not modelled.
    - The operating system decides how each socket call ends.  The world
      holds, per kind of call, the list of the outcomes of the successive
      calls; a call pops the head of its list.
    - Loops that Python does not bound ([while]) take fuel.

    What is assumed of the libraries and of the operating system:
    - a modification time is an integer, of which only equality matters;
    - a path is resolved from the working directory, the root of the file
      tree of the model;
    - a file opened in text mode is decoded as UTF-8;
    - [send] transmits the whole of its argument or raises, and [recv(n)]
      returns at most [n] of the bytes that have arrived;
    - [json.loads] and [json.dumps] are parameters. *)

From Stdlib Require Import ZArith List Lia Bool.
From Stdlib Require Import Strings.String Strings.Ascii Strings.Byte.
From stdpp Require Import base option list gmap strings pretty.

Set Warnings "-register-all".
Local Open Scope Z_scope.

(** ** Exceptions *)

(** The [errno] values with which a socket call of this program can fail. *)
Inductive errno :=
| ECONNRESET | EPIPE | ECONNABORTED | ECONNREFUSED
| ETIMEDOUT | EHOSTUNREACH | EADDRINUSE | EINVAL.

(** The exception classes the program raises or catches. *)
Inductive exn :=
| ConnectionResetError | BrokenPipeError
| ConnectionAbortedError | ConnectionRefusedError
| TimeoutError            (* errno ETIMEDOUT *)
| SocketTimeout           (* socket.timeout, raised by a socket with a timeout *)
| OSError (e : errno)     (* an OSError of no more specific class *)
| FileNotFoundError | FileExistsError | IsADirectoryError | NotADirectoryError
| StructError | KeyError | UnicodeDecodeError | JSONDecodeError
| ValueError | AttributeError.

(** How Python turns the [errno] of a failed system call into a class. *)
Definition exn_of_errno (e : errno) : exn :=
  match e with
  | ECONNRESET => ConnectionResetError
  | EPIPE => BrokenPipeError
  | ECONNABORTED => ConnectionAbortedError
  | ECONNREFUSED => ConnectionRefusedError
  | ETIMEDOUT => TimeoutError
  | e => OSError e
  end.

(** [isinstance(e, ConnectionError)] *)
Definition is_ConnectionError (e : exn) : bool :=
  match e with
  | ConnectionResetError | BrokenPipeError
  | ConnectionAbortedError | ConnectionRefusedError => true
  | _ => false
  end.

(** [isinstance(e, OSError)]; [socket.timeout] is a subclass of [OSError]. *)
Definition is_OSError (e : exn) : bool :=
  match e with
  | ConnectionResetError | BrokenPipeError
  | ConnectionAbortedError | ConnectionRefusedError
  | TimeoutError | SocketTimeout | OSError _
  | FileNotFoundError | FileExistsError
  | IsADirectoryError | NotADirectoryError => true
  | _ => false
  end.

Definition is_struct_error (e : exn) : bool :=
  match e with StructError => true | _ => false end.

Definition is_JSONDecodeError_or_FileNotFoundError (e : exn) : bool :=
  match e with JSONDecodeError | FileNotFoundError => true | _ => false end.

(** Results of the pure, fallible library functions. *)
Inductive result (A : Type) :=
| Ok (a : A)
| Err (e : exn).
Arguments Ok {A} a.
Arguments Err {A} e.

(** ** Bytes, the header [Struct("!II")] and UTF-8 *)

Definition byte_of_Z (z : Z) : byte :=
  default x00 (Byte.of_N (Z.to_N (Z.land z 255))).

Definition Z_of_byte (b : byte) : Z := Z.of_N (Byte.to_N b).

(** Big-endian encoding of an unsigned 32-bit integer. *)
Definition be32 (z : Z) : list byte :=
  [ byte_of_Z (Z.shiftr z 24); byte_of_Z (Z.shiftr z 16);
    byte_of_Z (Z.shiftr z 8); byte_of_Z z ].

Definition of_be32 (b3 b2 b1 b0 : byte) : Z :=
  Z.lor (Z.shiftl (Z_of_byte b3) 24)
    (Z.lor (Z.shiftl (Z_of_byte b2) 16)
       (Z.lor (Z.shiftl (Z_of_byte b1) 8) (Z_of_byte b0))).

Definition uint32_max : Z := 4294967295.

Definition is_uint32 (z : Z) : bool := (0 <=? z) && (z <=? uint32_max).

(** [self.header.size] *)
Definition header_len : Z := 8.

(** [self.header.pack(a, b)]: [struct.error] when a field is out of range. *)
Definition header_pack (a b : Z) : result (list byte) :=
  if is_uint32 a && is_uint32 b then Ok (be32 a ++ be32 b) else Err StructError.

(** [self.header.unpack(buf)]: [struct.error] unless [buf] has 8 bytes. *)
Definition header_unpack (buf : list byte) : result (Z * Z) :=
  match buf with
  | [a3; a2; a1; a0; b3; b2; b1; b0] =>
      Ok (of_be32 a3 a2 a1 a0, of_be32 b3 b2 b1 b0)
  | _ => Err StructError
  end.

Definition byte_in (lo hi : Z) (b : byte) : bool :=
  (lo <=? Z_of_byte b) && (Z_of_byte b <=? hi).

Definition utf8_cont : byte -> bool := byte_in 128 191.

(** Well-formed UTF-8 (the table of the Unicode standard). *)
Fixpoint utf8_valid (bs : list byte) : bool :=
  match bs with
  | [] => true
  | b0 :: r0 =>
      if byte_in 0 127 b0 then utf8_valid r0 else
      match r0 with
      | [] => false
      | b1 :: r1 =>
          if byte_in 194 223 b0 then utf8_cont b1 && utf8_valid r1 else
          match r1 with
          | [] => false
          | b2 :: r2 =>
              if byte_in 224 239 b0 then
                (if byte_in 224 224 b0 then byte_in 160 191 b1
                 else if byte_in 237 237 b0 then byte_in 128 159 b1
                 else utf8_cont b1)
                && utf8_cont b2 && utf8_valid r2
              else
              match r2 with
              | [] => false
              | b3 :: r3 =>
                  if byte_in 240 244 b0 then
                    (if byte_in 240 240 b0 then byte_in 144 191 b1
                     else if byte_in 244 244 b0 then byte_in 128 143 b1
                     else utf8_cont b1)
                    && utf8_cont b2 && utf8_cont b3 && utf8_valid r3
                  else false
              end
          end
      end
  end.

(** [s.encode()] *)
Definition encode (s : string) : list byte := list_byte_of_string s.

(** [bs.decode()] *)
Definition decode (bs : list byte) : result string :=
  if utf8_valid bs then Ok (string_of_list_byte bs) else Err UnicodeDecodeError.

(** [len(bs)] *)
Definition len (bs : list byte) : Z := Z.of_nat (length bs).

(** ** Paths *)

Definition slash : ascii := "/"%char.

(** The part of [s] before its last ["/"], when it has one. *)
Fixpoint before_last_slash (s : string) : option string :=
  match s with
  | EmptyString => None
  | String c s' =>
      match before_last_slash s' with
      | Some h => Some (String c h)
      | None => if Ascii.eqb c slash then Some EmptyString else None
      end
  end.

(** [path.rsplit(sep="/", maxsplit=1)[0]]: the whole string when it has no
    ["/"]. *)
Definition rsplit_head (path : string) : string :=
  default path (before_last_slash path).

(** [s.split("/")] *)
Fixpoint split_slash (s : string) : list string :=
  match s with
  | EmptyString => [EmptyString]
  | String c s' =>
      if Ascii.eqb c slash then EmptyString :: split_slash s'
      else match split_slash s' with
           | h :: t => String c h :: t
           | [] => [String c EmptyString]
           end
  end.

Definition is_name (c : string) : bool :=
  negb (String.eqb c EmptyString) && negb (String.eqb c ".").

(** The names a relative path goes through; empty components and ["."] stand
    for the directory itself. *)
Definition components (path : string) : list string :=
  filter (fun c => is_name c = true) (split_slash path).

Definition is_absolute (path : string) : bool :=
  match path with
  | String c _ => Ascii.eqb c slash
  | EmptyString => false
  end.

Definition ends_with_slash (s : string) : bool :=
  match before_last_slash s with
  | Some h => String.eqb s (h +:+ "/")
  | None => false
  end.

(** [os.path.join(root, name)] (POSIX). *)
Definition path_join (root name : string) : string :=
  if is_absolute name then name
  else if String.eqb root EmptyString || ends_with_slash root then root +:+ name
  else root +:+ "/" +:+ name.

(** ** The file tree under the working directory *)

(** A regular file with its content and modification time, or a directory
    with its modification time and its entries in the order the operating
    system lists them. *)
Inductive node :=
| File (content : list byte) (mtime : Z)
| Dir (mtime : Z) (entries : list (string * node)).

Fixpoint assoc {A} (k : string) (l : list (string * A)) : option A :=
  match l with
  | [] => None
  | (k', v) :: l' => if String.eqb k k' then Some v else assoc k l'
  end.

(** Replace the entry named [k], or add it after the others. *)
Fixpoint assoc_set {A} (k : string) (v : A) (l : list (string * A))
  : list (string * A) :=
  match l with
  | [] => [(k, v)]
  | (k', v') :: l' =>
      if String.eqb k k' then (k, v) :: l' else (k', v') :: assoc_set k v l'
  end.

Fixpoint resolve (cs : list string) (n : node) : option node :=
  match cs with
  | [] => Some n
  | c :: cs' =>
      match n with
      | Dir _ es =>
          match assoc c es with
          | Some child => resolve cs' child
          | None => None
          end
      | File _ _ => None
      end
  end.

(** The node a path names.  The tree is rooted at the working directory:
    an absolute path, the empty path and a path through [".."] name
    nothing in it. *)
Definition fs_lookup (root : node) (path : string) : option node :=
  if String.eqb path EmptyString || is_absolute path then None
  else resolve (components path) root.

(** Rewrite the entry at [cs] with [f], which sees the entry there (if any).
    Adding an entry to a directory sets the directory's modification time. *)
Fixpoint alter_at (now : Z) (f : option node -> result node)
    (cs : list string) (n : node) : result node :=
  match cs with
  | [] => Err IsADirectoryError
  | c :: cs' =>
      match n with
      | File _ _ => Err NotADirectoryError
      | Dir m es =>
          match cs' with
          | [] =>
              match f (assoc c es) with
              | Ok n' =>
                  Ok (Dir (match assoc c es with Some _ => m | None => now end)
                        (assoc_set c n' es))
              | Err e => Err e
              end
          | _ :: _ =>
              match assoc c es with
              | Some child =>
                  match alter_at now f cs' child with
                  | Ok child' => Ok (Dir m (assoc_set c child' es))
                  | Err e => Err e
                  end
              | None => Err FileNotFoundError
              end
          end
      end
  end.

Definition fs_alter (now : Z) (f : option node -> result node)
    (path : string) (root : node) : result node :=
  if String.eqb path EmptyString || is_absolute path then Err FileNotFoundError
  else alter_at now f (components path) root.

(** [open(path, "w")] / [open(path, "wb")]: create or truncate. *)
Definition truncate_node (now : Z) (o : option node) : result node :=
  match o with
  | Some (Dir _ _) => Err IsADirectoryError
  | _ => Ok (File [] now)
  end.

(** [f.write(bs)] on a file opened for writing. *)
Definition append_node (now : Z) (bs : list byte) (o : option node)
  : result node :=
  match o with
  | Some (File c _) => Ok (File (c ++ bs) now)
  | Some (Dir _ _) => Err IsADirectoryError
  | None => Err FileNotFoundError
  end.

(** [os.mkdir(path)] *)
Definition mkdir_node (now : Z) (o : option node) : result node :=
  match o with
  | Some _ => Err FileExistsError
  | None => Ok (Dir now [])
  end.

Definition is_dir_node (n : node) : bool :=
  match n with Dir _ _ => true | File _ _ => false end.

Definition node_mtime (n : node) : Z :=
  match n with File _ m => m | Dir m _ => m end.

(** [st_size]; the size of a directory is that of one block. *)
Definition node_size (n : node) : Z :=
  match n with File c _ => len c | Dir _ _ => 4096 end.

Definition entry_names (want_dirs : bool) (es : list (string * node))
  : list string :=
  map fst (filter (fun e => Bool.eqb (is_dir_node (snd e)) want_dirs = true) es).

(** [os.walk(top, topdown=False)] on the node [n] that [top] names: the
    triples [(root, dirs, files)], those of the subdirectories first. *)
Fixpoint os_walk (top : string) (n : node)
  : list (string * list string * list string) :=
  match n with
  | File _ _ => []
  | Dir _ es =>
      (fix below (l : list (string * node)) :=
         match l with
         | [] => []
         | (name, child) :: l' =>
             os_walk (path_join top name) child ++ below l'
         end) es
      ++ [(top, entry_names true es, entry_names false es)]
  end.

(** ** Sockets and the network *)

(** A socket object: its descriptor and its timeout ([None]: blocking). *)
Record socket := Socket { fd : nat; timeout : option Z }.

Inductive accept_outcome :=
| AcceptConn (ip : string) (port : Z)   (* a peer connects from this address *)
| AcceptErr (e : errno)                 (* the call fails *)
| AcceptNoPeer.                         (* no peer ever connects *)

Inductive recv_outcome :=
| RecvData (bs : list byte)   (* these bytes arrive; none: the stream ended *)
| RecvErr (e : errno).        (* the call fails *)

(** The outcomes of the successive calls of each kind, [None] being success.
    When a list is empty: [connect] is refused, [bind], [listen] and [send]
    succeed, no peer connects to [accept], and [recv] sees the end of the
    stream. *)
Record network := Network {
  connects : list (option errno);
  binds : list (option errno);
  listens : list (option errno);
  accepts : list accept_outcome;
  sends : list (option errno);
  inbox : list recv_outcome;
  next_fd : nat
}.

(** ** Transfer records *)

Record TransferRecord := Rec { ownership : bool; mtime : option Z }.

(** ** What a run does, in order *)

Inductive event :=
| ESetOwnership (path : string) (val : bool)
| EAddRec (path : string)
| EDelRec (path : string)
| ENewSocket (s : nat)
| EConnect (s : nat) (ip : string) (port : Z)
| EBind (s : nat) (port : Z)
| EListen (s : nat) (backlog : Z)
| EAccept (s : nat) (tmo : option Z)
| ESend (bs : list byte)
| ESendfile (path : string) (bs : list byte)
| ERecv (n : Z) (bs : list byte)
| EMkdir (path : string)
| EOpenWb (path : string)
| EWrite (path : string) (bs : list byte)
| ECallSend
| ECallReceive
| ECallResume.

(** ** The world *)

Record world := World {
  record : gmap string TransferRecord;   (* Recorder.record *)
  sock : socket;                         (* Peer.sock *)
  conn_sock : option socket;             (* Peer.conn_sock; None is None *)
  mode : Z;                              (* Peer.mode: 0, 1 client, 2 server *)
  fs : node;                             (* the working directory *)
  now : Z;                               (* the clock *)
  net : network;
  trace : list event
}.

Definition set_record (r : gmap string TransferRecord) (w : world) : world :=
  World r (sock w) (conn_sock w) (mode w) (fs w) (now w) (net w) (trace w).
Definition set_sock (s : socket) (w : world) : world :=
  World (record w) s (conn_sock w) (mode w) (fs w) (now w) (net w) (trace w).
Definition set_conn_sock (c : option socket) (w : world) : world :=
  World (record w) (sock w) c (mode w) (fs w) (now w) (net w) (trace w).
Definition set_mode (m : Z) (w : world) : world :=
  World (record w) (sock w) (conn_sock w) m (fs w) (now w) (net w) (trace w).
(** A change of the file tree; the clock ticks. *)
Definition set_fs (f : node) (w : world) : world :=
  World (record w) (sock w) (conn_sock w) (mode w) f (now w + 1) (net w)
    (trace w).
Definition set_net (n : network) (w : world) : world :=
  World (record w) (sock w) (conn_sock w) (mode w) (fs w) (now w) n (trace w).
Definition add_event (e : event) (w : world) : world :=
  World (record w) (sock w) (conn_sock w) (mode w) (fs w) (now w) (net w)
    (trace w ++ [e]).

(** ** The monad: state, exceptions, blocking and fuel *)

Inductive res (A : Type) :=
| Ret (a : A) (w : world)       (* returns [a] *)
| Raise (e : exn) (w : world)   (* raises [e] *)
| Hang (w : world)              (* blocks for ever in a system call *)
| OutOfFuel.                    (* the loop needs more fuel *)
Arguments Ret {A} a w.
Arguments Raise {A} e w.
Arguments Hang {A} w.
Arguments OutOfFuel {A}.

Definition M (A : Type) : Type := world -> res A.

Definition ret {A} (a : A) : M A := fun w => Ret a w.

Definition bind {A B} (m : M A) (f : A -> M B) : M B :=
  fun w =>
    match m w with
    | Ret a w' => f a w'
    | Raise e w' => Raise e w'
    | Hang w' => Hang w'
    | OutOfFuel => OutOfFuel
    end.

#[global] Instance M_ret : MRet M := @ret.
#[global] Instance M_bind : MBind M := fun A B f m => bind m f.

Definition raise {A} (e : exn) : M A := fun w => Raise e w.

Definition out_of_fuel {A} : M A := fun _ => OutOfFuel.

Definition hang {A} : M A := fun w => Hang w.

Definition lift {A} (r : result A) : M A :=
  match r with Ok a => ret a | Err e => raise e end.

Definition gets {A} (f : world -> A) : M A := fun w => Ret (f w) w.

Definition modify (f : world -> world) : M unit := fun w => Ret tt (f w).

Definition log (e : event) : M unit := modify (add_event e).

(** [try: m except <classes>: h] *)
Definition try_except {A} (m : M A) (classes : exn -> bool) (h : M A) : M A :=
  fun w =>
    match m w with
    | Raise e w' => if classes e then h w' else Raise e w'
    | r => r
    end.

(** [while cond: body], the local variables of the loop being [s]. *)
Fixpoint while {S} (fuel : nat) (cond : S -> M bool) (body : S -> M S) (s : S)
  : M S :=
  bind (cond s) (fun c : bool =>
    if c then
      match fuel return M S with
      | O => out_of_fuel
      | Datatypes.S n => bind (body s) (while n cond body)
      end
    else ret s).

(** [for x in l: body], the local variables of the loop being [s]. *)
Fixpoint fold_each {A S} (l : list A) (body : S -> A -> M S) (s : S) : M S :=
  match l with
  | [] => ret s
  | x :: l' => s' ← body s x; fold_each l' body s'
  end.

(** [for x in l: body] *)
Fixpoint for_each {A} (l : list A) (body : A -> M unit) : M unit :=
  match l with
  | [] => ret tt
  | x :: l' => body x ;; for_each l' body
  end.

Definition when (b : bool) (m : M unit) : M unit := if b then m else ret tt.

(** ** File-system calls *)

Definition is_some {A} (o : option A) : bool :=
  match o with Some _ => true | None => false end.

(** [os.path.isdir(path)] *)
Definition isdir (path : string) : M bool :=
  gets (fun w =>
    match fs_lookup (fs w) path with Some n => is_dir_node n | None => false end).

(** [os.path.exists(path)] *)
Definition path_exists (path : string) : M bool :=
  gets (fun w => is_some (fs_lookup (fs w) path)).

Definition stat {A} (field : node -> A) (path : string) : M A :=
  fun w =>
    match fs_lookup (fs w) path with
    | Some n => Ret (field n) w
    | None => Raise FileNotFoundError w
    end.

(** [os.path.getmtime(path)], [os.stat(path).st_mtime] *)
Definition getmtime : string -> M Z := stat node_mtime.

(** [os.path.getsize(path)] *)
Definition getsize : string -> M Z := stat node_size.

(** The whole content of [path], as [open(path, "r")] or [open(path, "rb")]
    followed by a read to the end gives it. *)
Definition read_file (path : string) : M (list byte) :=
  fun w =>
    match fs_lookup (fs w) path with
    | Some (File c _) => Ret c w
    | Some (Dir _ _) => Raise IsADirectoryError w
    | None => Raise FileNotFoundError w
    end.

Definition fs_update (f : Z -> option node -> result node) (path : string)
  : M unit :=
  fun w =>
    match fs_alter (now w) (f (now w)) path (fs w) with
    | Ok root' => Ret tt (set_fs root' w)
    | Err e => Raise e w
    end.

(** [os.mkdir(path)] *)
Definition os_mkdir (path : string) : M unit :=
  fs_update mkdir_node path ;; log (EMkdir path).

(** [open(path, "wb")] *)
Definition open_wb (path : string) : M unit :=
  fs_update truncate_node path ;; log (EOpenWb path).

(** [f.write(bs)], [f] being [path] opened for writing. *)
Definition f_write (path : string) (bs : list byte) : M unit :=
  fs_update (fun t => append_node t bs) path ;; log (EWrite path bs).

(** ** Socket calls *)

Definition pop {A} (l : list A) : list A := tail l.

(** [socket.socket(socket.AF_INET, socket.SOCK_STREAM)] *)
Definition socket_new : M socket :=
  fun w =>
    let n := net w in
    let s := Socket (next_fd n) None in
    Ret s
      (add_event (ENewSocket (fd s))
         (set_net (Network (connects n) (binds n) (listens n) (accepts n)
                     (sends n) (inbox n) (S (next_fd n))) w)).

Definition outcome (o : option errno) : M unit :=
  match o with
  | None => ret tt
  | Some e => raise (exn_of_errno e)
  end.

(** [s.connect((ip, port))] *)
Definition sock_connect (s : socket) (ip : string) (port : Z) : M unit :=
  log (EConnect (fd s) ip port) ;;
  n ← gets net;
  modify (set_net (Network (pop (connects n)) (binds n) (listens n)
                     (accepts n) (sends n) (inbox n) (next_fd n))) ;;
  outcome (default (Some ECONNREFUSED) (head (connects n))).

(** [s.bind((host, port))], the host being the empty string *)
Definition sock_bind (s : socket) (port : Z) : M unit :=
  log (EBind (fd s) port) ;;
  n ← gets net;
  modify (set_net (Network (connects n) (pop (binds n)) (listens n)
                     (accepts n) (sends n) (inbox n) (next_fd n))) ;;
  outcome (default None (head (binds n))).

(** [s.listen(backlog)] *)
Definition sock_listen (s : socket) (backlog : Z) : M unit :=
  log (EListen (fd s) backlog) ;;
  n ← gets net;
  modify (set_net (Network (connects n) (binds n) (pop (listens n))
                     (accepts n) (sends n) (inbox n) (next_fd n))) ;;
  outcome (default None (head (listens n))).

(** [s.accept()]: the new connection socket and the address of the peer.
    When no peer connects, a socket without a timeout waits for ever and a
    socket with one raises [socket.timeout]. *)
Definition sock_accept (s : socket) : M (socket * (string * Z)) :=
  log (EAccept (fd s) (timeout s)) ;;
  n ← gets net;
  match default AcceptNoPeer (head (accepts n)) with
  | AcceptConn ip port =>
      modify (set_net (Network (connects n) (binds n) (listens n)
                         (pop (accepts n)) (sends n) (inbox n)
                         (S (next_fd n)))) ;;
      ret (Socket (next_fd n) None, (ip, port))
  | AcceptErr e =>
      modify (set_net (Network (connects n) (binds n) (listens n)
                         (pop (accepts n)) (sends n) (inbox n) (next_fd n))) ;;
      raise (exn_of_errno e)
  | AcceptNoPeer =>
      match timeout s with
      | None => hang
      | Some _ =>
          modify (set_net (Network (connects n) (binds n) (listens n)
                             (pop (accepts n)) (sends n) (inbox n)
                             (next_fd n))) ;;
          raise SocketTimeout
      end
  end.

(** The transmission of [ev] on the connection socket [c]; calling a method
    of [None] raises [AttributeError]. *)
Definition transmit (c : option socket) (ev : event) : M unit :=
  match c with
  | None => raise AttributeError
  | Some _ =>
      n ← gets net;
      modify (set_net (Network (connects n) (binds n) (listens n) (accepts n)
                         (pop (sends n)) (inbox n) (next_fd n))) ;;
      outcome (default None (head (sends n))) ;;
      log ev
  end.

(** [c.send(bs)] *)
Definition sock_send (c : option socket) (bs : list byte) : M unit :=
  transmit c (ESend bs).

(** [with open(path, "rb") as f: c.sendfile(f)] *)
Definition sock_sendfile (c : option socket) (path : string) : M unit :=
  content ← read_file path;
  transmit c (ESendfile path content).

(** [c.recv(n)]: at most [n] of the bytes that have arrived, and no byte
    at the end of the stream. *)
Definition sock_recv (c : option socket) (n : Z) : M (list byte) :=
  match c with
  | None => raise AttributeError
  | Some _ =>
      if n <? 0 then raise ValueError else
      nw ← gets net;
      let set_inbox i :=
        modify (set_net (Network (connects nw) (binds nw) (listens nw)
                           (accepts nw) (sends nw) i (next_fd nw))) in
      match inbox nw with
      | [] => log (ERecv n []) ;; ret []
      | RecvErr e :: rest => set_inbox rest ;; raise (exn_of_errno e)
      | RecvData bs :: rest =>
          let got := take (Z.to_nat n) bs in
          let left := drop (Z.to_nat n) bs in
          set_inbox (match left with [] => rest | _ => RecvData left :: rest end) ;;
          log (ERecv n got) ;;
          ret got
      end
  end.

Section Program.

(** [json.loads] ([None]: [json.JSONDecodeError]) and [json.dumps] on the
    text of the record file, and the arguments of [Peer.__init__]. *)
Variable json_loads : string -> option (gmap string TransferRecord).
Variable json_dumps : gmap string TransferRecord -> string.
Variable peer_ip : string.
Variable port : Z.
Variable receive_buffer_size : Z.

(** ** class Recorder *)

Definition record_file_dir : string := "./sync_record.json".
Definition share_dir : string := "./share".

(** [with open(self.record_file_dir, "r") as r: json.load(r)]: the file is
    read as text, in UTF-8, and the text is parsed. *)
Definition json_load : M (gmap string TransferRecord) :=
  content ← read_file record_file_dir;
  text ← lift (decode content);
  match json_loads text with
  | Some r => ret r
  | None => raise JSONDecodeError
  end.

(** [with open(self.record_file_dir, "w") as r: json.dump(self.record, r)] *)
Definition json_dump : M unit :=
  r ← gets record;
  fs_update truncate_node record_file_dir ;;
  fs_update (fun t => append_node t (encode (json_dumps r))) record_file_dir.

(** [Recorder.__init__] *)
Definition Recorder_init : M unit :=
  try_except
    (r ← json_load; modify (set_record r))
    is_JSONDecodeError_or_FileNotFoundError
    (modify (set_record ∅)).

(** [Recorder.__is_unsent] *)
Definition is_unsent (path : string) : M bool :=
  d ← isdir path;
  if negb d then
    r ← gets record;
    match r !! path with
    | None => ret true
    | Some rec =>
        match mtime rec with
        | Some m => t ← getmtime path; ret (negb (t =? m))
        | None => ret (ownership rec)
        end
    end
  else ret false.

(** [Recorder.set_ownership] *)
Definition set_ownership (path : string) (val : bool) : M unit :=
  log (ESetOwnership path val) ;;
  r ← gets record;
  modify (set_record (<[path := Rec val None]> r)) ;;
  json_dump.

(** [Recorder.add_rec]; [self.record[path]] raises [KeyError] when the
    path has no record. *)
Definition add_rec (path : string) : M unit :=
  log (EAddRec path) ;;
  r ← gets record;
  match r !! path with
  | None => raise KeyError
  | Some rec =>
      t ← getmtime path;
      modify (set_record (<[path := Rec (ownership rec) (Some t)]> r)) ;;
      json_dump
  end.

(** [Recorder.del_rec] *)
Definition del_rec (path : string) : M unit :=
  log (EDelRec path) ;;
  r ← gets record;
  modify (set_record (delete path r)) ;;
  json_dump.

(** [Recorder.get_unsent_files] *)
Definition get_unsent_files : M (list string) :=
  walk ← gets (fun w =>
    match fs_lookup (fs w) share_dir with
    | Some n => os_walk share_dir n
    | None => []
    end);
  fold_each walk (fun unsent_file_lst '(root, dirs, files) =>
    fold_each (files ++ dirs) (fun unsent_file_lst name =>
      let path := path_join root name in
      b ← is_unsent path;
      ret (if b : bool then unsent_file_lst ++ [path] else unsent_file_lst))
    unsent_file_lst) [].

(** ** class Peer *)

(** [Peer.__run_as_client] *)
Definition run_as_client : M unit :=
  try_except
    (s ← gets sock;
     sock_connect s peer_ip port ;;
     modify (set_conn_sock (Some s)) ;;
     modify (set_mode 1))
    (fun e => is_ConnectionError e || is_OSError e)
    (ret tt).

(** [Peer.__run_as_server] *)
Definition run_as_server : M unit :=
  try_except
    (s ← gets sock;
     sock_bind s port ;;
     sock_listen s 2 ;;
     '(c, address) ← sock_accept s;
     modify (set_conn_sock (Some c)) ;;
     modify (set_mode 2))
    (fun e => is_OSError e || match e with SocketTimeout => true | _ => false end)
    (ret tt).

(** [Peer.__start] *)
Definition start (fuel : nat) : M unit :=
  while fuel
    (fun _ => m ← gets mode; ret (m =? 0))
    (fun _ =>
       run_as_client ;;
       m ← gets mode;
       when (negb (m =? 1)) run_as_server)
    tt.

(** One file of [Peer.__send]: the body of its [for] loop. *)
Definition send_file (path : string) : M unit :=
  set_ownership path true ;;
  let path_bin := encode path in
  file_size ← getsize path;
  header_path ← lift (header_pack (len path_bin) file_size);
  c ← gets conn_sock;
  sock_send c (header_path ++ path_bin) ;;
  c ← gets conn_sock;
  sock_sendfile c path ;;
  add_rec path.

(** [Peer.__send] *)
Definition send : M unit :=
  log ECallSend ;;
  unsent_files ← get_unsent_files;
  when (negb (bool_decide (unsent_files = [])))
    (for_each unsent_files send_file) ;;
  terminator ← lift (header_pack 0 0);
  c ← gets conn_sock;
  sock_send c terminator.

(** One turn of the inner loop of [Peer.__receive], which reads the content
    of the file: it returns the new [received_bytes]. *)
Definition payload_step (path : string) (file_size received_bytes : Z) : M Z :=
  c ← gets conn_sock;
  bytes_read ← sock_recv c
    (Z.min (file_size - received_bytes) receive_buffer_size);
  f_write path bytes_read ;;
  ret (received_bytes + len bytes_read).

(** The inner loop: [while received_bytes < file_size]. *)
Definition receive_payload (fuel : nat) (path : string) (file_size : Z)
  : M Z :=
  while fuel
    (fun received_bytes => ret (received_bytes <? file_size))
    (payload_step path file_size)
    0.

(** The [else] branch of the [try] in [Peer.__receive]: the frame of a
    file, after its header. *)
Definition receive_file (fuel : nat) (path_size file_size : Z) : M bool :=
  c ← gets conn_sock;
  path_bin ← sock_recv c path_size;
  path ← lift (decode path_bin);
  del_rec path ;;
  set_ownership path false ;;
  parent_exists ← path_exists (rsplit_head path);
  when (negb parent_exists) (os_mkdir (rsplit_head path)) ;;
  open_wb path ;;
  receive_payload fuel path file_size ;;
  add_rec path ;;
  ret true.

(** The body of the [try] in [Peer.__receive]: it returns [more_files]. *)
Definition receive_frame (fuel : nat) : M bool :=
  c ← gets conn_sock;
  header_info ← sock_recv c header_len;
  '(path_size, file_size) ← lift (header_unpack header_info);
  if (path_size =? file_size) && (file_size =? 0) then ret false
  else receive_file fuel path_size file_size.

(** One turn of the [while more_files] loop. *)
Definition receive_step (fuel : nat) : M bool :=
  try_except (receive_frame fuel) is_struct_error (ret false).

(** [Peer.__receive] *)
Definition receive (fuel : nat) : M unit :=
  log ECallReceive ;;
  while fuel
    (fun more_files : bool => ret more_files)
    (fun _ => receive_step fuel)
    true ;;
  ret tt.

(** [Peer.resume] *)
Definition resume (fuel : nat) : M unit :=
  log ECallResume ;;
  m ← gets mode;
  if m =? 2 then
    s ← gets sock;
    '(c, address) ← sock_accept s;
    modify (set_conn_sock (Some c))
  else
    s ← socket_new;
    modify (set_sock s) ;;
    run_as_server ;;
    m ← gets mode;
    when (negb (m =? 2)) (modify (set_mode 0) ;; start fuel).

(** The body of the [try] in [Peer.sync]. *)
Definition sync_body (fuel : nat) : M unit :=
  m ← gets mode;
  if m =? 2 then
    c ← gets conn_sock;
    b ← sock_recv c 1;
    cmd ← lift (decode b);
    if String.eqb cmd "s" then send
    else if String.eqb cmd "r" then receive fuel
    else ret tt
  else if m =? 1 then
    c ← gets conn_sock;
    sock_send c (encode "s") ;;
    receive fuel ;;
    c ← gets conn_sock;
    sock_send c (encode "r") ;;
    send
  else ret tt.

(** One turn of the [while True] loop of [Peer.sync]. *)
Definition sync_step (fuel : nat) : M unit :=
  try_except (sync_body fuel) is_ConnectionError (resume fuel).



(** [Peer.__init__] *)
Definition Peer_init (fuel : nat) : M unit :=
  Recorder_init ;;
  s ← socket_new;
  modify (set_sock s) ;;
  modify (set_conn_sock None) ;;
  modify (set_mode 0) ;;
  start fuel.

End Program.

(** * Vocabulary of the statements *)

(** The world in which a computation ended, if it did. *)
Definition final_world {A} (r : res A) : option world :=
  match r with
  | Ret _ w | Raise _ w | Hang w => Some w
  | OutOfFuel => None
  end.

(** The reads of the content of a file and the writes to it: each chunk is
    the size asked of [recv] and the bytes it returned. *)
Definition chunk_events (path : string) (chunks : list (Z * list byte))
  : list event :=
  flat_map (fun nc => [ERecv (fst nc) (snd nc); EWrite path (snd nc)]) chunks.

Definition chunks_size (chunks : list (Z * list byte)) : Z :=
  foldr (fun nc acc => len (snd nc) + acc) 0 chunks.

Definition chunk_ok (buffer_size : Z) (nc : Z * list byte) : Prop :=
  0 <= fst nc <= buffer_size /\ len (snd nc) <= fst nc.


(** The header [(0, 0)]. *)
Definition terminator : list byte := be32 0 ++ be32 0.

(** [path] names a regular file of the tree, as it does while the file is
    open for writing. *)
Definition is_open_file (path : string) (w : world) : Prop :=
  String.eqb path EmptyString || is_absolute path = false
  /\ components path <> []
  /\ exists content m, resolve (components path) (fs w) = Some (File content m).

(** The attributes of the peer and the network are the same in [w'] as in
    [w]. *)
Definition same_peer (w w' : world) : Prop :=
  net w' = net w /\ mode w' = mode w
  /\ sock w' = sock w /\ conn_sock w' = conn_sock w.

(** How a computation ends. *)
Inductive ending :=
| Returned
| Raised (e : exn)
| Hung
| Starved.

Definition ending_of {A} (r : res A) : ending :=
  match r with
  | Ret _ _ => Returned
  | Raise e _ => Raised e
  | Hang _ => Hung
  | OutOfFuel => Starved
  end.

(** [m] never ends in one of the ways [bad]. *)
Definition avoids {A} (bad : ending -> Prop) (m : M A) : Prop :=
  forall w, ~ bad (ending_of (m w)).

(** Raising [struct.error]; running out of fuel. *)
Definition struct_error : ending -> Prop := fun x => x = Raised StructError.

(** What receiving the frame of a file does after the header is read;
    [mk] is the creation of the directory, if any. *)
Definition frame_events (path_size : Z) (path_bin : list byte) (path : string)
    (mk : list event) (chunks : list (Z * list byte)) : list event :=
  [ERecv path_size path_bin; EDelRec path; ESetOwnership path false]
  ++ mk ++ [EOpenWb path] ++ chunk_events path chunks ++ [EAddRec path].

(** [m] only reads the record and the file tree: on worlds that agree on
    them it ends the same way and changes nothing. *)
Definition reads_only {A} (m : M A) : Prop :=
  forall w, exists r : result A,
    forall w2, record w2 = record w -> fs w2 = fs w ->
      m w2 = match r with Ok a => Ret a w2 | Err e => Raise e w2 end.


(** The three calls of [__run_as_server] on the socket [s]. *)
Definition server_attempt (s : socket) (port : Z) : list event :=
  [EBind (fd s) port; EListen (fd s) 2; EAccept (fd s) (timeout s)].

(** The name of the record file in the working directory. *)
Definition record_file_name : string := "sync_record.json".

(** The record file can be written: the working directory is a directory
    and its entry of that name, if any, is a regular file. *)
Definition record_file_writable (root : node) : Prop :=
  match root with
  | Dir _ es =>
      match assoc record_file_name es with
      | Some (Dir _ _) => False
      | _ => True
      end
  | File _ _ => False
  end.

(** [root'] is [root] but for the record file and the time of the working
    directory. *)
Definition same_but_record_file (root root' : node) : Prop :=
  match root, root' with
  | Dir _ es, Dir _ es' =>
      forall c, c <> record_file_name -> assoc c es' = assoc c es
  | _, _ => False
  end.



(** * Worlds for the examples *)

(** [src/main.py] *)
Module main.
Definition port : Z := 23333.
Definition buffer_size : Z := 104857600.
End main.

Module Examples.

(** A stand-in for the [json] module: it prints a record map in the layout
    of [sync_record.json], and reads back the document without records. *)
Definition dquote : string := String (Ascii.ascii_of_nat 34) EmptyString.

Definition quoted (s : string) : string := dquote +:+ s +:+ dquote.

Definition print_record (path : string) (r : TransferRecord) : string :=
  quoted path +:+ ": {" +:+ quoted "ownership" +:+ ": "
  +:+ (if ownership r then "true" else "false")
  +:+ match mtime r with
      | Some t => ", " +:+ quoted "mtime" +:+ ": " +:+ pretty t
      | None => EmptyString
      end
  +:+ "}".

Definition json_dumps (r : gmap string TransferRecord) : string :=
  "{" +:+ String.concat ", "
            (map (fun kv => print_record (fst kv) (snd kv)) (map_to_list r))
  +:+ "}".

Definition json_loads (text : string) : option (gmap string TransferRecord) :=
  if String.eqb text "{}" then Some ∅ else None.

Definition peer_ip : string := "192.168.0.2".

Definition quiet : network := Network [] [] [] [] [] [] 3.

Definition a_socket : socket := Socket 0 None.

(** A share directory with two files, one of them in a subdirectory. *)
Definition share_tree : node :=
  Dir 0 [("share",
          Dir 0 [("a.txt", File [x61; x62] 5);
                 ("d", Dir 0 [("b.txt", File [x63] 6)])])].

(** A client with two files to send. *)
Definition w_client : world :=
  World ∅ a_socket (Some a_socket) 1 share_tree 10 quiet [].

Definition w_sent : world :=
  match send json_dumps w_client with
  | Ret _ w' => w'
  | _ => w_client
  end.

(** The frame of the file [./share/new/f.txt] of content ["hey"], and the
    terminator. *)
Definition a_frame : list byte :=
  be32 17 ++ be32 3 ++ encode "./share/new/f.txt" ++ encode "hey".

Definition w_incoming : world :=
  World ∅ a_socket (Some a_socket) 1 share_tree 10
    (Network [] [] [] [] [] [RecvData a_frame; RecvData terminator] 3) [].




(** The next header is the terminator. *)
Definition w_terminator : world :=
  World ∅ a_socket (Some a_socket) 1 share_tree 10
    (Network [] [] [] [] [] [RecvData terminator] 3) [].

Definition w_terminator_read : world :=
  match sock_recv (conn_sock w_terminator) header_len w_terminator with
  | Ret _ w' => w'
  | _ => w_terminator
  end.

(** A server whose client sends the byte ["x"] as the command. *)
Definition w_server_x : world :=
  World ∅ a_socket (Some (Socket 1 None)) 2 share_tree 10
    (Network [] [] [] [] [] [RecvData [x78]] 3) [].

Definition w_server_x_read : world :=
  match sock_recv (conn_sock w_server_x) 1 w_server_x with
  | Ret _ w' => w'
  | _ => w_server_x
  end.

(** A server whose connection is reset, and to which the client then
    connects again. *)
Definition w_server_reset : world :=
  World ∅ a_socket (Some (Socket 1 None)) 2 share_tree 10
    (Network [] [] [] [AcceptConn "192.168.0.2" 50000] []
       [RecvErr ECONNRESET] 3) [].


(** A server whose connection is reset, and whose next [accept] fails:
    the connection that was waiting was aborted. *)
Definition w_server_reset_abort : world :=
  World ∅ a_socket (Some (Socket 1 None)) 2 share_tree 10
    (Network [] [] [] [AcceptErr ECONNABORTED] []
       [RecvErr ECONNRESET] 3) [].

(** A server whose connection times out: the client is unplugged. *)
Definition w_server_timed_out : world :=
  World ∅ a_socket (Some (Socket 1 None)) 2 share_tree 10
    (Network [] [] [] [] [] [RecvErr ETIMEDOUT] 3) [].


(** The record file was cut short by a crash: its text is not JSON. *)
Definition w_cut_record : world :=
  World ∅ a_socket None 0
    (Dir 0 [("sync_record.json", File (encode "{") 1)]) 10 quiet [].

(** The record file holds a byte that is not UTF-8 text. *)
Definition w_binary_record : world :=
  World ∅ a_socket None 0
    (Dir 0 [("sync_record.json", File [xff] 1)]) 10 quiet [].

(** A peer that starts when the other peer is down and stays down: the
    connection is refused and no peer ever connects. *)
Definition w_boot : world :=
  World ∅ a_socket None 0 share_tree 10 quiet [].

End Examples.

(** * Vocabulary of the further properties *)

(** The classes raised by the calls on the file tree. *)
Definition is_fs_error (e : exn) : bool :=
  match e with
  | FileNotFoundError | FileExistsError
  | IsADirectoryError | NotADirectoryError => true
  | _ => false
  end.

(** The paths [get_unsent_files] looks at, in the order of its two loops. *)
Definition walk_paths (w : world) : list string :=
  flat_map (fun t => map (path_join (fst (fst t))) (snd t ++ snd (fst t)))
    (match fs_lookup (fs w) share_dir with
     | Some n => os_walk share_dir n
     | None => []
     end).

Definition returns_true (r : res bool) : bool :=
  match r with
  | Ret true _ => true
  | _ => false
  end.

(** [path] does not go through the record file: it is absolute, and then
    names nothing in the tree, or its first name is another one. *)
Definition off_record_file (path : string) : Prop :=
  is_absolute path = true
  \/ exists c0 cs, components path = c0 :: cs /\ c0 <> record_file_name.

(** However [m] ends, the world it leaves is related by [R] to the one it
    started in. *)
Definition keeps {A} (R : world -> world -> Prop) (m : M A) : Prop :=
  forall w w', final_world (m w) = Some w' -> R w w'.

(** [m] raises exceptions of the classes [cls] only. *)
Definition raises_only {A} (cls : exn -> bool) (m : M A) : Prop :=
  forall w e w', m w = Raise e w' -> cls e = true.

Definition same_record (w w' : world) : Prop := record w' = record w.

Definition same_record_and_files (w w' : world) : Prop :=
  record w' = record w /\ fs w' = fs w.

(** The files are the same but perhaps for the record file. *)
Definition same_files_but_record_file (w w' : world) : Prop :=
  fs w' = fs w \/ same_but_record_file (fs w) (fs w').

(** The peer has a connection: as a client on its own socket, or as a
    server on the socket [accept] returned. *)
Definition connected (w : world) : Prop :=
  (mode w = 1 /\ conn_sock w = Some (sock w))
  \/ (mode w = 2 /\ is_some (conn_sock w) = true).

(** Induction on a file tree, the entries of a directory being trees. *)
Fixpoint node_induction (P : node -> Prop)
    (HF : forall c m, P (File c m))
    (HD : forall m es, Forall (fun e => P (snd e)) es -> P (Dir m es))
    (n : node) : P n :=
  match n with
  | File c m => HF c m
  | Dir m es =>
      HD m es
        ((fix entries (l : list (string * node))
            : Forall (fun e => P (snd e)) l :=
            match l with
            | [] => Stdlib.Lists.List.Forall_nil _
            | (name, child) :: l' =>
                @Stdlib.Lists.List.Forall_cons _ (fun e => P (snd e)) (name, child) l'
                  (node_induction P HF HD child) (entries l')
            end) es)
  end.

(** [path] is absolute, and then names nothing in the tree, or goes
    through the shared directory. *)
Definition under_share (path : string) : Prop :=
  is_absolute path = true \/ exists cs, components path = "share" :: cs.

(** The classes with which a failed socket call raises. *)
Definition is_network_error (e : exn) : bool :=
  match e with
  | ConnectionResetError | BrokenPipeError | ConnectionAbortedError
  | ConnectionRefusedError | TimeoutError | OSError _ => true
  | _ => false
  end.

(** What [__send] can raise: an error of the file system, [struct.error],
    an error of the network, or [AttributeError] (no connection socket). *)
Definition send_error (e : exn) : bool :=
  is_fs_error e || is_struct_error e || is_network_error e
  || match e with AttributeError => true | _ => false end.

(** What [__receive] can raise: an error of the file system, a path that
    is not UTF-8, an error of the network, [AttributeError] (no connection
    socket) or [ValueError] (a negative size asked of [recv]). *)
Definition receive_error (e : exn) : bool :=
  is_fs_error e || is_network_error e
  || match e with
     | UnicodeDecodeError | AttributeError | ValueError => true
     | _ => false
     end.

(** The role of the peer and its sockets are the same. *)
Definition same_connection (w w' : world) : Prop :=
  mode w' = mode w /\ sock w' = sock w /\ conn_sock w' = conn_sock w.

(** A name as a directory lists it: not empty, not ["."], without ["/"]. *)
Definition proper_name (c : string) : bool :=
  is_name c
  && forallb (fun a => negb (Ascii.eqb a slash)) (list_ascii_of_string c).

(** A tree as a file system holds it: in every directory the names are
    proper and no two entries have the same name. *)
Fixpoint well_formed (n : node) : bool :=
  match n with
  | File _ _ => true
  | Dir _ es =>
      bool_decide (NoDup (map fst es))
      && (fix entries (l : list (string * node)) : bool :=
            match l with
            | [] => true
            | (name, child) :: l' =>
                proper_name name && well_formed child && entries l'
            end) es
  end.

(** * Further worlds for the examples *)

Module Cases.


(** A client whose connection is reset while it sends the content of its
    first file: the header and the path have gone. *)
Definition w_send_cut : world :=
  World ∅ Examples.a_socket (Some Examples.a_socket) 1 Examples.share_tree 10
    (Network [] [] [] [] [None; Some ECONNRESET] [] 3) [].

(** A peer to which the path of a file has arrived, and whose connection
    is reset before the content does. *)
Definition w_receive_cut : world :=
  World ∅ Examples.a_socket (Some Examples.a_socket) 1 Examples.share_tree 10
    (Network [] [] [] [] []
       [RecvData (encode "./share/f.txt"); RecvErr ECONNRESET] 3) [].

(** A peer with an empty shared directory, to which the frame that the
    client of the examples sends for [./share/a.txt] arrives. *)
Definition w_frame_arrives : world :=
  World ∅ Examples.a_socket (Some Examples.a_socket) 2
    (Dir 0 [("share", Dir 0 [])]) 10
    (Network [] [] [] [] []
       [RecvData (be32 13 ++ be32 2 ++ encode "./share/a.txt");
        RecvData [x61; x62]] 3) [].


End Cases.

(** * Properties *)

(** ** The header *)

Lemma Z_of_byte_of_Z (z : Z) : Z_of_byte (byte_of_Z z) = Z.land z 255.
Proof.
  unfold Z_of_byte, byte_of_Z.
  assert (Hr : 0 <= Z.land z 255 <= 255).
  { assert (E : Z.land z 255 = z mod 2 ^ 8)
      by (change 255 with (Z.ones 8); apply Z.land_ones; lia).
    rewrite E. change (2 ^ 8) with 256.
    pose proof (Z.mod_pos_bound z 256 ltac:(lia)). lia. }
  destruct (Byte.of_N (Z.to_N (Z.land z 255))) as [b|] eqn:Hb; simpl.
  - apply Byte.to_of_N in Hb. rewrite Hb. lia.
  - apply Byte.of_N_None_iff in Hb. lia.
Qed.

Lemma testbit_255 (i : Z) : 0 <= i -> Z.testbit 255 i = (i <? 8).
Proof.
  intros Hi. change 255 with (Z.ones 8).
  destruct (Z.ltb_spec i 8).
  - apply Z.ones_spec_low. lia.
  - apply Z.ones_spec_high. lia.
Qed.

Lemma uint32_testbit_high (z i : Z) :
  0 <= z <= uint32_max -> 32 <= i -> Z.testbit z i = false.
Proof.
  intros Hz Hi. unfold uint32_max in Hz.
  rewrite <- (Z.mod_small z (2 ^ 32)) by lia.
  apply Z.mod_pow2_bits_high. lia.
Qed.

Lemma byte_field_testbit (z k i : Z) :
  0 <= k -> 0 <= i ->
  Z.testbit (Z.shiftl (Z.land (Z.shiftr z k) 255) k) i
  = (k <=? i) && (i <? k + 8) && Z.testbit z i.
Proof.
  intros Hk Hi. rewrite Z.shiftl_spec by lia.
  destruct (Z.leb_spec k i); simpl.
  - rewrite Z.land_spec, Z.shiftr_spec, testbit_255 by lia.
    replace (i - k + k) with i by lia.
    destruct (Z.ltb_spec (i - k) 8), (Z.ltb_spec i (k + 8)); try lia;
      simpl; first [apply andb_true_r | apply andb_false_r].
  - apply Z.testbit_neg_r. lia.
Qed.

Lemma of_be32_be32 (z : Z) :
  0 <= z <= uint32_max ->
  match be32 z with
  | [b3; b2; b1; b0] => of_be32 b3 b2 b1 b0 = z
  | _ => False
  end.
Proof.
  intros Hz. unfold be32, of_be32. rewrite !Z_of_byte_of_Z.
  apply Z.bits_inj'. intros i Hi.
  rewrite !Z.lor_spec, !byte_field_testbit by lia.
  rewrite Z.land_spec, testbit_255 by lia.
  destruct (Z.ltb_spec i 32) as [Hlt|Hge].
  - destruct (Z.testbit z i); [|rewrite !andb_false_r; reflexivity].
    rewrite !andb_true_r. simpl.
    destruct (Z.leb_spec 24 i), (Z.leb_spec 16 i), (Z.leb_spec 8 i),
      (Z.ltb_spec i 8), (Z.ltb_spec i (8 + 8)), (Z.ltb_spec i (16 + 8)),
      (Z.ltb_spec i (24 + 8)); try lia; reflexivity.
  - rewrite (uint32_testbit_high z i Hz Hge). rewrite !andb_false_r. reflexivity.
Qed.

(** Unpacking a packed header gives the two fields back. *)
Lemma header_unpack_pack (a b : Z) (hdr : list byte) :
  header_pack a b = Ok hdr ->
  header_unpack hdr = Ok (a, b) /\ len hdr = header_len.
Proof.
  unfold header_pack. destruct (is_uint32 a && is_uint32 b) eqn:Hr; [|discriminate].
  intros [= <-]. apply andb_true_iff in Hr as [Ha Hb].
  unfold is_uint32 in Ha, Hb.
  apply andb_true_iff in Ha as [Ha1 Ha2]. apply andb_true_iff in Hb as [Hb1 Hb2].
  apply Z.leb_le in Ha1, Ha2, Hb1, Hb2.
  pose proof (of_be32_be32 a (conj Ha1 Ha2)) as Ea.
  pose proof (of_be32_be32 b (conj Hb1 Hb2)) as Eb.
  unfold be32 in *. simpl. rewrite Ea, Eb. split; reflexivity.
Qed.


(** ** The monad *)

Ltac unfold_monad :=
  unfold mbind, M_bind, mret, M_ret, bind, ret, raise, lift, gets, modify,
    log, when, out_of_fuel, hang, outcome in *.

(** Conjunctions of equations between fields of worlds. *)
Ltac fields :=
  repeat match goal with
         | H : _ /\ _ |- _ => destruct H
         | |- _ /\ _ => split
         end;
  simpl in *; try reflexivity; try assumption; try congruence.

Lemma bind_Ret {A B} (m : M A) (f : A -> M B) (w w' : world) (b : B) :
  (m ≫= f) w = Ret b w' ->
  exists a w1, m w = Ret a w1 /\ f a w1 = Ret b w'.
Proof.
  unfold_monad. intros H. destruct (m w) as [a w1| | |]; try discriminate.
  exists a, w1. auto.
Qed.

Lemma run_bind {A B} (m : M A) (f : A -> M B) (w w1 : world) (a : A) :
  m w = Ret a w1 -> (m ≫= f) w = f a w1.
Proof. unfold_monad. intros ->. reflexivity. Qed.

Lemma bind_Raise {A B} (m : M A) (f : A -> M B) (w w' : world) (e : exn) :
  (m ≫= f) w = Raise e w' ->
  m w = Raise e w' \/ exists a w1, m w = Ret a w1 /\ f a w1 = Raise e w'.
Proof.
  unfold_monad. intros H. destruct (m w) as [a w1|e1 w1| |]; try discriminate.
  - right. exists a, w1. auto.
  - left. injection H as -> ->. reflexivity.
Qed.

Lemma try_except_Ret {A} (m h : M A) (cls : exn -> bool) (w w' : world) (a : A) :
  try_except m cls h w = Ret a w' ->
  m w = Ret a w'
  \/ exists e w1, m w = Raise e w1 /\ cls e = true /\ h w1 = Ret a w'.
Proof.
  unfold try_except. intros H. destruct (m w) as [a1 w1|e w1| |]; try discriminate.
  - left. exact H.
  - destruct (cls e) eqn:Hc; [|discriminate]. right. exists e, w1. auto.
Qed.

(** ** What the calls leave in the trace *)

Lemma exn_of_errno_not_struct (e : errno) : exn_of_errno e <> StructError.
Proof. destruct e; discriminate. Qed.

Lemma length_take_le (n : nat) (bs : list byte) : (length (take n bs) <= n)%nat.
Proof. rewrite length_take. lia. Qed.

(** [recv(n)] returns at most [n] bytes; it changes nothing but the bytes
    that wait on the connection. *)
Lemma sock_recv_Ret (c : option socket) (n : Z) (w w' : world) (bs : list byte) :
  sock_recv c n w = Ret bs w' ->
  0 <= n /\ len bs <= n
  /\ trace w' = trace w ++ [ERecv n bs]
  /\ record w' = record w /\ fs w' = fs w /\ now w' = now w
  /\ mode w' = mode w /\ sock w' = sock w /\ conn_sock w' = conn_sock w.
Proof.
  unfold sock_recv. intros H. destruct c; [|discriminate].
  destruct (Z.ltb_spec n 0); [discriminate|].
  unfold_monad. simpl in H.
  destruct (inbox (net w)) as [|[data|e] rest] eqn:Hi; simpl in H;
    [| |discriminate]; injection H as <- <-; simpl;
    (split; [lia|]); (split; [|tauto]).
  - unfold len. simpl. lia.
  - unfold len. pose proof (length_take_le (Z.to_nat n) data). lia.
Qed.

Lemma sock_recv_Raise (c : option socket) (n : Z) (w w' : world) (e : exn) :
  sock_recv c n w = Raise e w' -> e <> StructError.
Proof.
  unfold sock_recv. intros H. destruct c; [|injection H as <- _; discriminate].
  destruct (n <? 0); [injection H as <- _; discriminate|].
  unfold_monad. simpl in H.
  destruct (inbox (net w)) as [|[data|e'] rest]; simpl in H; try discriminate.
  injection H as <- _. apply exn_of_errno_not_struct.
Qed.


(** When [n] bytes or more have arrived, [recv(n)] returns [n] bytes. *)
Lemma sock_recv_full (c : option socket) (n : Z) (w w' : world)
    (bs data : list byte) (rest : list recv_outcome) :
  sock_recv c n w = Ret bs w' ->
  inbox (net w) = RecvData data :: rest -> n <= len data ->
  len bs = n.
Proof.
  unfold sock_recv. intros H Hi Hn. destruct c; [|discriminate].
  destruct (Z.ltb_spec n 0); [discriminate|].
  unfold_monad. simpl in H. rewrite Hi in H. simpl in H.
  injection H as <- _. unfold len in *. rewrite length_take. lia.
Qed.

Lemma fs_update_Ret f (path : string) (w w' : world) (u : unit) :
  fs_update f path w = Ret u w' ->
  exists root', fs_alter (now w) (f (now w)) path (fs w) = Ok root'
                /\ w' = set_fs root' w.
Proof.
  unfold fs_update. intros H.
  destruct (fs_alter (now w) (f (now w)) path (fs w)) as [r|]; [|discriminate].
  injection H as _ <-. eauto.
Qed.

Lemma transmit_Ret (c : option socket) (ev : event) (w w' : world) (u : unit) :
  transmit c ev w = Ret u w' ->
  trace w' = trace w ++ [ev]
  /\ record w' = record w /\ fs w' = fs w /\ now w' = now w
  /\ mode w' = mode w /\ sock w' = sock w /\ conn_sock w' = conn_sock w.
Proof.
  unfold transmit. intros H. destruct c; [|discriminate].
  unfold_monad. simpl in H.
  destruct (default None (head (sends (net w)))); [discriminate|].
  injection H as _ <-. simpl. tauto.
Qed.

(** ** The file tree *)

Lemma assoc_assoc_set_eq {A} (k : string) (v : A) (l : list (string * A)) :
  assoc k (assoc_set k v l) = Some v.
Proof.
  induction l as [|[k' v'] l IH]; simpl.
  - rewrite String.eqb_refl. reflexivity.
  - destruct (String.eqb k k') eqn:E; simpl.
    + rewrite String.eqb_refl. reflexivity.
    + rewrite E. exact IH.
Qed.

Lemma alter_at_deeper (t : Z) f (c0 c1 : string) (cs : list string)
    (dm : Z) (es : list (string * node)) :
  alter_at t f (c0 :: c1 :: cs) (Dir dm es)
  = match assoc c0 es with
    | Some child =>
        match alter_at t f (c1 :: cs) child with
        | Ok child' => Ok (Dir dm (assoc_set c0 child' es))
        | Err e => Err e
        end
    | None => Err FileNotFoundError
    end.
Proof. reflexivity. Qed.

(** Appending to a regular file succeeds and leaves a regular file. *)
Lemma alter_at_append (t : Z) (bs : list byte) (cs : list string) :
  forall (root : node) (c : list byte) (m : Z),
    cs <> [] ->
    resolve cs root = Some (File c m) ->
    exists root',
      alter_at t (append_node t bs) cs root = Ok root'
      /\ resolve cs root' = Some (File (c ++ bs) t).
Proof.
  induction cs as [|c0 cs IH]; intros root c m Hne Hr; [congruence|].
  simpl in Hr. destruct root as [|dm es]; [discriminate|].
  destruct (assoc c0 es) as [child|] eqn:Ha; [|discriminate].
  destruct cs as [|c1 cs].
  - simpl in Hr. injection Hr as ->. simpl. rewrite Ha. simpl.
    eexists. split; [reflexivity|]. simpl.
    rewrite assoc_assoc_set_eq. reflexivity.
  - destruct (IH child c m ltac:(discriminate) Hr) as (child' & Hc & Hr').
    cbn [alter_at]. rewrite Ha.
    cbn [alter_at] in Hc. rewrite Hc.
    eexists. split; [reflexivity|].
    cbn [resolve]. rewrite assoc_assoc_set_eq. exact Hr'.
Qed.

(** A path at which a file was created or truncated names a regular file. *)
Lemma alter_at_truncate (t : Z) (cs : list string) :
  forall (root root' : node),
    alter_at t (truncate_node t) cs root = Ok root' ->
    cs <> [] /\ resolve cs root' = Some (File [] t).
Proof.
  induction cs as [|c0 cs IH]; intros root root' H; [discriminate|].
  split; [discriminate|].
  cbn [alter_at] in H. destruct root as [|dm es]; [discriminate|].
  destruct cs as [|c1 cs].
  - destruct (truncate_node t (assoc c0 es)) as [n'|] eqn:Ht; [|discriminate].
    injection H as <-. simpl. rewrite assoc_assoc_set_eq.
    unfold truncate_node in Ht.
    destruct (assoc c0 es) as [[|]|]; congruence.
  - destruct (assoc c0 es) as [child|] eqn:Ha; [|discriminate].
    destruct (alter_at t (truncate_node t) (c1 :: cs) child) as [child'|] eqn:Hc;
      [|discriminate].
    injection H as <-. cbn [resolve]. rewrite assoc_assoc_set_eq.
    apply (IH child child' Hc).
Qed.

(** A directory just made cannot be opened as a file. *)
Lemma alter_at_mkdir_truncate (t t' : Z) (cs : list string) :
  forall (root root' : node),
    alter_at t (mkdir_node t) cs root = Ok root' ->
    alter_at t' (truncate_node t') cs root' = Err IsADirectoryError.
Proof.
  induction cs as [|c0 cs IH]; intros root root' H; [discriminate|].
  destruct root as [|dm es]; [discriminate|].
  destruct cs as [|c1 cs].
  - cbn [alter_at] in H.
    destruct (mkdir_node t (assoc c0 es)) as [n'|] eqn:Ht; [|discriminate].
    injection H as <-. cbn [alter_at]. rewrite assoc_assoc_set_eq.
    unfold mkdir_node in Ht. destruct (assoc c0 es); [discriminate|].
    injection Ht as <-. reflexivity.
  - rewrite alter_at_deeper in H.
    destruct (assoc c0 es) as [child|] eqn:Ha; [|discriminate].
    destruct (alter_at t (mkdir_node t) (c1 :: cs) child) as [child'|] eqn:Hc;
      [|discriminate].
    injection H as <-. rewrite alter_at_deeper, assoc_assoc_set_eq.
    rewrite (IH child child' Hc). reflexivity.
Qed.

(** ** File-system calls *)

Lemma logged_fs_update_Ret f (path : string) (ev : event) (w w' : world) (u : unit) :
  (fs_update f path ;; log ev) w = Ret u w' ->
  exists root',
    fs_alter (now w) (f (now w)) path (fs w) = Ok root'
    /\ w' = add_event ev (set_fs root' w).
Proof.
  intros H. apply bind_Ret in H as (u1 & w1 & H1 & H2).
  apply fs_update_Ret in H1 as (root' & Hr & ->).
  unfold_monad. injection H2 as _ <-. eauto.
Qed.

Lemma f_write_Ret (path : string) (bs : list byte) (w w' : world) (u : unit) :
  f_write path bs w = Ret u w' ->
  trace w' = trace w ++ [EWrite path bs]
  /\ record w' = record w /\ net w' = net w
  /\ mode w' = mode w /\ sock w' = sock w /\ conn_sock w' = conn_sock w.
Proof.
  intros H. apply logged_fs_update_Ret in H as (root' & _ & ->).
  simpl. tauto.
Qed.


Lemma open_wb_Ret (path : string) (w w' : world) (u : unit) :
  open_wb path w = Ret u w' ->
  is_open_file path w'
  /\ trace w' = trace w ++ [EOpenWb path]
  /\ record w' = record w /\ net w' = net w
  /\ mode w' = mode w /\ sock w' = sock w /\ conn_sock w' = conn_sock w.
Proof.
  intros H. apply logged_fs_update_Ret in H as (root' & Ha & ->).
  unfold fs_alter in Ha.
  destruct (String.eqb path EmptyString || is_absolute path) eqn:Hp; [discriminate|].
  apply alter_at_truncate in Ha as (Hne & Hr).
  split; [|simpl; tauto].
  split; [exact Hp|]. split; [exact Hne|]. simpl. eauto.
Qed.

Lemma os_mkdir_Ret (path : string) (w w' : world) (u : unit) :
  os_mkdir path w = Ret u w' ->
  trace w' = trace w ++ [EMkdir path]
  /\ record w' = record w /\ net w' = net w
  /\ mode w' = mode w /\ sock w' = sock w /\ conn_sock w' = conn_sock w.
Proof.
  intros H. apply logged_fs_update_Ret in H as (root' & _ & ->).
  simpl. tauto.
Qed.

(** [os.mkdir(p)] followed by [open(p, "wb")] raises. *)
Lemma os_mkdir_then_open_wb (path : string) (w w1 w2 : world) (u1 u2 : unit) :
  os_mkdir path w = Ret u1 w1 -> open_wb path w1 = Ret u2 w2 -> False.
Proof.
  intros H1 H2.
  apply logged_fs_update_Ret in H1 as (root1 & Ha1 & ->).
  apply logged_fs_update_Ret in H2 as (root2 & Ha2 & _).
  simpl in Ha2. unfold fs_alter in Ha1, Ha2.
  destruct (String.eqb path EmptyString || is_absolute path); [discriminate|].
  rewrite (alter_at_mkdir_truncate _ _ _ _ _ Ha1) in Ha2. discriminate.
Qed.

Section Properties.

Set Default Proof Using "Type*".

Variable json_loads : string -> option (gmap string TransferRecord).
Variable json_dumps : gmap string TransferRecord -> string.
Variable peer_ip : string.
Variable port : Z.
Variable receive_buffer_size : Z.

(** ** The content of a received file *)

Lemma payload_step_Ret (path : string) (file_size r r' : Z) (w w' : world) :
  payload_step receive_buffer_size path file_size r w = Ret r' w' ->
  exists bs,
    r' = r + len bs
    /\ chunk_ok receive_buffer_size
         (Z.min (file_size - r) receive_buffer_size, bs)
    /\ len bs <= file_size - r
    /\ trace w' = trace w
         ++ chunk_events path [(Z.min (file_size - r) receive_buffer_size, bs)]
    /\ record w' = record w /\ mode w' = mode w
    /\ sock w' = sock w /\ conn_sock w' = conn_sock w.
Proof.
  unfold payload_step. intros H.
  apply bind_Ret in H as (c & w1 & H1 & H). unfold gets in H1.
  injection H1 as <- <-.
  apply bind_Ret in H as (bs & w2 & H2 & H).
  apply bind_Ret in H as (u & w3 & H3 & H).
  unfold_monad. injection H as <- <-.
  apply sock_recv_Ret in H2 as (Hn & Hl & Ht & Hrec & _ & _ & Hm & Hs & Hc).
  apply f_write_Ret in H3 as (Ht' & Hrec' & _ & Hm' & Hs' & Hc').
  exists bs. unfold chunk_ok, chunk_events. simpl.
  rewrite Ht', Ht, <- app_assoc. simpl.
  repeat split; try congruence; lia.
Qed.

(** The loop from any count [r0] not above [file_size]. *)
Lemma payload_loop_Ret (path : string) (file_size : Z) (fuel : nat) :
  forall (r0 r : Z) (w w' : world),
    r0 <= file_size ->
    while fuel (fun received_bytes => ret (received_bytes <? file_size))
      (payload_step receive_buffer_size path file_size) r0 w = Ret r w' ->
    r = file_size
    /\ exists chunks,
         trace w' = trace w ++ chunk_events path chunks
         /\ r0 + chunks_size chunks = file_size
         /\ Forall (chunk_ok receive_buffer_size) chunks
         /\ record w' = record w /\ mode w' = mode w
         /\ sock w' = sock w /\ conn_sock w' = conn_sock w.
Proof.
  induction fuel as [|fuel IH]; intros r0 r w w' Hle H; simpl in H;
    unfold bind at 1 in H; unfold ret at 1 in H;
    destruct (Z.ltb_spec r0 file_size) as [Hlt|Hge].
  - discriminate.
  - unfold ret in H. injection H as <- <-. split; [lia|].
    exists []. simpl. rewrite app_nil_r. repeat split; auto. lia.
  - change (bind ?m ?f) with (m ≫= f) in H.
    apply bind_Ret in H as (r1 & w1 & H1 & H).
    apply payload_step_Ret in H1
      as (bs & -> & Hok & Hl & Ht & Hrec & Hm & Hs & Hc).
    apply IH in H as (-> & chunks & Ht' & Hsz & Hall & Hrec' & Hm' & Hs' & Hc');
      [|lia].
    split; [reflexivity|].
    exists ((Z.min (file_size - r0) receive_buffer_size, bs) :: chunks).
    rewrite Ht', Ht, <- app_assoc. simpl.
    repeat split; try congruence; try lia. constructor; assumption.
  - unfold ret in H. injection H as <- <-. split; [lia|].
    exists []. simpl. rewrite app_nil_r. repeat split; auto. lia.
Qed.


Lemma sock_recv_data (s : socket) (n : Z) (w : world) (data : list byte)
    (rest : list recv_outcome) :
  0 <= n -> inbox (net w) = RecvData data :: rest ->
  exists w',
    sock_recv (Some s) n w = Ret (take (Z.to_nat n) data) w'
    /\ inbox (net w')
       = match drop (Z.to_nat n) data with
         | [] => rest
         | _ :: _ => RecvData (drop (Z.to_nat n) data) :: rest
         end
    /\ fs w' = fs w /\ conn_sock w' = conn_sock w.
Proof.
  intros Hn Hi. unfold sock_recv. destruct (Z.ltb_spec n 0); [lia|].
  unfold_monad. simpl. rewrite Hi. simpl.
  eexists. split; [reflexivity|]. simpl. auto.
Qed.



(** ** The calls of the recorder *)

Lemma json_dump_Ret (w w' : world) (u : unit) :
  json_dump json_dumps w = Ret u w' ->
  trace w' = trace w /\ record w' = record w /\ same_peer w w'.
Proof.
  unfold json_dump. intros H.
  apply bind_Ret in H as (r & w0 & H0 & H).
  unfold gets in H0. injection H0 as <- <-.
  apply bind_Ret in H as (u1 & w1 & H1 & H).
  apply fs_update_Ret in H1 as (r1 & _ & ->).
  apply fs_update_Ret in H as (r2 & _ & ->).
  unfold same_peer. fields.
Qed.

Lemma set_ownership_Ret (path : string) (val : bool) (w w' : world) (u : unit) :
  set_ownership json_dumps path val w = Ret u w' ->
  trace w' = trace w ++ [ESetOwnership path val]
  /\ record w' = <[path := Rec val None]> (record w)
  /\ same_peer w w'.
Proof.
  unfold set_ownership. unfold_monad. simpl. intros H.
  apply json_dump_Ret in H as (Ht & Hr & Hp).
  unfold same_peer in *. fields.
Qed.

Lemma del_rec_Ret (path : string) (w w' : world) (u : unit) :
  del_rec json_dumps path w = Ret u w' ->
  trace w' = trace w ++ [EDelRec path]
  /\ record w' = delete path (record w)
  /\ same_peer w w'.
Proof.
  unfold del_rec. unfold_monad. simpl. intros H.
  apply json_dump_Ret in H as (Ht & Hr & Hp).
  unfold same_peer in *. fields.
Qed.

Lemma add_rec_Ret (path : string) (w w' : world) (u : unit) :
  add_rec json_dumps path w = Ret u w' ->
  trace w' = trace w ++ [EAddRec path]
  /\ (exists r t, record w !! path = Some r
                  /\ getmtime path w = Ret t w
                  /\ record w' = <[path := Rec (ownership r) (Some t)]> (record w))
  /\ same_peer w w'.
Proof.
  unfold add_rec. intros H.
  apply bind_Ret in H as (u0 & w0 & H0 & H).
  unfold log, modify in H0. injection H0 as _ <-.
  apply bind_Ret in H as (rc & w1 & H1 & H).
  unfold gets in H1. injection H1 as <- <-.
  change (record (add_event (EAddRec path) w)) with (record w) in H.
  destruct (record w !! path) as [r|] eqn:Hr; [|discriminate].
  apply bind_Ret in H as (t & w2 & H2 & H).
  assert (w2 = add_event (EAddRec path) w /\ getmtime path w = Ret t w)
    as [-> Hg].
  { unfold getmtime, stat in *.
    change (fs (add_event (EAddRec path) w)) with (fs w) in H2.
    destruct (fs_lookup (fs w) path); [|discriminate].
    injection H2 as <- <-. auto. }
  apply bind_Ret in H as (u3 & w3 & H3 & H).
  unfold modify in H3. injection H3 as _ <-.
  apply json_dump_Ret in H as (Ht & Hrec & Hp).
  unfold same_peer in *. simpl in *.
  split; [fields|]. split; [|fields]. exists r, t. auto.
Qed.

(** ** Ways in which the calls never end *)

(** The calls of the program other than its loops return or raise; they
    never raise [struct.error] and need no fuel. *)
Section Avoid.

Variable bad : ending -> Prop.
Hypothesis bad_Returned : ~ bad Returned.
Hypothesis bad_Raised : forall e, bad (Raised e) -> e = StructError.

Lemma avoids_bind {A B} (m : M A) (f : A -> M B) :
  avoids bad m -> (forall a, avoids bad (f a)) -> avoids bad (m ≫= f).
Proof.
  intros Hm Hf w. specialize (Hm w). unfold_monad.
  destruct (m w) as [a w1| | |]; try exact Hm. apply Hf.
Qed.

Lemma avoids_ret {A} (a : A) : avoids bad (ret a).
Proof. intros w. exact bad_Returned. Qed.

Lemma avoids_gets {A} (f : world -> A) : avoids bad (gets f).
Proof. intros w. exact bad_Returned. Qed.

Lemma avoids_modify (f : world -> world) : avoids bad (modify f).
Proof. intros w. exact bad_Returned. Qed.

Lemma avoids_log (ev : event) : avoids bad (log ev).
Proof. intros w. exact bad_Returned. Qed.

Lemma avoids_raise {A} (e : exn) : e <> StructError -> avoids bad (@raise A e).
Proof. intros He w Hb. exact (He (bad_Raised _ Hb)). Qed.

Lemma avoids_when (b : bool) (m : M unit) :
  avoids bad m -> avoids bad (when b m).
Proof. destruct b; simpl; [auto|]. intros _ w. exact bad_Returned. Qed.

Lemma avoids_sock_recv (c : option socket) (n : Z) :
  avoids bad (sock_recv c n).
Proof.
  intros w Hb. unfold sock_recv in Hb.
  destruct c; [|apply bad_Raised in Hb; discriminate].
  destruct (n <? 0); [apply bad_Raised in Hb; discriminate|].
  unfold_monad. simpl in Hb.
  destruct (inbox (net w)) as [|[data|e] rest]; simpl in Hb;
    try exact (bad_Returned Hb).
  apply bad_Raised in Hb. exact (exn_of_errno_not_struct _ Hb).
Qed.

Lemma alter_at_no_struct (t : Z) f (cs : list string) :
  (forall o e, f o = Err e -> e <> StructError) ->
  forall root e, alter_at t f cs root = Err e -> e <> StructError.
Proof.
  intros Hf. induction cs as [|c0 cs IH]; intros root e H.
  - injection H as <-. discriminate.
  - destruct root as [|dm es]; [injection H as <-; discriminate|].
    destruct cs as [|c1 cs].
    + cbn [alter_at] in H.
      destruct (f (assoc c0 es)) eqn:Hfo; [discriminate|].
      injection H as <-. exact (Hf _ _ Hfo).
    + rewrite alter_at_deeper in H.
      destruct (assoc c0 es) as [child|]; [|injection H as <-; discriminate].
      destruct (alter_at t f (c1 :: cs) child) eqn:Hc; [discriminate|].
      injection H as <-. exact (IH _ _ Hc).
Qed.

Lemma avoids_fs_update f (path : string) :
  (forall t o e, f t o = Err e -> e <> StructError) ->
  avoids bad (fs_update f path).
Proof.
  intros Hf w Hb. unfold fs_update, fs_alter in Hb.
  destruct (String.eqb path EmptyString || is_absolute path).
  - apply bad_Raised in Hb. discriminate.
  - destruct (alter_at (now w) (f (now w)) (components path) (fs w)) eqn:Ha.
    + exact (bad_Returned Hb).
    + apply bad_Raised in Hb.
      exact (alter_at_no_struct _ _ _ (Hf _) _ _ Ha Hb).
Qed.

Lemma truncate_node_no_struct (t : Z) o e :
  truncate_node t o = Err e -> e <> StructError.
Proof. destruct o as [[|]|]; simpl; intros [= <-]; discriminate. Qed.

Lemma append_node_no_struct (bs : list byte) (t : Z) o e :
  append_node t bs o = Err e -> e <> StructError.
Proof. destruct o as [[|]|]; simpl; intros [= <-]; discriminate. Qed.

Lemma mkdir_node_no_struct (t : Z) o e :
  mkdir_node t o = Err e -> e <> StructError.
Proof. destruct o as [[|]|]; simpl; intros [= <-]; discriminate. Qed.

Lemma avoids_logged_fs_update f (path : string) (ev : event) :
  (forall t o e, f t o = Err e -> e <> StructError) ->
  avoids bad (fs_update f path ;; log ev).
Proof.
  intros Hf. apply avoids_bind; [apply avoids_fs_update, Hf|].
  intros _. apply avoids_log.
Qed.

Lemma avoids_json_dump : avoids bad (json_dump json_dumps).
Proof.
  unfold json_dump.
  apply avoids_bind; [apply avoids_gets|]. intros r.
  apply avoids_bind; [|intros _]; apply avoids_fs_update.
  - apply truncate_node_no_struct.
  - intros t. apply append_node_no_struct.
Qed.

Lemma avoids_stat {A} (field : node -> A) (path : string) :
  avoids bad (stat field path).
Proof.
  intros w Hb. unfold stat in Hb.
  destruct (fs_lookup (fs w) path); [exact (bad_Returned Hb)|].
  apply bad_Raised in Hb. discriminate.
Qed.

Lemma avoids_decode (bs : list byte) : avoids bad (lift (decode bs)).
Proof.
  unfold decode. destruct (utf8_valid bs); simpl.
  - apply avoids_ret.
  - apply avoids_raise. discriminate.
Qed.

Lemma avoids_set_ownership (path : string) (val : bool) :
  avoids bad (set_ownership json_dumps path val).
Proof.
  unfold set_ownership.
  apply avoids_bind; [apply avoids_log|]. intros _.
  apply avoids_bind; [apply avoids_gets|]. intros r.
  apply avoids_bind; [apply avoids_modify|]. intros _.
  apply avoids_json_dump.
Qed.

Lemma avoids_del_rec (path : string) : avoids bad (del_rec json_dumps path).
Proof.
  unfold del_rec.
  apply avoids_bind; [apply avoids_log|]. intros _.
  apply avoids_bind; [apply avoids_gets|]. intros r.
  apply avoids_bind; [apply avoids_modify|]. intros _.
  apply avoids_json_dump.
Qed.

Lemma avoids_add_rec (path : string) : avoids bad (add_rec json_dumps path).
Proof.
  unfold add_rec.
  apply avoids_bind; [apply avoids_log|]. intros _.
  apply avoids_bind; [apply avoids_gets|]. intros r.
  destruct (r !! path).
  - apply avoids_bind; [apply avoids_stat|]. intros mt.
    apply avoids_bind; [apply avoids_modify|]. intros _.
    apply avoids_json_dump.
  - apply avoids_raise. discriminate.
Qed.

(** The frame of a file but for the loop that reads its content. *)
Lemma avoids_receive_file (fuel : nat) (path_size file_size : Z) :
  (forall path,
      avoids bad (receive_payload receive_buffer_size fuel path file_size)) ->
  avoids bad
    (receive_file json_dumps receive_buffer_size fuel path_size file_size).
Proof.
  intros Hpay. unfold receive_file.
  apply avoids_bind; [apply avoids_gets|]. intros c.
  apply avoids_bind; [apply avoids_sock_recv|]. intros path_bin.
  apply avoids_bind; [apply avoids_decode|]. intros path.
  apply avoids_bind; [apply avoids_del_rec|]. intros _.
  apply avoids_bind; [apply avoids_set_ownership|]. intros _.
  apply avoids_bind; [apply avoids_gets|]. intros ex.
  apply avoids_bind.
  { apply avoids_when, avoids_logged_fs_update, mkdir_node_no_struct. }
  intros _.
  apply avoids_bind.
  { apply avoids_logged_fs_update, truncate_node_no_struct. }
  intros _.
  apply avoids_bind; [apply Hpay|]. intros _.
  apply avoids_bind; [apply avoids_add_rec|]. intros _.
  apply avoids_ret.
Qed.

End Avoid.

Lemma struct_error_Returned : ~ struct_error Returned.
Proof. discriminate. Qed.

Lemma struct_error_Raised (e : exn) : struct_error (Raised e) -> e = StructError.
Proof. intros [= ->]. reflexivity. Qed.



(** A loop raises [struct.error] only if its condition or its body does. *)
Lemma while_avoids_struct_error {S} (cond : S -> M bool) (body : S -> M S)
    (fuel : nat) :
  (forall s, avoids struct_error (cond s)) ->
  (forall s, avoids struct_error (body s)) ->
  forall s, avoids struct_error (while fuel cond body s).
Proof.
  pose proof struct_error_Returned as H0.
  pose proof struct_error_Raised as H1.
  intros Hc Hb. induction fuel as [|fuel IH]; intros s; simpl.
  - apply (avoids_bind _ H0 H1 (cond s)); [apply Hc|]. intros [|].
    + intros w. discriminate.
    + apply (avoids_ret _ H0 H1).
  - apply (avoids_bind _ H0 H1 (cond s)); [apply Hc|]. intros [|].
    + apply (avoids_bind _ H0 H1 (body s)); [apply Hb|]. exact IH.
    + apply (avoids_ret _ H0 H1).
Qed.

Lemma receive_file_avoids_struct_error (fuel : nat) (path_size file_size : Z) :
  avoids struct_error
    (receive_file json_dumps receive_buffer_size fuel path_size file_size).
Proof.
  pose proof struct_error_Returned as H0.
  pose proof struct_error_Raised as H1.
  apply (avoids_receive_file _ H0 H1).
  intros path. unfold receive_payload. apply while_avoids_struct_error.
  - intros r. apply (avoids_ret _ H0 H1).
  - intros r. unfold payload_step.
    apply (avoids_bind _ H0 H1); [apply (avoids_gets _ H0 H1)|]. intros c.
    apply (avoids_bind _ H0 H1); [apply (avoids_sock_recv _ H0 H1)|].
    intros bs.
    apply (avoids_bind _ H0 H1); [|intros _; apply (avoids_ret _ H0 H1)].
    apply (avoids_logged_fs_update _ H0 H1).
    intros t. apply append_node_no_struct.
Qed.

(** ** The frame of a file *)

Lemma gets_Ret {A} (f : world -> A) (w w' : world) (a : A) :
  gets f w = Ret a w' -> a = f w /\ w' = w.
Proof. unfold gets. intros [= <- <-]. auto. Qed.

Lemma lift_Ret {A} (r : result A) (w w' : world) (a : A) :
  lift r w = Ret a w' -> r = Ok a /\ w' = w.
Proof. destruct r; simpl; unfold_monad; intros [= <- <-]; auto. Qed.

Lemma lift_Raise {A} (r : result A) (w w' : world) (e : exn) :
  lift r w = Raise e w' -> r = Err e /\ w' = w.
Proof. destruct r; simpl; unfold_monad; intros [= <- <-]; auto. Qed.

Lemma receive_file_Ret (fuel : nat) (path_size file_size : Z)
    (w w' : world) (b : bool) :
  0 <= file_size ->
  receive_file json_dumps receive_buffer_size fuel path_size file_size w
  = Ret b w' ->
  b = true
  /\ exists path_bin path w1 w2 mk chunks t,
       sock_recv (conn_sock w) path_size w = Ret path_bin w1
       /\ len path_bin <= path_size
       /\ (forall data rest, inbox (net w) = RecvData data :: rest ->
             path_size <= len data -> len path_bin = path_size)
       /\ decode path_bin = Ok path
       /\ (del_rec json_dumps path ;; set_ownership json_dumps path false) w1
          = Ret tt w2
       /\ mk = (if is_some (fs_lookup (fs w2) (rsplit_head path)) then []
                else [EMkdir (rsplit_head path)])
       /\ (mk <> [] -> before_last_slash path = Some (rsplit_head path))
       /\ trace w' = trace w ++ frame_events path_size path_bin path mk chunks
       /\ chunks_size chunks = file_size
       /\ Forall (chunk_ok receive_buffer_size) chunks
       /\ record w' = <[path := Rec false (Some t)]> (record w).
Proof.
  intros Hfs H. unfold receive_file in H.
  apply bind_Ret in H as (c & w0 & H0 & H). apply gets_Ret in H0 as [-> ->].
  apply bind_Ret in H as (path_bin & w1 & Hrecv & H).
  apply bind_Ret in H as (path & w1' & Hdec & H).
  apply lift_Ret in Hdec as [Hdec ->].
  apply bind_Ret in H as (u2 & w2a & Hdel & H).
  apply bind_Ret in H as (u3 & w2 & Hown & H).
  apply bind_Ret in H as (ex & w2' & Hex & H).
  apply gets_Ret in Hex as [-> ->].
  apply bind_Ret in H as (u4 & w3 & Hmk & H).
  apply bind_Ret in H as (u5 & w4 & Hopen & H).
  apply bind_Ret in H as (r & w5 & Hpay & H).
  apply bind_Ret in H as (u6 & w6 & Hadd & H).
  unfold ret in H. injection H as <- <-.
  split; [reflexivity|].
  pose proof (sock_recv_Ret _ _ _ _ _ Hrecv)
    as (_ & Hlen & Ht1 & Hr1 & _).
  pose proof (del_rec_Ret _ _ _ _ Hdel) as (Ht2 & Hr2 & _).
  pose proof (set_ownership_Ret _ _ _ _ _ Hown) as (Ht3 & Hr3 & _).
  pose proof (open_wb_Ret _ _ _ _ Hopen) as (_ & Ht5 & Hr5 & _).
  unfold receive_payload in Hpay.
  apply payload_loop_Ret in Hpay
    as (_ & chunks & Ht6 & Hsz & Hall & Hr6 & _); [|exact Hfs].
  pose proof (add_rec_Ret _ _ _ _ Hadd) as (Ht7 & (rc & t & Hrc & _ & Hr7) & _).
  set (mk := if is_some (fs_lookup (fs w2) (rsplit_head path)) then []
             else [EMkdir (rsplit_head path)]).
  assert (Hmk' : trace w3 = trace w2 ++ mk /\ record w3 = record w2
                 /\ (mk <> [] -> before_last_slash path
                                 = Some (rsplit_head path))).
  { subst mk. destruct (is_some (fs_lookup (fs w2) (rsplit_head path))); simpl in Hmk.
    - unfold ret in Hmk. injection Hmk as _ <-.
      rewrite app_nil_r. repeat split; auto. congruence.
    - pose proof (os_mkdir_Ret _ _ _ _ Hmk) as (Ht4 & Hr4 & _).
      repeat split; auto. intros _.
      unfold rsplit_head in *.
      destruct (before_last_slash path) as [h|] eqn:Hb; [reflexivity|].
      simpl in Hmk. exfalso.
      exact (os_mkdir_then_open_wb _ _ _ _ _ _ Hmk Hopen). }
  destruct Hmk' as (Ht4 & Hr4 & Hslash).
  exists path_bin, path, w1, w2, mk, chunks, t.
  split; [exact Hrecv|]. split; [exact Hlen|].
  split; [intros data rest; apply (sock_recv_full _ _ _ _ _ _ _ Hrecv)|].
  split; [exact Hdec|].
  split.
  { rewrite (run_bind _ _ _ _ _ Hdel). destruct u3. exact Hown. }
  split; [reflexivity|]. split; [exact Hslash|].
  split.
  { unfold frame_events. rewrite Ht7, Ht6, Ht5, Ht4, Ht3, Ht2, Ht1.
    rewrite <- !app_assoc. reflexivity. }
  split; [lia|]. split; [exact Hall|].
  rewrite Hr6, Hr5, Hr4, Hr3, lookup_insert_eq in Hrc. injection Hrc as <-.
  rewrite Hr7, Hr6, Hr5, Hr4, Hr3, Hr2, Hr1.
  rewrite insert_insert_eq, insert_delete_eq. reflexivity.
Qed.



Lemma Z_of_byte_nonneg (b : byte) : 0 <= Z_of_byte b.
Proof. unfold Z_of_byte. lia. Qed.

Lemma of_be32_nonneg (b3 b2 b1 b0 : byte) : 0 <= of_be32 b3 b2 b1 b0.
Proof.
  unfold of_be32.
  repeat (apply Z.lor_nonneg; split);
    try apply Z.shiftl_nonneg; apply Z_of_byte_nonneg.
Qed.

Lemma header_unpack_Ok (hdr : list byte) (a b : Z) :
  header_unpack hdr = Ok (a, b) -> len hdr = header_len /\ 0 <= a /\ 0 <= b.
Proof.
  unfold header_unpack.
  destruct hdr as [|a3 [|a2 [|a1 [|a0 [|b3 [|b2 [|b1 [|b0 [|? ?]]]]]]]]];
    try discriminate.
  intros [= <- <-]. split; [reflexivity|].
  split; apply of_be32_nonneg.
Qed.

Lemma header_unpack_Err (hdr : list byte) :
  header_unpack hdr = Err StructError <-> len hdr <> header_len.
Proof.
  unfold header_unpack, header_len, len.
  destruct hdr as [|a3 [|a2 [|a1 [|a0 [|b3 [|b2 [|b1 [|b0 [|? ?]]]]]]]]];
    simpl; split; intros H; try reflexivity; try discriminate; try lia.
Qed.

Lemma is_terminator_spec (a b : Z) :
  (a =? b) && (b =? 0) = true <-> (a, b) = (0, 0).
Proof.
  rewrite andb_true_iff, !Z.eqb_eq. split.
  - intros [-> ->]. reflexivity.
  - intros [= -> ->]. auto.
Qed.


(** ** The end of the receive loop *)

Lemma receive_step_stops (fuel : nat) (w w' : world) :
  receive_step json_dumps receive_buffer_size fuel w = Ret false w' <->
  exists header_info,
    sock_recv (conn_sock w) header_len w = Ret header_info w'
    /\ (header_unpack header_info = Ok (0, 0)
        \/ header_unpack header_info = Err StructError).
Proof.
  unfold receive_step, receive_frame. split.
  - intros H. apply try_except_Ret in H as [H|(e & w1 & H & He & Hh)].
    + apply bind_Ret in H as (c & w0 & H0 & H).
      apply gets_Ret in H0 as [-> ->].
      apply bind_Ret in H as (hdr & w1 & Hrecv & H).
      apply bind_Ret in H as ([ps fsz] & w1' & Hun & H).
      apply lift_Ret in Hun as [Hun ->].
      destruct ((ps =? fsz) && (fsz =? 0)) eqn:Hz.
      * unfold ret in H. injection H as <-.
        apply is_terminator_spec in Hz. injection Hz as -> ->.
        exists hdr. auto.
      * apply header_unpack_Ok in Hun as (_ & _ & Hfs).
        apply receive_file_Ret in H as [H _]; [discriminate|exact Hfs].
    + unfold ret in Hh. injection Hh as <-.
      destruct e; try discriminate He.
      apply bind_Raise in H as [H|(c & w0 & H0 & H)]; [discriminate|].
      apply gets_Ret in H0 as [-> ->].
      apply bind_Raise in H as [H|(hdr & w2 & Hrecv & H)].
      { apply sock_recv_Raise in H. congruence. }
      apply bind_Raise in H as [H|([ps fsz] & w2' & Hun & H)].
      * apply lift_Raise in H as [H ->]. exists hdr. auto.
      * exfalso. apply lift_Ret in Hun as [Hun ->].
        destruct ((ps =? fsz) && (fsz =? 0)); [discriminate|].
        apply (receive_file_avoids_struct_error fuel ps fsz w2).
        rewrite H. reflexivity.
  - intros (hdr & Hrecv & Hun). unfold try_except.
    rewrite (run_bind _ _ w w (conn_sock w)) by reflexivity.
    rewrite (run_bind _ _ _ _ _ Hrecv).
    destruct Hun as [-> | ->]; reflexivity.
Qed.

(** C5. A turn of the receive loop ends the loop exactly when the header
    it read is [(0, 0)] or does not unpack (it has not 8 bytes, as when
    the stream has ended); the turn then reads nothing more, its only
    effect being the [recv] of the header, and raises nothing.  The loop
    returns only after such a turn. *)
Theorem receive_stops_at_terminator_or_bad_header
    (fuel : nat) (w w' : world) :
  (receive_step json_dumps receive_buffer_size fuel w = Ret false w' <->
   exists header_info,
     sock_recv (conn_sock w) header_len w = Ret header_info w'
     /\ (header_unpack header_info = Ok (0, 0)
         \/ header_unpack header_info = Err StructError))
  /\ (receive json_dumps receive_buffer_size fuel w = Ret tt w' ->
      exists w1 header_info,
        sock_recv (conn_sock w1) header_len w1 = Ret header_info w'
        /\ (header_unpack header_info = Ok (0, 0)
            \/ header_unpack header_info = Err StructError))
  /\ (forall header_info,
        header_unpack header_info = Err StructError
        <-> len header_info <> header_len).
Proof.
  split; [apply receive_step_stops|]. split; [|apply header_unpack_Err].
  unfold receive. intros H.
  apply bind_Ret in H as (u & w0 & _ & H).
  apply bind_Ret in H as (b & w1 & H & Hr).
  unfold ret in Hr. injection Hr as ->.
  clear u. revert H. generalize fuel at 1. intros turns. revert w0.
  assert (Hloop : forall (more_files : bool) w0,
             while turns (fun more_files : bool => ret more_files)
               (fun _ => receive_step json_dumps receive_buffer_size fuel)
               more_files w0 = Ret b w' ->
             more_files = true ->
             exists w1 header_info,
               sock_recv (conn_sock w1) header_len w1 = Ret header_info w'
               /\ (header_unpack header_info = Ok (0, 0)
                   \/ header_unpack header_info = Err StructError)).
  { induction turns as [|turns IH]; intros more w0 H ->; simpl in H;
      unfold bind at 1 in H; unfold ret at 1 in H; [discriminate|].
    change (bind ?m ?f) with (m ≫= f) in H.
    apply bind_Ret in H as (more' & w2 & Hstep & H).
    destruct more'.
    - exact (IH true w2 H eq_refl).
    - destruct turns; simpl in H; unfold bind, ret in H;
        injection H as <- <-;
        apply receive_step_stops in Hstep; eauto. }
  intros w0 H. exact (Hloop true w0 H eq_refl).
Qed.

(** ** The list of the files to send *)

Lemma reads_only_ret {A} (a : A) : reads_only (ret a).
Proof. intros w. exists (Ok a). reflexivity. Qed.

Lemma reads_only_gets {A} (f : world -> A) :
  (forall w w2, record w2 = record w -> fs w2 = fs w -> f w2 = f w) ->
  reads_only (gets f).
Proof.
  intros Hf w. exists (Ok (f w)). intros w2 Hr Hfs.
  unfold gets. rewrite (Hf w w2 Hr Hfs). reflexivity.
Qed.

Lemma reads_only_bind {A B} (m : M A) (f : A -> M B) :
  reads_only m -> (forall a, reads_only (f a)) -> reads_only (m ≫= f).
Proof.
  intros Hm Hf w. destruct (Hm w) as [[a|e] Hr].
  - destruct (Hf a w) as [r Hr']. exists r. intros w2 H1 H2.
    rewrite (run_bind _ _ _ _ _ (Hr w2 H1 H2)). apply Hr'; assumption.
  - exists (Err e). intros w2 H1 H2. unfold_monad.
    rewrite (Hr w2 H1 H2). reflexivity.
Qed.

Lemma reads_only_stat {A} (field : node -> A) (path : string) :
  reads_only (stat field path).
Proof.
  intros w. unfold stat.
  destruct (fs_lookup (fs w) path) as [n|] eqn:Hn.
  - exists (Ok (field n)). intros w2 _ ->. rewrite Hn. reflexivity.
  - exists (Err FileNotFoundError). intros w2 _ ->. rewrite Hn. reflexivity.
Qed.

Lemma reads_only_is_unsent (path : string) : reads_only (is_unsent path).
Proof.
  unfold is_unsent. apply reads_only_bind.
  { apply reads_only_gets. intros w w2 _ ->. reflexivity. }
  intros d. destruct (negb d); [|apply reads_only_ret].
  apply reads_only_bind.
  { apply reads_only_gets. intros w w2 -> _. reflexivity. }
  intros r. destruct (r !! path) as [rc|]; [|apply reads_only_ret].
  destruct (mtime rc); [|apply reads_only_ret].
  apply reads_only_bind; [apply reads_only_stat|].
  intros t. apply reads_only_ret.
Qed.



Lemma reads_only_Ret {A} (m : M A) (w w2 w' : world) (a : A) :
  reads_only m -> record w2 = record w -> fs w2 = fs w ->
  m w2 = Ret a w' -> w' = w2 /\ m w = Ret a w.
Proof.
  intros Hm Hr Hfs H. destruct (Hm w) as [r Hro].
  rewrite (Hro w2 Hr Hfs) in H.
  rewrite (Hro w eq_refl eq_refl).
  destruct r; [|discriminate]. injection H as <- <-. auto.
Qed.

(** ** Sending *)



(** *** When sending returns *)

Lemma assoc_assoc_set_ne {A} (c k : string) (v : A) (l : list (string * A)) :
  c <> k -> assoc c (assoc_set k v l) = assoc c l.
Proof.
  intros Hne. induction l as [|[k' v'] l IH]; simpl.
  - destruct (String.eqb_spec c k); [contradiction|reflexivity].
  - destruct (String.eqb_spec k k') as [->|Hk]; simpl.
    + destruct (String.eqb_spec c k'); [contradiction|reflexivity].
    + destruct (String.eqb_spec c k'); [reflexivity|exact IH].
Qed.

Lemma same_but_record_file_refl (root : node) :
  record_file_writable root -> same_but_record_file root root.
Proof. destruct root; simpl; [contradiction|auto]. Qed.

Lemma same_but_record_file_trans (r1 r2 r3 : node) :
  same_but_record_file r1 r2 -> same_but_record_file r2 r3 ->
  same_but_record_file r1 r3.
Proof.
  destruct r1, r2, r3; simpl; try contradiction.
  intros H1 H2 c Hc. rewrite H2, H1; auto.
Qed.







(** ** The recorder *)

(** C1. For a path that is not a directory, [__is_unsent] returns [True]
    exactly when the path has no record, or its record has an [mtime] and
    the modification time of the path differs from it, or its record has
    no [mtime] and its [ownership] is [True] (the stored [ownership] is
    what is returned); for a directory it returns [False]. *)
Theorem is_unsent_spec (path : string) (w : world) :
  (isdir path w = Ret false w ->
     (is_unsent path w = Ret true w <->
        record w !! path = None
        \/ (exists r m t, record w !! path = Some r /\ mtime r = Some m
              /\ getmtime path w = Ret t w /\ t <> m)
        \/ (exists r, record w !! path = Some r /\ mtime r = None
              /\ ownership r = true))
     /\ (forall r, record w !! path = Some r -> mtime r = None ->
           is_unsent path w = Ret (ownership r) w))
  /\ (isdir path w = Ret true w -> is_unsent path w = Ret false w).
Proof.
  unfold is_unsent, isdir, getmtime, stat. unfold_monad.
  split.
  - intros Hd. injection Hd as Hd. rewrite Hd. simpl. split.
    + destruct (record w !! path) as [r|] eqn:Hr; [|split; auto].
      destruct (mtime r) as [m|] eqn:Hm.
      * destruct (fs_lookup (fs w) path) as [n|] eqn:Hn.
        -- split.
           ++ intros H. injection H as H. right; left.
              exists r, m, (node_mtime n). repeat split; auto.
              apply negb_true_iff, Z.eqb_neq in H. exact H.
           ++ intros [H|[(r'&m'&t&H1&H2&H3&H4)|(r'&H1&H2&H3)]];
                try congruence.
              injection H1 as <-. rewrite Hm in H2. injection H2 as <-.
              injection H3 as <-. f_equal.
              apply negb_true_iff, Z.eqb_neq. exact H4.
        -- split; [discriminate|].
           intros [H|[(r'&m'&t&H1&H2&H3&H4)|(r'&H1&H2&H3)]]; congruence.
      * split.
        -- intros H. injection H as H. right; right. exists r. auto.
        -- intros [H|[(r'&m'&t&H1&H2&H3&H4)|(r'&H1&H2&H3)]]; congruence.
    + intros r Hr Hm. rewrite Hr, Hm. reflexivity.
  - intros Hd. injection Hd as Hd. rewrite Hd. reflexivity.
Qed.

(** C8, as the code has it.  When the record file is missing, or is there
    and holds text (UTF-8) that is not JSON, [Recorder.__init__] returns
    with the empty record, raises nothing and leaves the file tree as it
    was. *)
Theorem Recorder_init_without_record_file (w : world) :
  fs_lookup (fs w) record_file_dir = None
  \/ (exists content m text,
        fs_lookup (fs w) record_file_dir = Some (File content m)
        /\ decode content = Ok text /\ json_loads text = None) ->
  exists w', Recorder_init json_loads w = Ret tt w'
             /\ record w' = ∅ /\ fs w' = fs w /\ trace w' = trace w.
Proof.
  intros H. exists (set_record ∅ w). split; [|auto].
  unfold Recorder_init, try_except, json_load, read_file. unfold_monad.
  destruct H as [H|(content & m & text & H & Hd & Hj)]; rewrite H;
    [reflexivity|].
  simpl. rewrite Hd. simpl. rewrite Hj. reflexivity.
Qed.

(** ** The connection *)

Lemma exn_of_errno_is_OSError (e : errno) : is_OSError (exn_of_errno e) = true.
Proof. destruct e; reflexivity. Qed.

(** [__run_as_server] makes one attempt: it stops at the first call that
    fails; it returns with mode 2 when a peer connects, returns with the
    mode unchanged when a call fails, and never returns when no peer
    connects to a socket without a timeout. *)
Lemma run_as_server_outcomes (w0 : world) :
  exists k w1,
    ((run_as_server port w0 = Ret tt w1 /\ mode w1 = 2 /\ k = 3%nat
      /\ is_some (conn_sock w1) = true)
     \/ (run_as_server port w0 = Hang w1 /\ k = 3%nat
         /\ timeout (sock w0) = None /\ mode w1 = mode w0)
     \/ (run_as_server port w0 = Ret tt w1 /\ mode w1 = mode w0
         /\ conn_sock w1 = conn_sock w0))
    /\ (1 <= k <= 3)%nat
    /\ trace w1 = trace w0 ++ take k (server_attempt (sock w0) port)
    /\ sock w1 = sock w0 /\ record w1 = record w0 /\ fs w1 = fs w0.
Proof.
  unfold run_as_server, try_except, sock_bind, sock_listen, sock_accept,
    server_attempt.
  unfold_monad. simpl.
  destruct (default None (head (binds (net w0)))) as [e1|] eqn:Hb; simpl.
  { rewrite exn_of_errno_is_OSError. simpl.
    exists 1%nat. eexists. split; [right; right; split; [reflexivity|]; auto|].
    simpl. repeat split; auto. }
  destruct (default None (head (listens (net w0)))) as [e2|] eqn:Hl; simpl.
  { rewrite exn_of_errno_is_OSError. simpl.
    exists 2%nat. eexists. split; [right; right; split; [reflexivity|]; auto|].
    simpl. rewrite <- !app_assoc. repeat split; auto. }
  destruct (default AcceptNoPeer (head (accepts (net w0)))) as [ip p|e3|]
    eqn:Ha; simpl.
  - exists 3%nat. eexists. split; [left; split; [reflexivity|]; auto|].
    simpl. rewrite <- !app_assoc. repeat split; auto.
  - rewrite exn_of_errno_is_OSError. simpl.
    exists 3%nat. eexists. split; [right; right; split; [reflexivity|]; auto|].
    simpl. rewrite <- !app_assoc. repeat split; auto.
  - destruct (timeout (sock w0)) as [tmo|] eqn:Ht; simpl.
    + exists 3%nat. eexists.
      split; [right; right; split; [reflexivity|]; auto|].
      simpl. rewrite <- !app_assoc. repeat split; auto.
    + exists 3%nat. eexists.
      split; [right; left; split; [reflexivity|]; auto|].
      simpl. rewrite <- !app_assoc. repeat split; auto.
Qed.


(** The wait in [accept] has no bound: when a call of [__run_as_server]
    reaches [accept] on a socket without a timeout and no peer connects,
    it never returns. *)
Lemma run_as_server_waits_for_ever (w : world) :
  timeout (sock w) = None ->
  head (binds (net w)) = None -> head (listens (net w)) = None ->
  head (accepts (net w)) = None ->
  exists w', run_as_server port w = Hang w'
             /\ trace w' = trace w ++ server_attempt (sock w) port.
Proof.
  intros Ht Hb Hl Ha.
  unfold run_as_server, try_except, sock_bind, sock_listen, sock_accept,
    server_attempt.
  unfold_monad. simpl. rewrite Hb. simpl. rewrite Hl. simpl.
  rewrite Ha. simpl. rewrite Ht.
  eexists. split; [reflexivity|]. simpl. rewrite <- !app_assoc. reflexivity.
Qed.

(** ** The sync loop *)

(** C9. In server mode, when the byte read as the command is neither
    ["s"] nor ["r"] (the empty read at the end of the stream included),
    the turn of the sync loop calls neither [__send] nor [__receive] nor
    [resume]: it ends in the world left by the [recv] of the command,
    where the record, the file tree, the mode and the sockets are as
    before.  The turn returns, unless the byte is not UTF-8, when it
    raises [UnicodeDecodeError]. *)
Theorem server_ignores_other_commands
    (fuel : nat) (w w1 : world) (b : list byte) :
  mode w = 2 ->
  sock_recv (conn_sock w) 1 w = Ret b w1 ->
  decode b <> Ok "s"%string -> decode b <> Ok "r"%string ->
  (sync_step json_dumps peer_ip port receive_buffer_size fuel w = Ret tt w1
   \/ (sync_step json_dumps peer_ip port receive_buffer_size fuel w
       = Raise UnicodeDecodeError w1 /\ utf8_valid b = false))
  /\ (b = [] ->
      sync_step json_dumps peer_ip port receive_buffer_size fuel w
      = Ret tt w1)
  /\ trace w1 = trace w ++ [ERecv 1 b]
  /\ record w1 = record w /\ fs w1 = fs w /\ mode w1 = mode w
  /\ sock w1 = sock w /\ conn_sock w1 = conn_sock w.
Proof.
  intros Hm Hrecv Hs Hr.
  pose proof (sock_recv_Ret _ _ _ _ _ Hrecv)
    as (_ & _ & Ht & Hrec & Hfs & _ & Hm1 & Hs1 & Hc1).
  assert (Hbody : sync_body json_dumps receive_buffer_size fuel w
                  = match decode b with
                    | Ok _ => Ret tt w1
                    | Err e => Raise e w1
                    end).
  { unfold sync_body.
    rewrite (run_bind _ _ w w (mode w)) by reflexivity.
    rewrite Hm. simpl.
    rewrite (run_bind _ _ w w (conn_sock w)) by reflexivity.
    rewrite (run_bind _ _ _ _ _ Hrecv).
    destruct (decode b) as [cmd|e] eqn:Hd; [|reflexivity].
    unfold lift. rewrite (run_bind _ _ w1 w1 cmd) by reflexivity.
    destruct (String.eqb_spec cmd "s"); [congruence|].
    destruct (String.eqb_spec cmd "r"); [congruence|]. reflexivity. }
  split; [|split; [|repeat split; assumption]].
  - unfold sync_step, try_except. rewrite Hbody.
    unfold decode. destruct (utf8_valid b); simpl; auto.
  - intros ->. unfold sync_step, try_except. rewrite Hbody. reflexivity.
Qed.




End Properties.

(** * The theorems at work on the example worlds *)

Import Examples.

Lemma is_unsent_spec_witness :
  isdir "./share/a.txt" w_client = Ret false w_client
  /\ is_unsent "./share/a.txt" w_client = Ret true w_client
  /\ isdir "./share/d" w_client = Ret true w_client
  /\ is_unsent "./share/d" w_client = Ret false w_client.
Proof.
  destruct (is_unsent_spec "./share/a.txt" w_client) as [Hfile _].
  destruct (is_unsent_spec "./share/d" w_client) as [_ Hdir].
  assert (Ha : isdir "./share/a.txt" w_client = Ret false w_client)
    by reflexivity.
  assert (Hd : isdir "./share/d" w_client = Ret true w_client)
    by reflexivity.
  split; [exact Ha|]. split; [|split; [exact Hd|exact (Hdir Hd)]].
  apply (proj1 (Hfile Ha)). left. reflexivity.
Defined.




Lemma receive_stops_at_terminator_or_bad_header_witness :
  (sock_recv (conn_sock w_terminator) header_len w_terminator
   = Ret terminator w_terminator_read
   /\ header_unpack terminator = Ok (0, 0)
   /\ receive_step json_dumps main.buffer_size 3 w_terminator
      = Ret false w_terminator_read)
  /\ exists w',
       receive json_dumps main.buffer_size 3 w_incoming = Ret tt w'
       /\ exists w1 header_info,
            sock_recv (conn_sock w1) header_len w1 = Ret header_info w'
            /\ (header_unpack header_info = Ok (0, 0)
                \/ header_unpack header_info = Err StructError).
Proof.
  split.
  - assert (Hr : sock_recv (conn_sock w_terminator) header_len w_terminator
                 = Ret terminator w_terminator_read)
      by (vm_compute; reflexivity).
    assert (Hu : header_unpack terminator = Ok (0, 0)) by reflexivity.
    split; [exact Hr|]. split; [exact Hu|].
    destruct (receive_stops_at_terminator_or_bad_header json_dumps
                main.buffer_size 3 w_terminator w_terminator_read)
      as [Hiff _].
    apply (proj2 Hiff). exists terminator. split; [exact Hr|]. left. exact Hu.
  - eexists. split; [vm_compute; reflexivity|].
    eapply (proj1 (proj2 (receive_stops_at_terminator_or_bad_header
                            json_dumps main.buffer_size 3 w_incoming _))).
    vm_compute. reflexivity.
Defined.


Lemma Recorder_init_without_record_file_witness :
  (fs_lookup (fs w_client) record_file_dir = None
   /\ exists w', Recorder_init json_loads w_client = Ret tt w'
                 /\ record w' = ∅ /\ fs w' = fs w_client
                 /\ trace w' = trace w_client)
  /\ (fs_lookup (fs w_cut_record) record_file_dir = Some (File (encode "{") 1)
      /\ exists w', Recorder_init json_loads w_cut_record = Ret tt w'
                    /\ record w' = ∅ /\ fs w' = fs w_cut_record
                    /\ trace w' = trace w_cut_record).
Proof.
  assert (H : fs_lookup (fs w_client) record_file_dir = None) by reflexivity.
  assert (H' : fs_lookup (fs w_cut_record) record_file_dir
               = Some (File (encode "{") 1)) by reflexivity.
  split; (split; [assumption|]).
  - exact (Recorder_init_without_record_file json_loads w_client
             (or_introl H)).
  - apply (Recorder_init_without_record_file json_loads w_cut_record).
    right. exists (encode "{"), 1, "{"%string.
    split; [exact H'|]. split; reflexivity.
Defined.

Lemma server_ignores_other_commands_witness :
  mode w_server_x = 2
  /\ sock_recv (conn_sock w_server_x) 1 w_server_x = Ret [x78] w_server_x_read
  /\ (sync_step json_dumps peer_ip main.port main.buffer_size 1 w_server_x
      = Ret tt w_server_x_read
      \/ sync_step json_dumps peer_ip main.port main.buffer_size 1 w_server_x
         = Raise UnicodeDecodeError w_server_x_read
         /\ utf8_valid [x78] = false)
  /\ trace w_server_x_read = trace w_server_x ++ [ERecv 1 [x78]]
  /\ record w_server_x_read = record w_server_x.
Proof.
  assert (Hr : sock_recv (conn_sock w_server_x) 1 w_server_x
               = Ret [x78] w_server_x_read) by (vm_compute; reflexivity).
  split; [reflexivity|]. split; [exact Hr|].
  destruct (server_ignores_other_commands json_dumps peer_ip main.port
              main.buffer_size 1 w_server_x w_server_x_read [x78] eq_refl Hr)
    as (H1 & _ & H3 & H4 & _).
  - vm_compute. discriminate.
  - vm_compute. discriminate.
  - auto.
Defined.


(** * Where the code departs from the specification *)


(** C8, as the specification has it, fails.  A record file that is not
    UTF-8 text is not JSON either, and reading it raises
    [UnicodeDecodeError], which [Recorder.__init__] does not catch,
    whatever [json.loads] does. *)
Lemma Recorder_init_raises_on_binary_record_file :
  fs_lookup (fs w_binary_record) record_file_dir = Some (File [xff] 1)
  /\ forall loads,
       Recorder_init loads w_binary_record
       = Raise UnicodeDecodeError w_binary_record.
Proof. split; [reflexivity|]. intros loads. reflexivity. Qed.

(** C6 on the code.  No call sets a timeout on a socket, so the wait in
    [accept] has no bound: a peer that starts while the other peer is down
    never leaves its first [accept], and the loop of [__start] never
    comes back to [connect]. *)
Lemma bootstrap_accept_has_no_timeout :
  forall fuel, exists w',
    Peer_init json_loads peer_ip main.port (S fuel) w_boot = Hang w'
    /\ trace w' = [ENewSocket 3; EConnect 3 peer_ip main.port;
                   EBind 3 main.port; EListen 3 2; EAccept 3 None].
Proof.
  intros fuel. eexists. split; vm_compute; reflexivity.
Qed.

(** * Further properties of the code *)

(** ** The header on the wire *)

Lemma Z_of_byte_range (b : byte) : 0 <= Z_of_byte b <= 255.
Proof.
  unfold Z_of_byte. pose proof (Byte.to_N_bounded b). lia.
Qed.

Lemma byte_of_Z_of_byte (b : byte) : byte_of_Z (Z_of_byte b) = b.
Proof.
  unfold byte_of_Z. pose proof (Z_of_byte_range b) as Hr.
  assert (E : Z.land (Z_of_byte b) 255 = Z_of_byte b).
  { change 255 with (Z.ones 8). rewrite Z.land_ones by lia.
    apply Z.mod_small. change (2 ^ 8) with 256. lia. }
  rewrite E. unfold Z_of_byte. rewrite N2Z.id, Byte.of_to_N. reflexivity.
Qed.

Lemma byte_of_Z_land (z z' : Z) :
  Z.land z 255 = Z.land z' 255 -> byte_of_Z z = byte_of_Z z'.
Proof. unfold byte_of_Z. intros ->. reflexivity. Qed.

Lemma testbit_byte_high (b : byte) (j : Z) :
  8 <= j -> Z.testbit (Z_of_byte b) j = false.
Proof.
  intros Hj. pose proof (Z_of_byte_range b) as Hr.
  rewrite <- (Z.mod_small (Z_of_byte b) (2 ^ 8))
    by (change (2 ^ 8) with 256; lia).
  apply Z.mod_pow2_bits_high. lia.
Qed.

Lemma testbit_shifted_byte (b : byte) (k n : Z) :
  0 <= k -> 0 <= n ->
  Z.testbit (Z.shiftl (Z_of_byte b) k) n
  = (k <=? n) && (n <? k + 8) && Z.testbit (Z_of_byte b) (n - k).
Proof.
  intros Hk Hn. rewrite Z.shiftl_spec by lia.
  destruct (Z.leb_spec k n); simpl.
  - destruct (Z.ltb_spec n (k + 8)); simpl; [reflexivity|].
    apply testbit_byte_high. lia.
  - apply Z.testbit_neg_r. lia.
Qed.

Lemma of_be32_testbit (b3 b2 b1 b0 : byte) (n : Z) :
  0 <= n ->
  Z.testbit (of_be32 b3 b2 b1 b0) n
  = (24 <=? n) && (n <? 32) && Z.testbit (Z_of_byte b3) (n - 24)
    || ((16 <=? n) && (n <? 24) && Z.testbit (Z_of_byte b2) (n - 16)
        || ((8 <=? n) && (n <? 16) && Z.testbit (Z_of_byte b1) (n - 8)
            || (n <? 8) && Z.testbit (Z_of_byte b0) n)).
Proof.
  intros Hn. unfold of_be32.
  rewrite !Z.lor_spec, !testbit_shifted_byte by lia.
  change (24 + 8) with 32. change (16 + 8) with 24. change (8 + 8) with 16.
  do 3 f_equal.
  destruct (Z.ltb_spec n 8); simpl; [reflexivity|].
  apply testbit_byte_high. lia.
Qed.

Lemma of_be32_field (b3 b2 b1 b0 : byte) (k : Z) (b : byte) :
  (k = 24 /\ b = b3) \/ (k = 16 /\ b = b2) \/ (k = 8 /\ b = b1)
  \/ (k = 0 /\ b = b0) ->
  byte_of_Z (Z.shiftr (of_be32 b3 b2 b1 b0) k) = b.
Proof.
  intros Hk.
  transitivity (byte_of_Z (Z_of_byte b)); [|apply byte_of_Z_of_byte].
  apply byte_of_Z_land.
  apply Z.bits_inj'. intros i Hi.
  rewrite !Z.land_spec, testbit_255 by lia.
  destruct (Z.ltb_spec i 8) as [Hlt|Hge];
    [|rewrite !andb_false_r; reflexivity].
  rewrite !andb_true_r.
  assert (Hk0 : 0 <= k)
    by (destruct Hk as [[-> _]|[[-> _]|[[-> _]|[-> _]]]]; lia).
  rewrite Z.shiftr_spec, of_be32_testbit by lia.
  destruct (Z.leb_spec 24 (i + k)), (Z.ltb_spec (i + k) 32),
    (Z.leb_spec 16 (i + k)), (Z.ltb_spec (i + k) 24),
    (Z.leb_spec 8 (i + k)), (Z.ltb_spec (i + k) 16),
    (Z.ltb_spec (i + k) 8);
    destruct Hk as [[-> ->]|[[-> ->]|[[-> ->]|[-> ->]]]]; try lia; simpl;
    rewrite ?orb_false_r; f_equal; lia.
Qed.

Lemma be32_of_be32 (b3 b2 b1 b0 : byte) :
  be32 (of_be32 b3 b2 b1 b0) = [b3; b2; b1; b0].
Proof.
  unfold be32.
  rewrite (of_be32_field b3 b2 b1 b0 24 b3) by auto.
  rewrite (of_be32_field b3 b2 b1 b0 16 b2) by auto.
  rewrite (of_be32_field b3 b2 b1 b0 8 b1) by auto.
  rewrite <- (Z.shiftr_0_r (of_be32 b3 b2 b1 b0)) at 1.
  rewrite (of_be32_field b3 b2 b1 b0 0 b0) by auto 10.
  reflexivity.
Qed.

Lemma of_be32_uint32 (b3 b2 b1 b0 : byte) :
  is_uint32 (of_be32 b3 b2 b1 b0) = true.
Proof.
  unfold is_uint32. apply andb_true_iff. split; apply Z.leb_le.
  - apply of_be32_nonneg.
  - unfold uint32_max.
    enough (of_be32 b3 b2 b1 b0 < 2 ^ 32) by lia.
    pose proof (of_be32_nonneg b3 b2 b1 b0) as Hn.
    destruct (Z.eq_dec (of_be32 b3 b2 b1 b0) 0) as [Hz|Hz]; [rewrite Hz; lia|].
    apply Z.log2_lt_pow2; [lia|].
    destruct (Z.lt_ge_cases (Z.log2 (of_be32 b3 b2 b1 b0)) 32) as [|Hge];
      [assumption|exfalso].
    pose proof (Z.bit_log2 (of_be32 b3 b2 b1 b0) ltac:(lia)) as Hbit.
    rewrite of_be32_testbit in Hbit by lia.
    destruct (Z.ltb_spec (Z.log2 (of_be32 b3 b2 b1 b0)) 32),
      (Z.ltb_spec (Z.log2 (of_be32 b3 b2 b1 b0)) 24),
      (Z.ltb_spec (Z.log2 (of_be32 b3 b2 b1 b0)) 16),
      (Z.ltb_spec (Z.log2 (of_be32 b3 b2 b1 b0)) 8); lia.
Qed.

(** X1. The header on the wire.  [pack] raises [struct.error] exactly
    when a field is not an unsigned 32-bit integer; otherwise it gives 8
    bytes that [unpack] turns back into the two fields; and any 8 bytes
    that [unpack] accepts are the packing of the fields it returns: on
    headers the two are inverse of each other. *)
Theorem header_pack_unpack_inverse (a b : Z) (hdr : list byte) :
  (header_pack a b = Err StructError
   <-> ~ (0 <= a <= uint32_max /\ 0 <= b <= uint32_max))
  /\ (header_pack a b = Ok hdr ->
      len hdr = header_len /\ header_unpack hdr = Ok (a, b))
  /\ (header_unpack hdr = Ok (a, b) -> header_pack a b = Ok hdr).
Proof.
  split; [|split].
  - unfold header_pack, is_uint32. split.
    + intros H [[? ?] [? ?]].
      destruct (Z.leb_spec 0 a), (Z.leb_spec a uint32_max),
        (Z.leb_spec 0 b), (Z.leb_spec b uint32_max); try lia.
      discriminate.
    + intros H.
      destruct (Z.leb_spec 0 a), (Z.leb_spec a uint32_max),
        (Z.leb_spec 0 b), (Z.leb_spec b uint32_max); simpl;
        try reflexivity.
      exfalso. apply H. lia.
  - intros H. destruct (header_unpack_pack _ _ _ H). auto.
  - unfold header_unpack.
    destruct hdr as [|a3 [|a2 [|a1 [|a0 [|b3 [|b2 [|b1 [|b0 [|? ?]]]]]]]]];
      try discriminate.
    intros [= <- <-]. unfold header_pack.
    rewrite !of_be32_uint32, !be32_of_be32. reflexivity.
Qed.

Section Extra.

Set Default Proof Using "Type*".

Variable json_loads : string -> option (gmap string TransferRecord).
Variable json_dumps : gmap string TransferRecord -> string.
Variable peer_ip : string.
Variable port : Z.
Variable receive_buffer_size : Z.

(** ** The list of the files to send *)

Lemma is_unsent_Ret (path : string) (w w' : world) (b : bool) :
  is_unsent path w = Ret b w' -> w' = w.
Proof.
  intros H.
  exact (proj1 (reads_only_Ret _ w w w' b (reads_only_is_unsent path)
                  eq_refl eq_refl H)).
Qed.

Lemma is_unsent_true_not_dir (path : string) (w : world) :
  is_unsent path w = Ret true w -> isdir path w = Ret false w.
Proof.
  unfold is_unsent, isdir. unfold_monad.
  destruct (match fs_lookup (fs w) path with
            | Some n => is_dir_node n
            | None => false
            end); [discriminate|reflexivity].
Qed.

Lemma unsent_of_a_directory (root : string) (names : list string) :
  forall (acc l : list string) (w w' : world),
    fold_each names
      (fun unsent_file_lst name =>
         b ← is_unsent (path_join root name);
         ret (if b : bool then unsent_file_lst ++ [path_join root name]
              else unsent_file_lst)) acc w = Ret l w' ->
    w' = w
    /\ l = acc ++ filter (fun p => returns_true (is_unsent p w) = true)
                    (map (path_join root) names).
Proof.
  induction names as [|name names IH]; intros acc l w w' H; simpl in H.
  - unfold ret in H. injection H as <- <-. rewrite app_nil_r. auto.
  - apply bind_Ret in H as (acc1 & w1 & H1 & H).
    apply bind_Ret in H1 as (b & w0 & Hb & H1).
    pose proof (is_unsent_Ret _ _ _ _ Hb) as ->.
    unfold ret in H1. injection H1 as <- <-.
    apply IH in H as [-> ->]. split; [reflexivity|].
    simpl. rewrite filter_cons. rewrite Hb.
    destruct b; simpl.
    + destruct (decide (true = true)); [|congruence].
      rewrite <- app_assoc. reflexivity.
    + destruct (decide (false = true)); [discriminate|]. reflexivity.
Qed.

Lemma unsent_of_a_walk (walk : list (string * list string * list string)) :
  forall (acc l : list string) (w w' : world),
    fold_each walk
      (fun unsent_file_lst '(root, dirs, files) =>
         fold_each (files ++ dirs)
           (fun unsent_file_lst name =>
              let path := path_join root name in
              b ← is_unsent path;
              ret (if b : bool then unsent_file_lst ++ [path]
                   else unsent_file_lst))
           unsent_file_lst) acc w = Ret l w' ->
    w' = w
    /\ l = acc ++ filter (fun p => returns_true (is_unsent p w) = true)
                    (flat_map
                       (fun t => map (path_join (fst (fst t)))
                                   (snd t ++ snd (fst t))) walk).
Proof.
  induction walk as [|[[root dirs] files] walk IH]; intros acc l w w' H;
    simpl in H.
  - unfold ret in H. injection H as <- <-. rewrite app_nil_r. auto.
  - apply bind_Ret in H as (acc1 & w1 & H1 & H).
    apply unsent_of_a_directory in H1 as [-> ->].
    apply IH in H as [-> ->]. split; [reflexivity|].
    simpl. rewrite filter_app, app_assoc. reflexivity.
Qed.

(** X2. [get_unsent_files] changes nothing and returns, in the order of
    the walk, exactly the paths of the walk for which [__is_unsent]
    returns [True]; none of them is a directory. *)
Theorem get_unsent_files_is_a_filter (w w' : world) (l : list string) :
  get_unsent_files w = Ret l w' ->
  w' = w
  /\ l = filter (fun p => returns_true (is_unsent p w) = true) (walk_paths w)
  /\ Forall (fun p => isdir p w = Ret false w) l.
Proof.
  unfold get_unsent_files, walk_paths. intros H.
  apply bind_Ret in H as (walk & w0 & H0 & H).
  apply gets_Ret in H0 as [-> ->].
  apply unsent_of_a_walk in H as [-> ->].
  split; [reflexivity|]. split; [reflexivity|].
  simpl. apply Forall_forall. intros p Hp.
  apply list_elem_of_filter in Hp as [Hp _].
  apply is_unsent_true_not_dir.
  destruct (is_unsent p w) as [[|] w1| | |] eqn:Hu; try discriminate.
  rewrite (is_unsent_Ret _ _ _ _ Hu). reflexivity.
Qed.

(** ** The record file *)

(** What [json.dump] leaves in the working directory. *)
Lemma json_dump_fs (w w' : world) (u : unit) :
  json_dump json_dumps w = Ret u w' ->
  exists m es m' es',
    fs w = Dir m es /\ fs w' = Dir m' es'
    /\ assoc record_file_name es'
       = Some (File (encode (json_dumps (record w))) (now w + 1))
    /\ (forall c, c <> record_file_name -> assoc c es' = assoc c es).
Proof.
  unfold json_dump. intros H.
  apply bind_Ret in H as (r & w0 & H0 & H). apply gets_Ret in H0 as [-> ->].
  apply bind_Ret in H as (u1 & w1 & H1 & H).
  apply fs_update_Ret in H1 as (r1 & Hr1 & ->).
  apply fs_update_Ret in H as (r2 & Hr2 & ->).
  unfold fs_alter in Hr1, Hr2.
  change (String.eqb record_file_dir EmptyString
          || is_absolute record_file_dir) with false in Hr1, Hr2.
  change (components record_file_dir) with [record_file_name] in Hr1, Hr2.
  cbn [alter_at] in Hr1.
  destruct (fs w) as [|m es] eqn:Hfs; [discriminate|].
  destruct (truncate_node (now w) (assoc record_file_name es)) as [n|] eqn:Ht;
    [|discriminate].
  assert (n = File [] (now w)) as ->.
  { unfold truncate_node in Ht.
    destruct (assoc record_file_name es) as [[|]|]; congruence. }
  injection Hr1 as <-. simpl in Hr2.
  rewrite assoc_assoc_set_eq in Hr2. simpl in Hr2. injection Hr2 as <-.
  do 4 eexists. split; [reflexivity|]. split; [reflexivity|].
  split; [apply assoc_assoc_set_eq|].
  intros c Hc. rewrite !assoc_assoc_set_ne by exact Hc. reflexivity.
Qed.

Lemma json_dump_same_but_record_file (w w' : world) (u : unit) :
  json_dump json_dumps w = Ret u w' ->
  same_but_record_file (fs w) (fs w').
Proof.
  intros H. apply json_dump_fs in H as (m & es & m' & es' & -> & -> & _ & H).
  exact H.
Qed.

Lemma json_dump_persists (w w' : world) (u : unit) :
  json_dump json_dumps w = Ret u w' ->
  read_file record_file_dir w' = Ret (encode (json_dumps (record w'))) w'.
Proof.
  intros H. pose proof (json_dump_Ret _ _ _ _ H) as (_ & Hr & _).
  apply json_dump_fs in H as (m & es & m' & es' & _ & Hfs & Hrec & _).
  unfold read_file, fs_lookup.
  change (String.eqb record_file_dir EmptyString
          || is_absolute record_file_dir) with false.
  change (components record_file_dir) with [record_file_name].
  rewrite Hfs. simpl. rewrite Hrec, Hr. reflexivity.
Qed.

(** Each of the three updates of the record ends with [json.dump]. *)
Lemma recorder_update_dumps (path : string) (val : bool) (w w' : world) (u : unit) :
  set_ownership json_dumps path val w = Ret u w'
  \/ add_rec json_dumps path w = Ret u w'
  \/ del_rec json_dumps path w = Ret u w' ->
  exists w0, json_dump json_dumps w0 = Ret u w'.
Proof.
  intros [H|[H|H]].
  - unfold set_ownership in H.
    apply bind_Ret in H as (? & ? & _ & H).
    apply bind_Ret in H as (? & ? & _ & H).
    apply bind_Ret in H as (? & ? & _ & H). eauto.
  - unfold add_rec in H.
    apply bind_Ret in H as (? & ? & _ & H).
    apply bind_Ret in H as (r & w1 & H1 & H). apply gets_Ret in H1 as [-> ->].
    destruct (record _ !! path); [|discriminate].
    apply bind_Ret in H as (? & ? & _ & H).
    apply bind_Ret in H as (? & ? & _ & H). eauto.
  - unfold del_rec in H.
    apply bind_Ret in H as (? & ? & _ & H).
    apply bind_Ret in H as (? & ? & _ & H).
    apply bind_Ret in H as (? & ? & _ & H). eauto.
Qed.

(** X3. The record file follows the record: when [set_ownership],
    [add_rec] or [del_rec] returns, the content of the record file is the
    dump of the record the object then holds, whatever the file held
    before. *)
Theorem record_file_holds_the_record
    (path : string) (val : bool) (w w' : world) (u : unit) :
  set_ownership json_dumps path val w = Ret u w'
  \/ add_rec json_dumps path w = Ret u w'
  \/ del_rec json_dumps path w = Ret u w' ->
  read_file record_file_dir w' = Ret (encode (json_dumps (record w'))) w'.
Proof.
  intros H. apply recorder_update_dumps in H as (w0 & H).
  exact (json_dump_persists _ _ _ H).
Qed.


(** ** What a computation keeps, however it ends *)

Section Keeps.

Variable R : world -> world -> Prop.
Hypothesis R_refl : forall w, R w w.
Hypothesis R_trans : forall w1 w2 w3, R w1 w2 -> R w2 w3 -> R w1 w3.

Lemma keeps_ret {A} (a : A) : keeps R (ret a).
Proof. intros w w' [= <-]. apply R_refl. Qed.

Lemma keeps_gets {A} (f : world -> A) : keeps R (gets f).
Proof. intros w w' [= <-]. apply R_refl. Qed.

Lemma keeps_raise {A} (e : exn) : keeps R (@raise A e).
Proof. intros w w' [= <-]. apply R_refl. Qed.

Lemma keeps_hang {A} : keeps R (@hang A).
Proof. intros w w' [= <-]. apply R_refl. Qed.

Lemma keeps_out_of_fuel {A} : keeps R (@out_of_fuel A).
Proof. intros w w' [=]. Qed.

Lemma keeps_lift {A} (r : result A) : keeps R (lift r).
Proof. destruct r; [apply keeps_ret|apply keeps_raise]. Qed.

Lemma keeps_modify (f : world -> world) :
  (forall w, R w (f w)) -> keeps R (modify f).
Proof. intros Hf w w' [= <-]. apply Hf. Qed.

Lemma keeps_bind {A B} (m : M A) (f : A -> M B) :
  keeps R m -> (forall a, keeps R (f a)) -> keeps R (m ≫= f).
Proof.
  intros Hm Hf w w' H. unfold mbind, M_bind, bind in H.
  specialize (Hm w).
  destruct (m w) as [a w1|e w1|w1|]; simpl in *.
  - eapply R_trans; [apply Hm; reflexivity|]. exact (Hf a w1 w' H).
  - apply Hm. exact H.
  - apply Hm. exact H.
  - discriminate.
Qed.

Lemma keeps_when (b : bool) (m : M unit) : keeps R m -> keeps R (when b m).
Proof. destruct b; [auto|intros _; apply keeps_ret]. Qed.

Lemma keeps_try_except {A} (m h : M A) (cls : exn -> bool) :
  keeps R m -> keeps R h -> keeps R (try_except m cls h).
Proof.
  intros Hm Hh w w' H. unfold try_except in H. specialize (Hm w).
  destruct (m w) as [a w1|e w1|w1|]; simpl in *; try (apply Hm; exact H).
  destruct (cls e).
  - eapply R_trans; [apply Hm; reflexivity|]. exact (Hh w1 w' H).
  - apply Hm. exact H.
Qed.

Lemma keeps_while {S} (cond : S -> M bool) (body : S -> M S) (fuel : nat) :
  (forall s, keeps R (cond s)) -> (forall s, keeps R (body s)) ->
  forall s, keeps R (while fuel cond body s).
Proof.
  intros Hc Hb. induction fuel as [|fuel IH]; intros s; simpl.
  - apply (keeps_bind (cond s)); [apply Hc|].
    intros [|]; [apply keeps_out_of_fuel|apply keeps_ret].
  - apply (keeps_bind (cond s)); [apply Hc|].
    intros [|]; [|apply keeps_ret].
    apply (keeps_bind (body s)); [apply Hb|]. exact IH.
Qed.

Lemma keeps_for_each {A} (l : list A) (body : A -> M unit) :
  (forall x, keeps R (body x)) -> keeps R (for_each l body).
Proof.
  intros Hb. induction l as [|x l IH]; simpl; [apply keeps_ret|].
  apply keeps_bind; [apply Hb|]. intros _. exact IH.
Qed.

Lemma keeps_fold_each {A S} (l : list A) (body : S -> A -> M S) :
  (forall s x, keeps R (body s x)) -> forall s, keeps R (fold_each l body s).
Proof.
  intros Hb. induction l as [|x l IH]; intros s; simpl; [apply keeps_ret|].
  apply keeps_bind; [apply Hb|]. exact IH.
Qed.

End Keeps.

(** ** The bootstrap *)

Lemma run_bind_Hang {A B} (m : M A) (f : A -> M B) (w w1 : world) :
  m w = Hang w1 -> (m ≫= f) w = Hang w1.
Proof. intros H. unfold mbind, M_bind, bind. rewrite H. reflexivity. Qed.


Lemma run_as_client_returns (w : world) :
  exists w',
    run_as_client peer_ip port w = Ret tt w'
    /\ record w' = record w /\ fs w' = fs w /\ sock w' = sock w
    /\ ((mode w' = 1 /\ conn_sock w' = Some (sock w))
        \/ (mode w' = mode w /\ conn_sock w' = conn_sock w)).
Proof.
  unfold run_as_client, try_except, sock_connect. unfold_monad. simpl.
  destruct (default (Some ECONNREFUSED) (head (connects (net w))))
    as [e|]; simpl.
  - rewrite exn_of_errno_is_OSError, orb_true_r.
    eexists. split; [reflexivity|]. simpl. auto 10.
  - eexists. split; [reflexivity|]. simpl. auto 10.
Qed.

Lemma start_done (fuel : nat) (w : world) :
  mode w <> 0 -> start peer_ip port fuel w = Ret tt w.
Proof.
  intros Hm. apply Z.eqb_neq in Hm.
  destruct fuel; unfold start; simpl; unfold_monad; rewrite Hm; reflexivity.
Qed.

Lemma start_S (fuel : nat) (w : world) :
  mode w = 0 ->
  start peer_ip port (S fuel) w
  = ((run_as_client peer_ip port ;;
      m ← gets mode;
      when (negb (m =? 1)) (run_as_server port)) ;;
     start peer_ip port fuel) w.
Proof.
  intros Hm. unfold start. simpl. unfold_monad. rewrite Hm. simpl.
  destruct (run_as_client peer_ip port w) as [[] w1| | |]; try reflexivity.
  destruct (if negb (mode w1 =? 1) then run_as_server port else _)
    as [[] w2| | |]; reflexivity.
Qed.

(** One turn of the loop of [__start]. *)
Lemma start_turn (w : world) :
  mode w = 0 ->
  exists w',
    ((run_as_client peer_ip port ;;
      m ← gets mode;
      when (negb (m =? 1)) (run_as_server port)) w = Ret tt w'
     /\ (connected w' \/ mode w' = 0)
     \/ (run_as_client peer_ip port ;;
         m ← gets mode;
         when (negb (m =? 1)) (run_as_server port)) w = Hang w'
        /\ timeout (sock w) = None)
    /\ record w' = record w /\ fs w' = fs w /\ sock w' = sock w.
Proof.
  intros Hm.
  destruct (run_as_client_returns w) as (w1 & Hc & Hr & Hf & Hs & Hcase).
  destruct Hcase as [[Hm1 Hc1]|[Hm1 Hc1]].
  - exists w1. split; [|auto]. left. split.
    + rewrite (run_bind _ _ _ _ _ Hc). unfold_monad. rewrite Hm1. reflexivity.
    + left. left. split; [exact Hm1|]. rewrite Hs. exact Hc1.
  - destruct (run_as_server_outcomes port w1)
      as (k & w2 & Hcase & _ & _ & Hs2 & Hr2 & Hf2).
    assert (Hstep : (run_as_client peer_ip port ;;
                     m ← gets mode;
                     when (negb (m =? 1)) (run_as_server port)) w
                    = run_as_server port w1).
    { rewrite (run_bind _ _ _ _ _ Hc). unfold_monad.
      rewrite Hm1, Hm. reflexivity. }
    exists w2. rewrite Hstep.
    split; [|rewrite Hr2, Hf2, Hs2; auto].
    destruct Hcase as [(H & Hm2 & _ & Hc2)|[(H & _ & Ht & _)|(H & Hm2 & _)]].
    + left. split; [exact H|]. left. right. auto.
    + right. split; [exact H|]. rewrite <- Hs. exact Ht.
    + left. split; [exact H|]. right. congruence.
Qed.

(** [__start] from mode 0. *)
Lemma start_from_mode_0 (fuel : nat) :
  forall w, mode w = 0 ->
    match start peer_ip port fuel w with
    | Ret _ w' =>
        connected w'
        /\ record w' = record w /\ fs w' = fs w /\ sock w' = sock w
    | Raise _ _ => False
    | Hang w' =>
        timeout (sock w) = None
        /\ record w' = record w /\ fs w' = fs w /\ sock w' = sock w
    | OutOfFuel => True
    end.
Proof.
  induction fuel as [|fuel IH]; intros w Hm.
  - assert (H : start peer_ip port 0 w = OutOfFuel).
    { unfold start. simpl. unfold_monad. rewrite Hm. reflexivity. }
    rewrite H. exact I.
  - rewrite (start_S _ _ Hm).
    destruct (start_turn w Hm) as (w1 & Hcase & Hr & Hf & Hs).
    destruct Hcase as [[H Hc]|[H Ht]].
    + rewrite (run_bind _ _ _ _ _ H).
      destruct Hc as [Hc|Hm1].
      * assert (Hm1 : mode w1 <> 0)
          by (destruct Hc as [[-> _]|[-> _]]; discriminate).
        rewrite (start_done _ _ Hm1). auto.
      * specialize (IH w1 Hm1).
        destruct (start peer_ip port fuel w1) as [u w'|e w'|w'|];
          [| exact IH | | exact I].
        -- destruct IH as (Hc & Hr' & Hf' & Hs').
           repeat split; congruence.
        -- destruct IH as (Ht & Hr' & Hf' & Hs').
           repeat split; congruence.
    + rewrite (run_bind_Hang _ _ _ _ H). auto.
Qed.




(** ** The paths of the walk *)

Lemma split_slash_not_nil (s : string) : split_slash s <> [].
Proof.
  induction s as [|c s IH]; simpl; [discriminate|].
  destruct (Ascii.eqb c slash); [discriminate|].
  destruct (split_slash s); [contradiction|discriminate].
Qed.

Lemma split_slash_app (a b : string) :
  split_slash (a +:+ String slash b) = split_slash a ++ split_slash b.
Proof.
  induction a as [|c a IH]; simpl.
  - reflexivity.
  - rewrite IH. destruct (Ascii.eqb c slash); [reflexivity|].
    pose proof (split_slash_not_nil a).
    destruct (split_slash a); [contradiction|reflexivity].
Qed.

Lemma components_app (a b : string) :
  components (a +:+ String slash b) = components a ++ components b.
Proof. unfold components. rewrite split_slash_app. apply filter_app. Qed.

Lemma string_app_assoc (a b c : string) : (a +:+ b) +:+ c = a +:+ (b +:+ c).
Proof.
  induction a as [|x a IH]; [reflexivity|].
  change (String x ((a +:+ b) +:+ c) = String x (a +:+ (b +:+ c))).
  rewrite IH. reflexivity.
Qed.

Lemma components_join (root name : string) :
  is_absolute name = false ->
  components (path_join root name) = components root ++ components name.
Proof.
  intros Hn. unfold path_join. rewrite Hn.
  destruct (String.eqb_spec root EmptyString) as [->|Hr]; simpl.
  - reflexivity.
  - unfold ends_with_slash.
    destruct (before_last_slash root) as [h|]; [|apply components_app].
    destruct (String.eqb_spec root (h +:+ "/")) as [->|_];
      [|apply components_app].
    rewrite string_app_assoc.
    change (components (h +:+ String slash name)
            = components (h +:+ String slash EmptyString) ++ components name).
    rewrite (components_app h name), (components_app h EmptyString).
    change (components EmptyString) with (@nil string).
    rewrite app_nil_r. reflexivity.
Qed.

Lemma is_absolute_join (root name : string) :
  is_absolute root = true -> is_absolute (path_join root name) = true.
Proof.
  intros Hr. unfold path_join.
  destruct (is_absolute name) eqn:Hn; [exact Hn|].
  destruct root as [|c root]; [discriminate|].
  destruct (_ || _); exact Hr.
Qed.

Lemma under_share_join (root name : string) :
  under_share root -> under_share (path_join root name).
Proof.
  intros Hr. destruct (is_absolute name) eqn:Hn.
  - left. unfold path_join. rewrite Hn. exact Hn.
  - destruct Hr as [Hr|[cs Hr]].
    + left. apply is_absolute_join. exact Hr.
    + right. rewrite (components_join _ _ Hn), Hr. simpl. eauto.
Qed.

Lemma os_walk_under_share (n : node) :
  forall top, under_share top ->
    Forall (fun t => under_share (fst (fst t))) (os_walk top n).
Proof.
  induction n as [c m|m es IH] using node_induction; intros top Ht; simpl.
  - constructor.
  - apply Forall_app. split; [|constructor; [exact Ht|constructor]].
    induction IH as [|[name child] l Hc _ IHl]; [constructor|].
    apply Forall_app. split; [|exact IHl].
    apply Hc. apply under_share_join. exact Ht.
Qed.

Lemma walk_paths_under_share (w : world) : Forall under_share (walk_paths w).
Proof.
  unfold walk_paths.
  assert (H : Forall (fun t : string * list string * list string =>
                        under_share (fst (fst t)))
                (match fs_lookup (fs w) share_dir with
                 | Some n => os_walk share_dir n
                 | None => []
                 end)).
  { destruct (fs_lookup (fs w) share_dir) as [n|]; [|constructor].
    apply os_walk_under_share. right. exists []. reflexivity. }
  induction H as [|[[root dirs] files] l Hr _ IH]; simpl; [constructor|].
  apply Forall_app. split; [|exact IH].
  apply Forall_forall. intros p Hp.
  apply list_elem_of_fmap in Hp as (name & -> & _).
  apply under_share_join. exact Hr.
Qed.

Lemma under_share_off_record_file (path : string) :
  under_share path -> off_record_file path.
Proof.
  intros [H|[cs H]]; [left; exact H|right].
  exists "share", cs. split; [exact H|discriminate].
Qed.

(** A path that does not go through the record file names the same thing
    when only the record file has changed. *)
Lemma fs_lookup_off_record_file (path : string) (w w' : world) :
  off_record_file path -> same_files_but_record_file w w' ->
  fs_lookup (fs w') path = fs_lookup (fs w) path.
Proof.
  intros Hp [->|Hs]; [reflexivity|]. unfold fs_lookup.
  destruct Hp as [Hp|(c0 & cs & Hp & Hne)];
    [rewrite Hp, orb_true_r; reflexivity|].
  destruct (_ || _); [reflexivity|]. rewrite Hp.
  destruct (fs w) as [|m es], (fs w') as [|m' es']; simpl in Hs;
    try contradiction.
  simpl. rewrite (Hs c0 Hne). reflexivity.
Qed.

Lemma same_files_but_record_file_refl (w : world) :
  same_files_but_record_file w w.
Proof. left. reflexivity. Qed.

Lemma same_files_but_record_file_trans (w1 w2 w3 : world) :
  same_files_but_record_file w1 w2 -> same_files_but_record_file w2 w3 ->
  same_files_but_record_file w1 w3.
Proof.
  unfold same_files_but_record_file. intros [H1|H1] [H2|H2].
  - left. congruence.
  - right. rewrite <- H1. exact H2.
  - right. rewrite H2. exact H1.
  - right. exact (same_but_record_file_trans _ _ _ H1 H2).
Qed.

(** ** What the calls keep *)

Lemma keeps_weaken {A} (R1 R2 : world -> world -> Prop) (m : M A) :
  (forall w w', R1 w w' -> R2 w w') -> keeps R1 m -> keeps R2 m.
Proof. intros HR Hm w w' H. apply HR. exact (Hm w w' H). Qed.

Lemma same_record_and_files_refl (w : world) : same_record_and_files w w.
Proof. split; reflexivity. Qed.

Lemma same_record_and_files_trans (w1 w2 w3 : world) :
  same_record_and_files w1 w2 -> same_record_and_files w2 w3 ->
  same_record_and_files w1 w3.
Proof. intros [H1 H2] [H3 H4]. split; congruence. Qed.

Lemma same_record_refl (w : world) : same_record w w.
Proof. reflexivity. Qed.

Lemma same_record_trans (w1 w2 w3 : world) :
  same_record w1 w2 -> same_record w2 w3 -> same_record w1 w3.
Proof. unfold same_record. congruence. Qed.

Lemma keeps_stat (R : world -> world -> Prop) {A} (field : node -> A)
    (path : string) :
  (forall w, R w w) -> keeps R (stat field path).
Proof.
  intros HR w w' H. unfold stat in H.
  destruct (fs_lookup (fs w) path); injection H as <-; apply HR.
Qed.

Lemma keeps_read_file (R : world -> world -> Prop) (path : string) :
  (forall w, R w w) -> keeps R (read_file path).
Proof.
  intros HR w w' H. unfold read_file in H.
  destruct (fs_lookup (fs w) path) as [[|]|]; injection H as <-; apply HR.
Qed.

Lemma keeps_transmit (c : option socket) (ev : event) :
  keeps same_record_and_files (transmit c ev).
Proof.
  intros w w' H. unfold transmit in H.
  destruct c; [|injection H as <-; split; reflexivity].
  unfold_monad. simpl in H.
  destruct (default None (head (sends (net w)))); simpl in H;
    injection H as <-; split; reflexivity.
Qed.

Lemma keeps_sock_recv (c : option socket) (n : Z) :
  keeps same_record_and_files (sock_recv c n).
Proof.
  intros w w' H. unfold sock_recv in H.
  destruct c; [|injection H as <-; split; reflexivity].
  destruct (n <? 0); [injection H as <-; split; reflexivity|].
  unfold_monad. simpl in H.
  destruct (inbox (net w)) as [|[bs|e] rest]; simpl in H;
    injection H as <-; split; reflexivity.
Qed.

Lemma keeps_sock_accept (s : socket) :
  keeps same_record_and_files (sock_accept s).
Proof.
  intros w w' H. unfold sock_accept in H. unfold_monad. simpl in H.
  destruct (default AcceptNoPeer (head (accepts (net w)))); simpl in H;
    [| |destruct (timeout s); simpl in H];
    injection H as <-; split; reflexivity.
Qed.

Lemma keeps_sock_sendfile (c : option socket) (path : string) :
  keeps same_record_and_files (sock_sendfile c path).
Proof.
  unfold sock_sendfile.
  apply (keeps_bind _ same_record_and_files_refl same_record_and_files_trans).
  - apply keeps_read_file. exact same_record_and_files_refl.
  - intros content. apply keeps_transmit.
Qed.

Lemma keeps_socket_new : keeps same_record_and_files socket_new.
Proof. intros w w' [= <-]. split; reflexivity. Qed.

Lemma keeps_fs_update_record f (path : string) :
  keeps same_record (fs_update f path).
Proof.
  intros w w' H. unfold fs_update in H.
  destruct (fs_alter (now w) (f (now w)) path (fs w));
    injection H as <-; reflexivity.
Qed.

(** A change of the entry of the record file in the working directory. *)
Lemma keeps_fs_update_record_file f :
  keeps same_files_but_record_file (fs_update f record_file_dir).
Proof.
  intros w w' H. unfold fs_update, fs_alter in H.
  change (String.eqb record_file_dir EmptyString
          || is_absolute record_file_dir) with false in H.
  change (components record_file_dir) with [record_file_name] in H.
  cbn [alter_at] in H.
  destruct (fs w) as [|m es] eqn:Hfs;
    [injection H as <-; left; reflexivity|].
  destruct (f (now w) (assoc record_file_name es));
    injection H as <-; [|left; reflexivity].
  right. simpl. rewrite Hfs. simpl.
  intros c Hc. apply assoc_assoc_set_ne. exact Hc.
Qed.

Ltac keeps_steps Hr Ht :=
  repeat first
    [ apply (keeps_ret _ Hr Ht) | apply (keeps_gets _ Hr Ht)
    | apply (keeps_raise _ Hr Ht) | apply (keeps_lift _ Hr Ht)
    | apply (keeps_hang _ Hr Ht)
    | apply (keeps_stat _ _ _ Hr) | apply (keeps_read_file _ _ Hr)
    | apply (keeps_bind _ Hr Ht) | apply (keeps_when _ Hr Ht)
    | apply (keeps_try_except _ Hr Ht)
    | apply (keeps_for_each _ Hr Ht) | apply (keeps_fold_each _ Hr Ht)
    | apply (keeps_while _ Hr Ht)
    | lazymatch goal with
      | |- keeps _ _ => fail
      | |- forall _, _ => intro
      end ].

Lemma keeps_files_modify (f : world -> world) :
  (forall w, fs (f w) = fs w) -> keeps same_files_but_record_file (modify f).
Proof. intros Hf w w' [= <-]. left. apply Hf. Qed.

Lemma keeps_files_of_same (A : Type) (m : M A) :
  keeps same_record_and_files m -> keeps same_files_but_record_file m.
Proof. apply keeps_weaken. intros w w' [_ H]. left. exact H. Qed.

Ltac keeps_files :=
  repeat first
    [ progress keeps_steps same_files_but_record_file_refl
                           same_files_but_record_file_trans
    | apply keeps_fs_update_record_file
    | apply keeps_files_modify; intros; reflexivity
    | apply keeps_files_of_same, keeps_transmit
    | match goal with
      | |- keeps _ (match ?x with _ => _ end) => destruct x
      | |- keeps _ (if ?x then _ else _) => destruct x
      end ].

Lemma keeps_files_set_ownership (path : string) (val : bool) :
  keeps same_files_but_record_file (set_ownership json_dumps path val).
Proof. unfold set_ownership, log. keeps_files. Qed.

Lemma keeps_files_add_rec (path : string) :
  keeps same_files_but_record_file (add_rec json_dumps path).
Proof. unfold add_rec, log, getmtime. keeps_files. Qed.

Lemma keeps_files_del_rec (path : string) :
  keeps same_files_but_record_file (del_rec json_dumps path).
Proof. unfold del_rec, log. keeps_files. Qed.

Lemma keeps_files_is_unsent (path : string) :
  keeps same_files_but_record_file (is_unsent path).
Proof. unfold is_unsent, isdir, getmtime. keeps_files. Qed.

Lemma keeps_files_get_unsent_files :
  keeps same_files_but_record_file get_unsent_files.
Proof.
  unfold get_unsent_files, is_unsent, isdir, getmtime. keeps_files.
Qed.

Lemma keeps_files_send_file (path : string) :
  keeps same_files_but_record_file (send_file json_dumps path).
Proof.
  unfold send_file, sock_send, sock_sendfile, getsize.
  keeps_steps same_files_but_record_file_refl same_files_but_record_file_trans;
    first [apply keeps_files_set_ownership | apply keeps_files_add_rec
          |apply keeps_files_of_same, keeps_transmit | keeps_files].
Qed.

(** X7. [__send] changes no file but the record file, however it ends
    (it returns, or a call in it raises): the tree of the files is the
    same, or it differs in the entry of the record file in the working
    directory only. *)
Theorem send_changes_the_record_file_only :
  keeps same_files_but_record_file (send json_dumps).
Proof.
  unfold send, log, sock_send.
  keeps_steps same_files_but_record_file_refl same_files_but_record_file_trans;
    first [apply keeps_files_get_unsent_files
          |apply keeps_files_send_file
          |apply keeps_files_of_same, keeps_transmit
          |apply keeps_files_modify; intros; reflexivity
          |keeps_files].
Qed.

(** ** After a transfer *)

Lemma is_unsent_agrees (path : string) (w w' : world) (b : bool) :
  record w' !! path = record w !! path ->
  fs_lookup (fs w') path = fs_lookup (fs w) path ->
  is_unsent path w = Ret b w -> is_unsent path w' = Ret b w'.
Proof.
  unfold is_unsent, isdir, getmtime, stat. unfold_monad.
  intros Hr Hf. rewrite Hf.
  destruct (negb _); simpl; [|intros [= <-]; reflexivity].
  rewrite Hr.
  destruct (record w !! path) as [[o [t|]]|]; simpl;
    try (intros [= <-]; reflexivity).
  rewrite Hf.
  destruct (fs_lookup (fs w) path) as [n|]; intros [= <-]; reflexivity.
Qed.

Lemma is_unsent_recorded (path : string) (w : world) (n : node) (o : bool) :
  fs_lookup (fs w) path = Some n ->
  record w !! path = Some (Rec o (Some (node_mtime n))) ->
  is_unsent path w = Ret false w.
Proof.
  unfold is_unsent, isdir, getmtime, stat. unfold_monad.
  intros Hl Hr. rewrite Hl.
  destruct (negb _); simpl; [|reflexivity].
  rewrite Hr. simpl. rewrite Hl, Z.eqb_refl. reflexivity.
Qed.

(** The file whose time [add_rec] has recorded is not unsent. *)
Lemma add_rec_marks (path : string) (w w' : world) (u : unit) :
  off_record_file path ->
  add_rec json_dumps path w = Ret u w' ->
  is_unsent path w' = Ret false w'
  /\ same_files_but_record_file w w'
  /\ exists r, record w !! path = Some r
               /\ forall p, p <> path -> record w' !! p = record w !! p.
Proof.
  intros Hp H.
  assert (HF : same_files_but_record_file w w')
    by (apply (keeps_files_add_rec path); rewrite H; reflexivity).
  apply add_rec_Ret in H as (_ & (r & t & Hr & Hg & Hrec) & _).
  split; [|split; [exact HF|]].
  - unfold getmtime, stat in Hg.
    destruct (fs_lookup (fs w) path) as [n|] eqn:Hl; [|discriminate].
    injection Hg as <-.
    apply (is_unsent_recorded path w' n (ownership r)).
    + rewrite (fs_lookup_off_record_file _ _ _ Hp HF). exact Hl.
    + rewrite Hrec. apply lookup_insert_eq.
  - exists r. split; [exact Hr|]. intros p Hne.
    rewrite Hrec. apply lookup_insert_ne. congruence.
Qed.

Lemma send_file_marks (path : string) (w w' : world) (u : unit) :
  off_record_file path ->
  send_file json_dumps path w = Ret u w' ->
  is_unsent path w' = Ret false w'
  /\ same_files_but_record_file w w'
  /\ forall p, p <> path -> record w' !! p = record w !! p.
Proof.
  intros Hp H.
  assert (HF : same_files_but_record_file w w')
    by (apply (keeps_files_send_file path); rewrite H; reflexivity).
  unfold send_file in H.
  apply bind_Ret in H as (u1 & w1 & Hown & H).
  apply set_ownership_Ret in Hown as (_ & Hr1 & _).
  apply bind_Ret in H as (size & w1' & Hsize & H).
  assert (w1' = w1) as ->.
  { unfold getsize, stat in Hsize.
    destruct (fs_lookup (fs w1) path); [|discriminate].
    injection Hsize as _ <-. reflexivity. }
  apply bind_Ret in H as (hdr & w1' & Hpack & H).
  apply lift_Ret in Hpack as [_ ->].
  apply bind_Ret in H as (c & w1' & Hc & H). apply gets_Ret in Hc as [-> ->].
  apply bind_Ret in H as (u2 & w2 & Hsend & H).
  apply transmit_Ret in Hsend as (_ & Hr2 & _).
  apply bind_Ret in H as (c & w2' & Hc & H). apply gets_Ret in Hc as [-> ->].
  apply bind_Ret in H as (u3 & w3 & Hsf & H).
  assert (Hr3 : record w3 = record w2).
  { unfold sock_sendfile in Hsf.
    apply bind_Ret in Hsf as (content & w2' & Hread & Hsf).
    assert (w2' = w2) as ->.
    { unfold read_file in Hread.
      destruct (fs_lookup (fs w2) path) as [[|]|]; try discriminate.
      injection Hread as _ <-. reflexivity. }
    apply transmit_Ret in Hsf as (_ & Hr & _). exact Hr. }
  destruct (add_rec_marks _ _ _ _ Hp H) as (Hu & _ & r & _ & Hne).
  split; [exact Hu|]. split; [exact HF|].
  intros p Hpne. rewrite (Hne p Hpne), Hr3, Hr2, Hr1.
  apply lookup_insert_ne. congruence.
Qed.

Lemma for_each_send_file_marks (paths : list string) :
  forall w w',
    Forall off_record_file paths ->
    for_each paths (send_file json_dumps) w = Ret tt w' ->
    same_files_but_record_file w w'
    /\ forall p, off_record_file p ->
         p ∈ paths \/ is_unsent p w = Ret false w ->
         is_unsent p w' = Ret false w'.
Proof.
  induction paths as [|q paths IH]; intros w w' Hall H; simpl in H.
  - injection H as <-. split; [apply same_files_but_record_file_refl|].
    intros p _ [Hin|Hu]; [|exact Hu]. inversion Hin.
  - apply bind_Ret in H as (u1 & w1 & Hq & H).
    inversion Hall as [|? ? Hqs Hrest]; subst.
    destruct (send_file_marks _ _ _ _ Hqs Hq) as (Hu & HF & Hne).
    destruct (IH _ _ Hrest H) as (HF' & Hkeep).
    split; [exact (same_files_but_record_file_trans _ _ _ HF HF')|].
    intros p Hp Hcase. apply (Hkeep p Hp).
    destruct (decide (p = q)) as [->|Hpq]; [right; exact Hu|].
    destruct Hcase as [Hin|Hfalse].
    + left. apply elem_of_cons in Hin as [->|Hin]; [contradiction|exact Hin].
    + right. apply (is_unsent_agrees p w w1 false); [| |exact Hfalse].
      * apply Hne. exact Hpq.
      * apply fs_lookup_off_record_file; assumption.
Qed.

(** When [get_unsent_files] returns, [__is_unsent] has returned for every
    path of the walk. *)
Lemma get_unsent_files_answers (w w' : world) (l : list string) :
  get_unsent_files w = Ret l w' ->
  Forall (fun p => p ∈ l \/ is_unsent p w = Ret false w) (walk_paths w).
Proof.
  unfold get_unsent_files, walk_paths. intros H.
  apply bind_Ret in H as (walk & w0 & H0 & H).
  apply gets_Ret in H0 as [-> ->].
  set (walk := match fs_lookup (fs w) share_dir with
               | Some n => os_walk share_dir n
               | None => []
               end) in *.
  assert (Hinner : forall root names acc l1 w1,
             fold_each names
               (fun unsent_file_lst name =>
                  b ← is_unsent (path_join root name);
                  ret (if b : bool then unsent_file_lst ++ [path_join root name]
                       else unsent_file_lst)) acc w = Ret l1 w1 ->
             w1 = w /\ (forall p, p ∈ acc -> p ∈ l1)
             /\ Forall (fun p => p ∈ l1 \/ is_unsent p w = Ret false w)
                  (map (path_join root) names)).
  { intros root names. induction names as [|name names IH];
      intros acc l1 w1 Hf; simpl in Hf.
    - injection Hf as <- <-. split; [reflexivity|]. split; [auto|constructor].
    - apply bind_Ret in Hf as (acc1 & w2 & H1 & Hf).
      apply bind_Ret in H1 as (b & w3 & Hb & H1).
      pose proof (is_unsent_Ret _ _ _ _ Hb) as ->.
      unfold ret in H1. injection H1 as <- <-.
      apply IH in Hf as (-> & Hsub & Hall).
      split; [reflexivity|]. split.
      + intros p Hin. apply Hsub. destruct b; [|exact Hin].
        apply elem_of_app. left. exact Hin.
      + simpl. constructor; [|exact Hall].
        destruct b; [|right; exact Hb].
        left. apply Hsub. apply elem_of_app. right. apply list_elem_of_singleton.
        reflexivity. }
  assert (Hgen : forall walk acc l w',
             fold_each walk
               (fun unsent_file_lst '(root, dirs, files) =>
                  fold_each (files ++ dirs)
                    (fun unsent_file_lst name =>
                       let path := path_join root name in
                       b ← is_unsent path;
                       ret (if b : bool then unsent_file_lst ++ [path]
                            else unsent_file_lst))
                    unsent_file_lst) acc w = Ret l w' ->
             (forall p, p ∈ acc -> p ∈ l)
             /\ Forall (fun p => p ∈ l \/ is_unsent p w = Ret false w)
                  (flat_map
                     (fun t => map (path_join (fst (fst t)))
                                 (snd t ++ snd (fst t))) walk)).
  { clear -Hinner. intros walk.
    induction walk as [|[[root dirs] files] walk IH]; intros acc l w' H;
      simpl in H.
    - injection H as <- <-. split; [auto|constructor].
    - apply bind_Ret in H as (acc1 & w1 & H1 & H).
      apply Hinner in H1 as (-> & Hs1 & Hall1).
      apply IH in H as (Hs & Hall). split; [auto|].
      simpl. apply Forall_app. split; [|exact Hall].
      eapply Forall_impl; [exact Hall1|].
      intros p [Hin|Hf]; [left; exact (Hs p Hin)|right; exact Hf]. }
  exact (proj2 (Hgen _ _ _ _ H)).
Qed.

(** When no path of the walk is unsent, the list is empty. *)
Lemma get_unsent_files_nil (w : world) :
  Forall (fun p => is_unsent p w = Ret false w) (walk_paths w) ->
  get_unsent_files w = Ret [] w.
Proof.
  unfold get_unsent_files, walk_paths. intros Hall.
  rewrite (run_bind _ _ w w
             (match fs_lookup (fs w) share_dir with
              | Some n => os_walk share_dir n
              | None => []
              end)) by reflexivity.
  assert (Hinner : forall root names acc,
             Forall (fun p => is_unsent p w = Ret false w)
               (map (path_join root) names) ->
             fold_each names
               (fun unsent_file_lst name =>
                  b ← is_unsent (path_join root name);
                  ret (if b : bool then unsent_file_lst ++ [path_join root name]
                       else unsent_file_lst)) acc w = Ret acc w).
  { clear. intros root names. induction names as [|name names IH];
      intros acc Hall; simpl; [reflexivity|].
    inversion Hall as [|? ? Hn Hrest]; subst.
    rewrite (run_bind _ _ w w acc).
    - exact (IH acc Hrest).
    - rewrite (run_bind _ _ _ _ _ Hn). reflexivity. }
  assert (Hgen : forall walk acc,
             Forall (fun p => is_unsent p w = Ret false w)
               (flat_map
                  (fun t => map (path_join (fst (fst t)))
                              (snd t ++ snd (fst t))) walk) ->
             fold_each walk
               (fun unsent_file_lst '(root, dirs, files) =>
                  fold_each (files ++ dirs)
                    (fun unsent_file_lst name =>
                       let path := path_join root name in
                       b ← is_unsent path;
                       ret (if b : bool then unsent_file_lst ++ [path]
                            else unsent_file_lst))
                    unsent_file_lst) acc w = Ret acc w).
  { clear -Hinner. intros walk.
    induction walk as [|[[root dirs] files] walk IH]; intros acc Hall;
      simpl; [reflexivity|].
    simpl in Hall. apply Forall_app in Hall as [Hhere Hrest].
    rewrite (run_bind _ _ w w acc) by exact (Hinner _ _ _ Hhere).
    exact (IH acc Hrest). }
  exact (Hgen _ _ Hall).
Qed.

(** X8. [__send] leaves nothing to send: when it returns, no path of the
    shared directory is unsent any more, so [get_unsent_files] returns the
    empty list and a second [__send] would send the terminator only. *)
Theorem send_leaves_nothing_unsent (w w' : world) (u : unit) :
  send json_dumps w = Ret u w' -> get_unsent_files w' = Ret [] w'.
Proof.
  intros H. unfold send in H.
  apply bind_Ret in H as (u0 & w0 & H0 & H).
  unfold log, modify in H0. injection H0 as _ <-.
  apply bind_Ret in H as (l & w0' & Hl & H).
  pose proof (get_unsent_files_answers _ _ _ Hl) as Hans.
  assert (Hsame : w0' = add_event ECallSend w
                  /\ l = filter (fun p => returns_true
                                           (is_unsent p (add_event ECallSend w))
                                         = true)
                          (walk_paths (add_event ECallSend w))).
  { unfold get_unsent_files in Hl.
    apply bind_Ret in Hl as (walk & w1 & H1 & Hl).
    apply gets_Ret in H1 as [-> ->].
    apply unsent_of_a_walk in Hl as [-> ->]. split; reflexivity. }
  destruct Hsame as [-> Hfilter].
  set (w0 := add_event ECallSend w) in *.
  apply bind_Ret in H as (u1 & w1 & Hsend & H).
  assert (Hsend' : for_each l (send_file json_dumps) w0 = Ret tt w1).
  { destruct l as [|q l]; [|destruct u1; exact Hsend].
    simpl in Hsend. unfold ret in Hsend. injection Hsend as _ <-.
    reflexivity. }
  assert (Hl_share : Forall off_record_file l).
  { apply Forall_forall. intros p Hp. rewrite Hfilter in Hp.
    apply list_elem_of_filter in Hp as [_ Hp].
    apply under_share_off_record_file.
    exact (proj1 (Forall_forall _ _) (walk_paths_under_share w0) p Hp). }
  destruct (for_each_send_file_marks _ _ _ Hl_share Hsend') as (HF & Hmarks).
  apply bind_Ret in H as (tm & w1' & Htm & H).
  apply lift_Ret in Htm as [_ ->].
  apply bind_Ret in H as (c & w1' & Hc & H). apply gets_Ret in Hc as [-> ->].
  apply transmit_Ret in H as (_ & Hr & Hfs & _).
  apply get_unsent_files_nil.
  assert (Hwalk : walk_paths w' = walk_paths w0).
  { unfold walk_paths. rewrite Hfs.
    rewrite (fs_lookup_off_record_file share_dir w0 w1); [reflexivity| |exact HF].
    apply under_share_off_record_file. right. exists []. reflexivity. }
  rewrite Hwalk. apply Forall_forall. intros p Hp.
  pose proof (under_share_off_record_file _
                (proj1 (Forall_forall _ _) (walk_paths_under_share w0) p Hp))
    as Hshare.
  pose proof (proj1 (Forall_forall _ _) Hans p Hp) as Hcase.
  apply (is_unsent_agrees p w1 w' false);
    [rewrite Hr; reflexivity|rewrite Hfs; reflexivity|].
  exact (Hmarks p Hshare Hcase).
Qed.

(** ** What the calls raise *)

Section Raises.

Variable cls : exn -> bool.

Lemma raises_only_ret {A} (a : A) : raises_only cls (ret a).
Proof. intros w e w' [=]. Qed.

Lemma raises_only_gets {A} (f : world -> A) : raises_only cls (gets f).
Proof. intros w e w' [=]. Qed.

Lemma raises_only_modify (f : world -> world) : raises_only cls (modify f).
Proof. intros w e w' [=]. Qed.

Lemma raises_only_hang {A} : raises_only cls (@hang A).
Proof. intros w e w' [=]. Qed.

Lemma raises_only_out_of_fuel {A} : raises_only cls (@out_of_fuel A).
Proof. intros w e w' [=]. Qed.

Lemma raises_only_raise {A} (e : exn) :
  cls e = true -> raises_only cls (@raise A e).
Proof. intros He w e' w' [= <- _]. exact He. Qed.

Lemma raises_only_bind {A B} (m : M A) (f : A -> M B) :
  raises_only cls m -> (forall a, raises_only cls (f a)) ->
  raises_only cls (m ≫= f).
Proof.
  intros Hm Hf w e w' H. apply bind_Raise in H as [H|(a & w1 & _ & H)].
  - exact (Hm _ _ _ H).
  - exact (Hf _ _ _ _ H).
Qed.

Lemma raises_only_when (b : bool) (m : M unit) :
  raises_only cls m -> raises_only cls (when b m).
Proof. destruct b; [auto|intros _; apply raises_only_ret]. Qed.

Lemma raises_only_for_each {A} (l : list A) (body : A -> M unit) :
  (forall x, raises_only cls (body x)) -> raises_only cls (for_each l body).
Proof.
  intros Hb. induction l as [|x l IH]; simpl; [apply raises_only_ret|].
  apply raises_only_bind; [apply Hb|]. intros _. exact IH.
Qed.

Lemma raises_only_fold_each {A S} (l : list A) (body : S -> A -> M S) :
  (forall s x, raises_only cls (body s x)) ->
  forall s, raises_only cls (fold_each l body s).
Proof.
  intros Hb. induction l as [|x l IH]; intros s; simpl;
    [apply raises_only_ret|].
  apply raises_only_bind; [apply Hb|]. exact IH.
Qed.

Lemma raises_only_while {S} (cond : S -> M bool) (body : S -> M S)
    (fuel : nat) :
  (forall s, raises_only cls (cond s)) ->
  (forall s, raises_only cls (body s)) ->
  forall s, raises_only cls (while fuel cond body s).
Proof.
  intros Hc Hb. induction fuel as [|fuel IH]; intros s; simpl.
  - apply (raises_only_bind (cond s)); [apply Hc|].
    intros [|]; [apply raises_only_out_of_fuel|apply raises_only_ret].
  - apply (raises_only_bind (cond s)); [apply Hc|].
    intros [|]; [|apply raises_only_ret].
    apply (raises_only_bind (body s)); [apply Hb|]. exact IH.
Qed.

End Raises.

Lemma raises_only_weaken {A} (cls1 cls2 : exn -> bool) (m : M A) :
  (forall e, cls1 e = true -> cls2 e = true) ->
  raises_only cls1 m -> raises_only cls2 m.
Proof. intros Hc Hm w e w' H. apply Hc. exact (Hm w e w' H). Qed.

(** [try: m except caught: h] raises what [m] raises and is not caught,
    and what [h] raises. *)
Lemma raises_only_try_except {A} (cls1 cls : exn -> bool) (m h : M A)
    (caught : exn -> bool) :
  raises_only cls1 m ->
  (forall e, cls1 e = true -> caught e = false -> cls e = true) ->
  raises_only cls h ->
  raises_only cls (try_except m caught h).
Proof.
  intros Hm Hc Hh w e w' H. unfold try_except in H.
  destruct (m w) as [a w1|e1 w1|w1|] eqn:Hmw; try discriminate.
  destruct (caught e1) eqn:Hcaught.
  - exact (Hh _ _ _ H).
  - injection H as <- <-. apply Hc; [exact (Hm _ _ _ Hmw)|exact Hcaught].
Qed.

Lemma exn_of_errno_is_network_error (e : errno) :
  is_network_error (exn_of_errno e) = true.
Proof. destruct e; reflexivity. Qed.

Lemma raises_only_stat {A} (field : node -> A) (path : string) :
  raises_only is_fs_error (stat field path).
Proof.
  intros w e w' H. unfold stat in H.
  destruct (fs_lookup (fs w) path); [discriminate|].
  injection H as <- _. reflexivity.
Qed.

Lemma raises_only_read_file (path : string) :
  raises_only is_fs_error (read_file path).
Proof.
  intros w e w' H. unfold read_file in H.
  destruct (fs_lookup (fs w) path) as [[|]|]; try discriminate;
    injection H as <- _; reflexivity.
Qed.

Lemma alter_at_fs_error (t : Z) f (cs : list string) :
  (forall o e, f o = Err e -> is_fs_error e = true) ->
  forall n e, alter_at t f cs n = Err e -> is_fs_error e = true.
Proof.
  intros Hf. induction cs as [|c cs IH]; intros n e H; simpl in H.
  - injection H as <-. reflexivity.
  - destruct n as [|m es]; [injection H as <-; reflexivity|].
    destruct cs as [|c1 cs].
    + destruct (f (assoc c es)) eqn:Hfo; [discriminate|].
      injection H as <-. exact (Hf _ _ Hfo).
    + destruct (assoc c es) as [child|]; [|injection H as <-; reflexivity].
      destruct (alter_at t f (c1 :: cs) child) eqn:Ha; [discriminate|].
      injection H as <-. exact (IH _ _ Ha).
Qed.

Lemma raises_only_fs_update f (path : string) :
  (forall t o e, f t o = Err e -> is_fs_error e = true) ->
  raises_only is_fs_error (fs_update f path).
Proof.
  intros Hf w e w' H. unfold fs_update, fs_alter in H.
  destruct (_ || _); [injection H as <- _; reflexivity|].
  destruct (alter_at (now w) (f (now w)) (components path) (fs w)) eqn:Ha;
    [discriminate|].
  injection H as <- _. exact (alter_at_fs_error _ _ _ (Hf (now w)) _ _ Ha).
Qed.

Lemma truncate_node_fs_error (t : Z) o e :
  truncate_node t o = Err e -> is_fs_error e = true.
Proof. destruct o as [[|]|]; simpl; intros [= <-]; reflexivity. Qed.

Lemma append_node_fs_error (bs : list byte) (t : Z) o e :
  append_node t bs o = Err e -> is_fs_error e = true.
Proof. destruct o as [[|]|]; simpl; intros [= <-]; reflexivity. Qed.

Lemma mkdir_node_fs_error (t : Z) o e :
  mkdir_node t o = Err e -> is_fs_error e = true.
Proof. destruct o as [[|]|]; simpl; intros [= <-]; reflexivity. Qed.

Ltac raises_steps :=
  repeat first
    [ apply raises_only_ret | apply raises_only_gets
    | apply raises_only_modify | apply raises_only_hang
    | apply raises_only_bind | apply raises_only_when
    | apply raises_only_for_each | apply raises_only_fold_each
    | apply raises_only_while
    | lazymatch goal with
      | |- raises_only _ _ => fail
      | |- forall _, _ => intro
      end
    | match goal with
      | |- raises_only _ (match ?x with _ => _ end) => destruct x
      | |- raises_only _ (if ?x then _ else _) => destruct x
      end ].

Ltac raises_fs :=
  raises_steps;
  first [ apply raises_only_stat | apply raises_only_read_file
        | apply raises_only_fs_update;
          first [ exact truncate_node_fs_error | exact mkdir_node_fs_error
                | intros ? ? ?; apply append_node_fs_error ] ].

Lemma raises_only_json_dump :
  raises_only is_fs_error (json_dump json_dumps).
Proof. unfold json_dump. raises_fs. Qed.

Lemma raises_only_set_ownership (path : string) (val : bool) :
  raises_only is_fs_error (set_ownership json_dumps path val).
Proof. unfold set_ownership, log. raises_fs. Qed.

Lemma raises_only_del_rec (path : string) :
  raises_only is_fs_error (del_rec json_dumps path).
Proof. unfold del_rec, log. raises_fs. Qed.

(** [add_rec] raises [KeyError] only when the path has no record. *)
Lemma add_rec_Raise (path : string) (w w' : world) (e : exn) :
  add_rec json_dumps path w = Raise e w' ->
  (e = KeyError /\ record w !! path = None) \/ is_fs_error e = true.
Proof.
  unfold add_rec. intros H.
  apply bind_Raise in H as [H|(u0 & w0 & H0 & H)]; [discriminate|].
  unfold log, modify in H0. injection H0 as _ <-.
  apply bind_Raise in H as [H|(r & w1 & H1 & H)]; [discriminate|].
  apply gets_Ret in H1 as [-> ->]. simpl in H.
  destruct (record w !! path) as [rc|].
  - right. revert H. generalize (add_event (EAddRec path) w). intros w0 H.
    assert (Hr : raises_only is_fs_error
                   (t ← getmtime path;
                    modify (set_record
                              (<[path := Rec (ownership rc) (Some t)]>
                                 (record w))) ;;
                    json_dump json_dumps)).
    { unfold getmtime. raises_fs. }
    exact (Hr _ _ _ H).
  - left. injection H as <- _. auto.
Qed.

Lemma raises_only_transmit (c : option socket) (ev : event) :
  raises_only send_error (transmit c ev).
Proof.
  intros w e w' H. unfold transmit in H.
  destruct c; [|injection H as <- _; reflexivity].
  unfold_monad. simpl in H.
  destruct (default None (head (sends (net w)))) as [en|]; simpl in H;
    [|discriminate].
  injection H as <- _. unfold send_error.
  rewrite exn_of_errno_is_network_error.
  destruct (is_fs_error _), (is_struct_error _); reflexivity.
Qed.

Lemma raises_only_sock_recv (c : option socket) (n : Z) :
  raises_only receive_error (sock_recv c n).
Proof.
  intros w e w' H. unfold sock_recv in H.
  destruct c; [|injection H as <- _; reflexivity].
  destruct (n <? 0); [injection H as <- _; reflexivity|].
  unfold_monad. simpl in H.
  destruct (inbox (net w)) as [|[bs|en] rest]; simpl in H; try discriminate.
  injection H as <- _. unfold receive_error.
  rewrite exn_of_errno_is_network_error.
  destruct (is_fs_error _); reflexivity.
Qed.


Lemma fs_error_receive_error (e : exn) :
  is_fs_error e = true -> receive_error e = true.
Proof. unfold receive_error. intros ->. reflexivity. Qed.

(** ** When a transfer fails *)

Lemma header_pack_Err (a b : Z) (e : exn) :
  header_pack a b = Err e -> e = StructError.
Proof.
  unfold header_pack. destruct (_ && _); [discriminate|].
  intros [= <-]. reflexivity.
Qed.

Lemma transmit_Raise (c : option socket) (ev : event) (w w' : world)
    (e : exn) :
  transmit c ev w = Raise e w' ->
  send_error e = true /\ is_fs_error e = false /\ record w' = record w.
Proof.
  intros H. split; [exact (raises_only_transmit _ _ _ _ _ H)|].
  split.
  - unfold transmit in H. destruct c; [|injection H as <- _; reflexivity].
    unfold_monad. simpl in H.
    destruct (default None (head (sends (net w)))) as [en|]; simpl in H;
      [|discriminate].
    injection H as <- _. destruct en; reflexivity.
  - apply (keeps_transmit c ev w w'). rewrite H. reflexivity.
Qed.

(** How one file of [__send] fails: with an error of the file system, or
    else after [set_ownership] and before [add_rec] has changed the
    record. *)
Lemma send_file_Raise (path : string) (w w' : world) (e : exn) :
  send_file json_dumps path w = Raise e w' ->
  is_fs_error e = true
  \/ (send_error e = true
      /\ record w' = <[path := Rec true None]> (record w)).
Proof.
  unfold send_file. intros H.
  apply bind_Raise in H as [H|(u1 & w1 & Hown & H)].
  { left. exact (raises_only_set_ownership _ _ _ _ _ H). }
  apply set_ownership_Ret in Hown as (_ & Hr1 & _).
  apply bind_Raise in H as [H|(size & w1' & Hsize & H)].
  { left. exact (raises_only_stat _ _ _ _ _ H). }
  assert (w1' = w1) as ->.
  { unfold getsize, stat in Hsize.
    destruct (fs_lookup (fs w1) path); [|discriminate].
    injection Hsize as _ <-. reflexivity. }
  apply bind_Raise in H as [H|(hdr & w1' & Hpack & H)].
  { apply lift_Raise in H as [H ->]. apply header_pack_Err in H as ->.
    right. split; [reflexivity|exact Hr1]. }
  apply lift_Ret in Hpack as [_ ->].
  apply bind_Raise in H as [H|(c & w1' & Hc & H)]; [discriminate|].
  apply gets_Ret in Hc as [-> ->].
  apply bind_Raise in H as [H|(u2 & w2 & Hsend & H)].
  { apply transmit_Raise in H as (He & _ & Hr). right.
    split; [exact He|congruence]. }
  apply transmit_Ret in Hsend as (_ & Hr2 & _).
  apply bind_Raise in H as [H|(c & w2' & Hc & H)]; [discriminate|].
  apply gets_Ret in Hc as [-> ->].
  apply bind_Raise in H as [H|(u3 & w3 & Hsf & H)].
  { unfold sock_sendfile in H.
    apply bind_Raise in H as [H|(content & w2' & Hread & H)].
    - left. exact (raises_only_read_file _ _ _ _ H).
    - assert (w2' = w2) as ->.
      { unfold read_file in Hread.
        destruct (fs_lookup (fs w2) path) as [[|]|]; try discriminate.
        injection Hread as _ <-. reflexivity. }
      apply transmit_Raise in H as (He & _ & Hr). right.
      split; [exact He|congruence]. }
  assert (Hr3 : record w3 = record w2).
  { apply (keeps_sock_sendfile (conn_sock w2) path w2 w3).
    rewrite Hsf. reflexivity. }
  apply add_rec_Raise in H as [[_ Hnone]|Hfs]; [|left; exact Hfs].
  rewrite Hr3, Hr2, Hr1, lookup_insert_eq in Hnone. discriminate.
Qed.

(** X9. A file whose sending is cut is sent again: when the body of the
    loop of [__send] raises a [ConnectionError] for a file, the record of
    the file is [{"ownership": True}] with no ["mtime"], so [__is_unsent]
    is [True] for it as long as it is not a directory. *)
Theorem interrupted_send_is_unsent (path : string) (w w' : world) (e : exn) :
  send_file json_dumps path w = Raise e w' ->
  is_ConnectionError e = true ->
  record w' = <[path := Rec true None]> (record w)
  /\ (isdir path w' = Ret false w' -> is_unsent path w' = Ret true w').
Proof.
  intros H He. apply send_file_Raise in H as [Hfs|[_ Hr]].
  { destruct e; discriminate. }
  split; [exact Hr|].
  intros Hd. unfold is_unsent. rewrite (run_bind _ _ _ _ _ Hd). simpl.
  unfold_monad. rewrite Hr, lookup_insert_eq. reflexivity.
Qed.




Lemma keeps_record_modify (f : world -> world) :
  (forall w, record (f w) = record w) -> keeps same_record (modify f).
Proof. intros Hf w w' [= <-]. apply Hf. Qed.

Lemma keeps_record_of_same (A : Type) (m : M A) :
  keeps same_record_and_files m -> keeps same_record m.
Proof. apply keeps_weaken. intros w w' [H _]. exact H. Qed.

Ltac keeps_record :=
  repeat first
    [ progress keeps_steps same_record_refl same_record_trans
    | apply keeps_fs_update_record
    | apply keeps_record_modify; intros; reflexivity
    | apply keeps_record_of_same, keeps_sock_recv
    | match goal with
      | |- keeps _ (match ?x with _ => _ end) => destruct x
      | |- keeps _ (if ?x then _ else _) => destruct x
      end ].

Lemma keeps_record_os_mkdir (path : string) : keeps same_record (os_mkdir path).
Proof. unfold os_mkdir, log. keeps_record. Qed.

Lemma keeps_record_open_wb (path : string) : keeps same_record (open_wb path).
Proof. unfold open_wb, log. keeps_record. Qed.

Lemma keeps_record_receive_payload (fuel : nat) (path : string)
    (file_size : Z) :
  keeps same_record (receive_payload receive_buffer_size fuel path file_size).
Proof.
  unfold receive_payload, payload_step, f_write, log. keeps_record.
Qed.

Ltac raises_receive :=
  raises_steps;
  first [ apply raises_only_sock_recv
        | apply (raises_only_weaken is_fs_error);
          [exact fs_error_receive_error|raises_fs] ].

Lemma raises_only_receive_payload (fuel : nat) (path : string)
    (file_size : Z) :
  raises_only receive_error
    (receive_payload receive_buffer_size fuel path file_size).
Proof.
  unfold receive_payload, payload_step, f_write, log. raises_receive.
Qed.

Lemma header_unpack_raises (hdr : list byte) (e : exn) :
  header_unpack hdr = Err e -> e = StructError.
Proof.
  unfold header_unpack.
  destruct hdr as [|a3 [|a2 [|a1 [|a0 [|b3 [|b2 [|b1 [|b0 [|? ?]]]]]]]]];
    intros [= <-]; reflexivity.
Qed.

(** How the frame of a file fails. *)
Lemma receive_file_Raise (fuel : nat) (path_size file_size : Z)
    (w w' : world) (e : exn) :
  receive_file json_dumps receive_buffer_size fuel path_size file_size w
  = Raise e w' ->
  receive_error e = true
  /\ (is_fs_error e = true
      \/ sock_recv (conn_sock w) path_size w = Raise e w'
      \/ (exists path_bin w1,
            sock_recv (conn_sock w) path_size w = Ret path_bin w1
            /\ decode path_bin = Err e)
      \/ (exists path_bin w1 path,
            sock_recv (conn_sock w) path_size w = Ret path_bin w1
            /\ decode path_bin = Ok path
            /\ record w'
               = <[path := Rec false None]> (delete path (record w)))).
Proof.
  unfold receive_file. intros H.
  apply bind_Raise in H as [H|(c & w0 & Hc & H)]; [discriminate|].
  apply gets_Ret in Hc as [-> ->].
  apply bind_Raise in H as [H|(path_bin & w1 & Hrecv & H)].
  { split; [exact (raises_only_sock_recv _ _ _ _ _ H)|auto]. }
  assert (Hr1 : record w1 = record w).
  { apply (keeps_record_of_same _ _ (keeps_sock_recv (conn_sock w) path_size)
             w w1).
    rewrite Hrecv. reflexivity. }
  apply bind_Raise in H as [H|(path & w1' & Hdec & H)].
  { apply lift_Raise in H as [H ->]. split.
    - unfold decode in H. destruct (utf8_valid path_bin); [discriminate|].
      injection H as <-. reflexivity.
    - right. right. left. eauto. }
  apply lift_Ret in Hdec as [Hdec ->].
  assert (Hfs : forall e, is_fs_error e = true ->
                  receive_error e = true
                  /\ (is_fs_error e = true
                      \/ sock_recv (conn_sock w) path_size w = Raise e w'
                      \/ (exists path_bin w1,
                            sock_recv (conn_sock w) path_size w
                            = Ret path_bin w1
                            /\ decode path_bin = Err e)
                      \/ (exists path_bin w1 path,
                            sock_recv (conn_sock w) path_size w
                            = Ret path_bin w1
                            /\ decode path_bin = Ok path
                            /\ record w'
                               = <[path := Rec false None]>
                                   (delete path (record w))))).
  { intros e0 He0. split; [exact (fs_error_receive_error _ He0)|auto]. }
  apply bind_Raise in H as [H|(u2 & w2a & Hdel & H)].
  { apply Hfs. exact (raises_only_del_rec _ _ _ _ H). }
  apply del_rec_Ret in Hdel as (_ & Hr2a & _).
  apply bind_Raise in H as [H|(u3 & w2 & Hown & H)].
  { apply Hfs. exact (raises_only_set_ownership _ _ _ _ _ H). }
  apply set_ownership_Ret in Hown as (_ & Hr2 & _).
  assert (Hrec2 : record w2
                  = <[path := Rec false None]> (delete path (record w)))
    by (rewrite Hr2, Hr2a, Hr1; reflexivity).
  apply bind_Raise in H as [H|(ex & w2' & Hex & H)]; [discriminate|].
  apply gets_Ret in Hex as [-> ->].
  apply bind_Raise in H as [H|(u4 & w3 & Hmk & H)].
  { apply Hfs. revert H. destruct (negb _); [|discriminate]. intros H.
    unfold os_mkdir in H.
    assert (Hr : raises_only is_fs_error (os_mkdir (rsplit_head path)))
      by (unfold os_mkdir, log; raises_fs).
    exact (Hr _ _ _ H). }
  assert (Hr3 : record w3 = record w2).
  { pose proof (keeps_when _ same_record_refl same_record_trans
                  (negb (is_some (fs_lookup (fs w2) (rsplit_head path)))) _
                  (keeps_record_os_mkdir (rsplit_head path)) w2 w3) as Hk.
    rewrite Hmk in Hk. exact (Hk eq_refl). }
  apply bind_Raise in H as [H|(u5 & w4 & Hopen & H)].
  { apply Hfs.
    assert (Hr : raises_only is_fs_error (open_wb path))
      by (unfold open_wb, log; raises_fs).
    exact (Hr _ _ _ H). }
  assert (Hr4 : record w4 = record w3).
  { apply (keeps_record_open_wb path w3 w4). rewrite Hopen. reflexivity. }
  apply bind_Raise in H as [H|(n & w5 & Hpay & H)].
  { split; [exact (raises_only_receive_payload _ _ _ _ _ _ H)|].
    right. right. right. exists path_bin, w1, path.
    split; [exact Hrecv|]. split; [exact Hdec|].
    rewrite <- Hrec2, <- Hr3, <- Hr4.
    apply (keeps_record_receive_payload fuel path file_size w4 w').
    rewrite H. reflexivity. }
  assert (Hr5 : record w5 = record w4).
  { apply (keeps_record_receive_payload fuel path file_size w4 w5).
    rewrite Hpay. reflexivity. }
  apply bind_Raise in H as [H|(u6 & w6 & _ & H)]; [|discriminate].
  apply add_rec_Raise in H as [[_ Hnone]|He]; [|apply Hfs; exact He].
  rewrite Hr5, Hr4, Hr3, Hrec2, lookup_insert_eq in Hnone. discriminate.
Qed.

(** X11. A file whose reception is cut is never sent back: when the
    frame of a file raises a [ConnectionError], either the path had not
    arrived, or the record of the path is [{"ownership": False}] with no
    ["mtime"], and [__is_unsent] is [False] for it. *)
Theorem interrupted_receive_is_not_unsent (fuel : nat)
    (path_size file_size : Z) (w w' : world) (e : exn) :
  receive_file json_dumps receive_buffer_size fuel path_size file_size w
  = Raise e w' ->
  is_ConnectionError e = true ->
  sock_recv (conn_sock w) path_size w = Raise e w'
  \/ exists path_bin w1 path,
       sock_recv (conn_sock w) path_size w = Ret path_bin w1
       /\ decode path_bin = Ok path
       /\ record w' !! path = Some (Rec false None)
       /\ is_unsent path w' = Ret false w'.
Proof.
  intros H He.
  apply receive_file_Raise in H
    as (_ & [Hfs|[H|[(pb & w1 & _ & Hd)|(pb & w1 & path & Hr & Hd & Hrec)]]]).
  - destruct e; discriminate.
  - left. exact H.
  - unfold decode in Hd. destruct (utf8_valid pb); [discriminate|].
    injection Hd as <-. discriminate.
  - right. exists pb, w1, path. split; [exact Hr|]. split; [exact Hd|].
    assert (Hl : record w' !! path = Some (Rec false None))
      by (rewrite Hrec; apply lookup_insert_eq).
    split; [exact Hl|].
    unfold is_unsent, isdir. unfold_monad.
    destruct (negb _); [|reflexivity]. simpl. rewrite Hl. reflexivity.
Qed.

(** X12. [__receive] raises nothing but an error of the file system, a
    path that is not UTF-8, an error of the network, [AttributeError] or
    [ValueError]: [struct.error] is caught, and [KeyError] is never raised
    ([add_rec] finds the record [set_ownership] made). *)
Theorem receive_raises_only (fuel : nat) :
  raises_only receive_error (receive json_dumps receive_buffer_size fuel).
Proof.
  unfold receive.
  apply raises_only_bind; [apply raises_only_modify|intros _].
  apply raises_only_bind; [|intros _; apply raises_only_ret].
  apply raises_only_while; [intros b; apply raises_only_ret|].
  intros _. unfold receive_step.
  apply (raises_only_try_except
           (fun e => receive_error e || is_struct_error e));
    [|intros e; destruct e; cbv; congruence|apply raises_only_ret].
  unfold receive_frame.
  apply raises_only_bind; [apply raises_only_gets|intros c].
  apply raises_only_bind.
  { apply (raises_only_weaken receive_error);
      [intros e ->; reflexivity|apply raises_only_sock_recv]. }
  intros header_info.
  apply raises_only_bind.
  { intros w e w' H. apply lift_Raise in H as [H _].
    apply header_unpack_raises in H. subst e. reflexivity. }
  intros [path_size file_size].
  destruct (_ && _); [apply raises_only_ret|].
  intros w e w' H. apply receive_file_Raise in H as [-> _]. reflexivity.
Qed.


(** ** The content of a received file *)

Lemma f_write_content (path : string) (bs c : list byte) (m : Z)
    (w w' : world) (u : unit) :
  f_write path bs w = Ret u w' ->
  fs_lookup (fs w) path = Some (File c m) ->
  exists m', fs_lookup (fs w') path = Some (File (c ++ bs) m').
Proof.
  intros H Hl. apply logged_fs_update_Ret in H as (root' & Ha & ->).
  unfold fs_alter in Ha. unfold fs_lookup in *. simpl.
  destruct (_ || _); [discriminate|].
  destruct (components path) as [|c0 cs] eqn:Hcs; [discriminate|].
  destruct (alter_at_append (now w) bs (c0 :: cs) (fs w) c m
              ltac:(discriminate) Hl) as (root'' & Ha' & Hr).
  rewrite Ha in Ha'. injection Ha' as ->. eauto.
Qed.




(** ** The record when a key is missing *)

(** X15. A path without a record: [del_rec] does not raise [KeyError]
    for it (it raises errors of the file system only) and leaves the
    record as it is, while [add_rec] raises [KeyError] before it touches
    the record or the record file.  [add_rec] on a recorded path whose
    file is gone raises [FileNotFoundError], the record being unchanged
    too. *)
Theorem recorder_on_a_missing_key (path : string) (w : world) :
  record w !! path = None ->
  raises_only is_fs_error (del_rec json_dumps path)
  /\ (forall u w', del_rec json_dumps path w = Ret u w' ->
        record w' = record w)
  /\ add_rec json_dumps path w = Raise KeyError (add_event (EAddRec path) w)
  /\ (forall rc w0, record w0 !! path = Some rc ->
        fs_lookup (fs w0) path = None ->
        add_rec json_dumps path w0
        = Raise FileNotFoundError (add_event (EAddRec path) w0)).
Proof.
  intros Hnone. split; [apply raises_only_del_rec|]. split; [|split].
  - intros u w' H. apply del_rec_Ret in H as (_ & -> & _).
    apply delete_id. exact Hnone.
  - unfold add_rec. unfold_monad. simpl. rewrite Hnone. reflexivity.
  - intros rc w0 Hrc Hl. unfold add_rec, getmtime, stat. unfold_monad.
    simpl. rewrite Hrc. simpl. rewrite Hl. reflexivity.
Qed.

(** ** The connection across the turns of the sync loop *)

Lemma same_connection_refl (w : world) : same_connection w w.
Proof. repeat split. Qed.

Lemma same_connection_trans (w1 w2 w3 : world) :
  same_connection w1 w2 -> same_connection w2 w3 -> same_connection w1 w3.
Proof. intros (H1 & H2 & H3) (H4 & H5 & H6). repeat split; congruence. Qed.

Lemma keeps_connection_modify (f : world -> world) :
  (forall w, same_connection w (f w)) -> keeps same_connection (modify f).
Proof. intros Hf w w' [= <-]. apply Hf. Qed.

Lemma keeps_connection_fs_update f (path : string) :
  keeps same_connection (fs_update f path).
Proof.
  intros w w' H. unfold fs_update in H.
  destruct (fs_alter (now w) (f (now w)) path (fs w));
    injection H as <-; repeat split.
Qed.

Lemma keeps_connection_transmit (c : option socket) (ev : event) :
  keeps same_connection (transmit c ev).
Proof.
  intros w w' H. unfold transmit in H.
  destruct c; [|injection H as <-; repeat split].
  unfold_monad. simpl in H.
  destruct (default None (head (sends (net w)))); simpl in H;
    injection H as <-; repeat split.
Qed.

Lemma keeps_connection_sock_recv (c : option socket) (n : Z) :
  keeps same_connection (sock_recv c n).
Proof.
  intros w w' H. unfold sock_recv in H.
  destruct c; [|injection H as <-; repeat split].
  destruct (n <? 0); [injection H as <-; repeat split|].
  unfold_monad. simpl in H.
  destruct (inbox (net w)) as [|[bs|e] rest]; simpl in H;
    injection H as <-; repeat split.
Qed.

Ltac keeps_connection :=
  repeat first
    [ progress keeps_steps same_connection_refl same_connection_trans
    | apply keeps_connection_fs_update
    | apply keeps_connection_modify; intros; repeat split
    | apply keeps_connection_transmit
    | apply keeps_connection_sock_recv
    | match goal with
      | |- keeps _ (match ?x with _ => _ end) => destruct x
      | |- keeps _ (if ?x then _ else _) => destruct x
      end ].

Lemma keeps_connection_send : keeps same_connection (send json_dumps).
Proof.
  unfold send, send_file, get_unsent_files, is_unsent, isdir, getmtime,
    getsize, set_ownership, add_rec, json_dump, sock_send, sock_sendfile, log.
  keeps_connection.
Qed.

Lemma keeps_connection_receive (fuel : nat) :
  keeps same_connection (receive json_dumps receive_buffer_size fuel).
Proof.
  unfold receive, receive_step, receive_frame, receive_file, receive_payload,
    payload_step, f_write, open_wb, os_mkdir, path_exists, set_ownership,
    add_rec, del_rec, json_dump, getmtime, log.
  keeps_connection.
Qed.

(** The body of a turn changes neither the mode nor the sockets. *)
Lemma keeps_connection_sync_body (fuel : nat) :
  keeps same_connection (sync_body json_dumps receive_buffer_size fuel).
Proof.
  unfold sync_body, send, send_file, get_unsent_files, is_unsent, isdir,
    getsize, sock_send, sock_sendfile, receive, receive_step, receive_frame,
    receive_file, receive_payload, payload_step, f_write, open_wb, os_mkdir,
    path_exists, set_ownership, add_rec, del_rec, json_dump, getmtime, log.
  keeps_connection.
Qed.

Lemma resume_returns_connected (fuel : nat) (w w' : world) (u : unit) :
  connected w -> resume peer_ip port fuel w = Ret u w' -> connected w'.
Proof.
  intros Hc H. unfold resume in H.
  apply bind_Ret in H as (u0 & w0 & H0 & H).
  unfold log, modify in H0. injection H0 as _ <-.
  apply bind_Ret in H as (m & w0' & Hm & H). apply gets_Ret in Hm as [-> ->].
  simpl in H.
  destruct (mode w =? 2) eqn:Hmode.
  - apply Z.eqb_eq in Hmode.
    apply bind_Ret in H as (s & w1 & Hs & H). apply gets_Ret in Hs as [-> ->].
    apply bind_Ret in H as ([c addr] & w2 & Hacc & H).
    unfold modify in H. injection H as _ <-.
    right. simpl. split; [|reflexivity].
    unfold sock_accept in Hacc. unfold_monad. simpl in Hacc.
    destruct (default AcceptNoPeer (head (accepts (net w))));
      simpl in Hacc; [| |destruct (timeout (sock w))]; try discriminate.
    injection Hacc as _ _ <-. exact Hmode.
  - apply Z.eqb_neq in Hmode.
    apply bind_Ret in H as (s & w1 & Hs & H).
    unfold socket_new in Hs. injection Hs as <- <-.
    apply bind_Ret in H as (u1 & w2 & Hset & H).
    unfold modify in Hset. injection Hset as _ <-.
    apply bind_Ret in H as (u2 & w3 & Hsrv & H).
    apply bind_Ret in H as (m3 & w3' & Hm3 & H).
    apply gets_Ret in Hm3 as [-> ->].
    destruct (mode w3 =? 2) eqn:Hm3; simpl in H.
    + unfold ret in H. injection H as _ <-. apply Z.eqb_eq in Hm3.
      match type of Hsrv with run_as_server _ ?w2 = _ =>
        destruct (run_as_server_outcomes port w2)
          as (k & w4 & [(Hr & _ & _ & Hcs)|[(Hr & _)|(Hr & Hmm & _)]] & _)
      end; rewrite Hr in Hsrv; try discriminate;
        injection Hsrv as Heq; subst w4.
      * right. auto.
      * simpl in Hmm. congruence.
    + apply bind_Ret in H as (u4 & w4 & Hset & H).
      unfold modify in Hset. injection Hset as _ <-.
      pose proof (start_from_mode_0 fuel (set_mode 0 w3) eq_refl) as Hst.
      rewrite H in Hst. exact (proj1 Hst).
Qed.

(** X16. The sync loop keeps the peer connected: the body of a turn
    changes neither the mode nor the sockets, however it ends, and when
    a turn returns from a connected peer (the body returned, or [resume]
    did after a [ConnectionError]) the peer is connected again. *)
Theorem sync_step_keeps_connected (fuel : nat) (w w' : world) (u : unit) :
  keeps same_connection (sync_body json_dumps receive_buffer_size fuel)
  /\ (connected w ->
      sync_step json_dumps peer_ip port receive_buffer_size fuel w = Ret u w'
      -> connected w').
Proof.
  split; [apply keeps_connection_sync_body|].
  intros Hc H. unfold sync_step in H.
  assert (Hsame : forall w1, same_connection w w1 -> connected w1).
  { intros w1 (Hm & Hs & Hcs). unfold connected in *.
    rewrite Hm, Hs, Hcs. exact Hc. }
  apply try_except_Ret in H as [H|(e & w1 & He & _ & H)].
  - apply Hsame. apply (keeps_connection_sync_body fuel w w').
    rewrite H. reflexivity.
  - apply (resume_returns_connected fuel w1 w' u); [|exact H].
    apply Hsame. apply (keeps_connection_sync_body fuel w w1).
    rewrite He. reflexivity.
Qed.

(** ** From the sender to the receiver *)

Lemma sock_recv_Ret_data (c : option socket) (n : Z) (w w' : world)
    (bs data : list byte) (rest : list recv_outcome) :
  sock_recv c n w = Ret bs w' ->
  inbox (net w) = RecvData data :: rest ->
  0 <= n
  /\ bs = take (Z.to_nat n) data
  /\ inbox (net w')
     = match drop (Z.to_nat n) data with
       | [] => rest
       | _ :: _ => RecvData (drop (Z.to_nat n) data) :: rest
       end
  /\ fs w' = fs w /\ conn_sock w' = conn_sock w.
Proof.
  intros H Hi. pose proof (sock_recv_Ret _ _ _ _ _ H) as (Hn & _).
  destruct c as [s|]; [|discriminate].
  destruct (sock_recv_data s n w data rest Hn Hi) as (w1 & H1 & Hrest).
  rewrite H in H1. injection H1 as -> ->. auto.
Qed.

(** The loop that reads the content, when the content is what is left of
    the first segment of the stream. *)
Lemma payload_loop_from_stream (path : string) (content : list byte)
    (rest : list recv_outcome) (fuel : nat) :
  forall (r0 r : Z) (w w' : world) (c : list byte) (m : Z),
    while fuel (fun received_bytes => ret (received_bytes <? len content))
      (payload_step receive_buffer_size path (len content)) r0 w
    = Ret r w' ->
    fs_lookup (fs w) path = Some (File c m) ->
    0 <= r0 ->
    (r0 < len content ->
     inbox (net w) = RecvData (drop (Z.to_nat r0) content) :: rest) ->
    exists m',
      fs_lookup (fs w') path
      = Some (File (c ++ drop (Z.to_nat r0) content) m').
Proof.
  induction fuel as [|fuel IH]; intros r0 r w w' c m H Hl Hr0 Hin;
    simpl in H; unfold bind at 1 in H; unfold ret at 1 in H;
    destruct (Z.ltb_spec r0 (len content)) as [Hlt|Hge].
  - discriminate.
  - unfold ret in H. injection H as <- <-. exists m.
    rewrite drop_ge by (unfold len in Hge; lia).
    rewrite app_nil_r. exact Hl.
  - change (bind ?m ?f) with (m ≫= f) in H.
    apply bind_Ret in H as (r1 & w1 & H1 & H).
    unfold payload_step in H1.
    apply bind_Ret in H1 as (cs & w0 & Hc & H1).
    apply gets_Ret in Hc as [-> ->].
    apply bind_Ret in H1 as (bs & w2 & Hrecv & H1).
    apply bind_Ret in H1 as (u & w3 & Hw & H1).
    unfold ret in H1. injection H1 as <- <-.
    set (n := Z.min (len content - r0) receive_buffer_size) in *.
    destruct (sock_recv_Ret_data _ _ _ _ _ _ _ Hrecv (Hin Hlt))
      as (Hn & -> & Hin2 & Hfs2 & _).
    pose proof (f_write_Ret _ _ _ _ _ Hw) as (_ & _ & Hnet3 & _).
    rewrite <- Hfs2 in Hl.
    destruct (f_write_content _ _ _ _ _ _ _ Hw Hl) as (m1 & Hl1).
    assert (Hlen : len (take (Z.to_nat n) (drop (Z.to_nat r0) content)) = n).
    { unfold len in *. rewrite length_take, length_drop. lia. }
    rewrite Hlen in H.
    assert (Hdrop : drop (Z.to_nat n) (drop (Z.to_nat r0) content)
                    = drop (Z.to_nat (r0 + n)) content).
    { rewrite drop_drop. f_equal. lia. }
    destruct (IH _ _ _ _ _ _ H Hl1 ltac:(lia)) as (m' & Hl').
    + intros Hlt'. rewrite Hnet3, Hin2, Hdrop.
      destruct (drop (Z.to_nat (r0 + n)) content) eqn:Hd; [|reflexivity].
      apply (f_equal length) in Hd. rewrite length_drop in Hd.
      unfold len in Hlt'. simpl in Hd. lia.
    + exists m'. rewrite Hl', <- app_assoc, <- Hdrop, take_drop. reflexivity.
  - unfold ret in H. injection H as <- <-. exists m.
    rewrite drop_ge by (unfold len in Hge; lia).
    rewrite app_nil_r. exact Hl.
Qed.

Lemma off_record_file_not_empty (path : string) :
  off_record_file path -> 0 < len (encode path).
Proof.
  intros H. destruct path as [|c s].
  - destruct H as [H|(c0 & cs & H & _)]; discriminate.
  - unfold len, encode. simpl. lia.
Qed.

(** X17. What the sender sends for a file, the receiver writes: when the
    stream begins with the frame that [__send] makes for the file [path]
    of content [content] (the header and the path in one segment, the
    content in the next), and the turn of the loop of [__receive]
    returns, it asks for more and the file [path] of the receiver holds
    exactly [content]. *)
Theorem sent_frame_is_received (fuel : nat) (w w' : world)
    (path : string) (content : list byte) (rest : list recv_outcome)
    (more_files : bool) :
  inbox (net w)
  = RecvData (be32 (len (encode path)) ++ be32 (len content) ++ encode path)
    :: RecvData content :: rest ->
  len (encode path) <= uint32_max -> len content <= uint32_max ->
  decode (encode path) = Ok path ->
  off_record_file path ->
  receive_frame json_dumps receive_buffer_size fuel w = Ret more_files w' ->
  more_files = true /\ read_file path w' = Ret content w'.
Proof.
  intros Hin Hp32 Hc32 Hdec Hoff H.
  pose proof (off_record_file_not_empty _ Hoff) as Hpos.
  assert (Hc0 : 0 <= len content) by (unfold len; lia).
  unfold receive_frame in H.
  apply bind_Ret in H as (c & w0 & Hc & H). apply gets_Ret in Hc as [-> ->].
  apply bind_Ret in H as (hdr & w1 & Hrecv & H).
  destruct (sock_recv_Ret_data _ _ _ _ _ _ _ Hrecv Hin)
    as (_ & -> & Hin1 & Hfs1 & Hcs1).
  assert (Hhdr : header_pack (len (encode path)) (len content)
                 = Ok (be32 (len (encode path)) ++ be32 (len content))).
  { unfold header_pack, is_uint32.
    destruct (Z.leb_spec 0 (len (encode path))); [|lia].
    destruct (Z.leb_spec (len (encode path)) uint32_max); [|lia].
    destruct (Z.leb_spec 0 (len content)); [|lia].
    destruct (Z.leb_spec (len content) uint32_max); [|lia].
    reflexivity. }
  apply header_unpack_pack in Hhdr as [Hunpack _].
  change (Z.to_nat header_len) with 8%nat in *.
  change (take 8 (be32 (len (encode path)) ++ be32 (len content)
                  ++ encode path))
    with (be32 (len (encode path)) ++ be32 (len content)) in H.
  rewrite Hunpack in H.
  apply bind_Ret in H as ([ps fsz] & w1' & Hp0 & H).
  apply lift_Ret in Hp0 as [Hp0 ->]. injection Hp0 as <- <-.
  change (drop 8 (be32 (len (encode path)) ++ be32 (len content)
                  ++ encode path)) with (encode path) in Hin1.
  destruct (encode path) as [|b0 bs0] eqn:Hep; [unfold len in Hpos; simpl in Hpos; lia|].
  rewrite <- Hep in *.
  assert (Hnot : (len (encode path) =? len content) && (len content =? 0)
                 = false).
  { destruct (Z.eqb_spec (len content) 0) as [Hz|]; [|apply andb_false_r].
    rewrite Hz. destruct (Z.eqb_spec (len (encode path)) 0); [lia|].
    reflexivity. }
  rewrite Hnot in H.
  assert (Hin1' : inbox (net w1)
                  = RecvData (encode path) :: RecvData content :: rest).
  { rewrite Hin1, Hep. reflexivity. }
  clear Hin1.
  pose proof H as Hfile.
  unfold receive_file in H.
  apply bind_Ret in H as (c & w1' & Hc & H). apply gets_Ret in Hc as [-> ->].
  apply bind_Ret in H as (path_bin & w2 & Hrecv2 & H).
  destruct (sock_recv_Ret_data _ _ _ _ _ _ _ Hrecv2 Hin1')
    as (_ & Hpb & Hin2 & Hfs2 & Hcs2).
  assert (Hfull : Z.to_nat (len (encode path)) = length (encode path))
    by (unfold len; lia).
  rewrite Hfull, take_ge in Hpb by lia. subst path_bin.
  rewrite Hfull, drop_ge in Hin2 by lia.
  rewrite Hdec in H.
  apply bind_Ret in H as (p & w2' & Hp & H).
  unfold lift, ret in Hp. injection Hp as <- <-.
  apply bind_Ret in H as (u2 & w3a & Hdel & H).
  apply bind_Ret in H as (u3 & w3 & Hown & H).
  apply bind_Ret in H as (ex & w3' & Hex & H).
  apply gets_Ret in Hex as [-> ->].
  apply bind_Ret in H as (u4 & w4 & Hmk & H).
  apply bind_Ret in H as (u5 & w5 & Hopen & H).
  apply bind_Ret in H as (n & w6 & Hpay & H).
  apply bind_Ret in H as (u6 & w7 & Hadd & H).
  unfold ret in H. injection H as <- <-.
  split; [reflexivity|].
  apply del_rec_Ret in Hdel as (_ & _ & Hn3a & _).
  apply set_ownership_Ret in Hown as (_ & _ & Hn3 & _).
  assert (Hn4 : net w4 = net w3).
  { destruct (negb _); simpl in Hmk.
    - apply os_mkdir_Ret in Hmk as (_ & _ & Hn & _). exact Hn.
    - unfold ret in Hmk. injection Hmk as _ <-. reflexivity. }
  pose proof (open_wb_Ret _ _ _ _ Hopen) as (_ & _ & _ & Hn5 & _).
  assert (Hl5 : fs_lookup (fs w5) path = Some (File [] (now w4))).
  { apply logged_fs_update_Ret in Hopen as (root' & Ha & ->).
    unfold fs_alter in Ha. unfold fs_lookup. simpl.
    destruct (_ || _); [discriminate|].
    exact (proj2 (alter_at_truncate _ _ _ _ Ha)). }
  unfold receive_payload in Hpay.
  destruct (payload_loop_from_stream path content rest fuel 0 n w5 w6 [] _
              Hpay Hl5 ltac:(lia)) as (m6 & Hl6).
  { intros _. rewrite Hn5, Hn4, Hn3, Hn3a, Hin2. reflexivity. }
  destruct (add_rec_marks _ _ _ _ Hoff Hadd) as (_ & HF & _).
  unfold read_file.
  rewrite (fs_lookup_off_record_file _ _ _ Hoff HF), Hl6. reflexivity.
Qed.

(** ** The walk of a well-formed tree *)

Lemma well_formed_Dir (m : Z) (es : list (string * node)) :
  well_formed (Dir m es) = true ->
  NoDup (map fst es)
  /\ Forall (fun e => proper_name (fst e) = true
                      /\ well_formed (snd e) = true) es.
Proof.
  simpl. intros H. apply andb_true_iff in H as [Hnd Hall].
  split; [apply bool_decide_eq_true in Hnd; exact Hnd|].
  clear Hnd. induction es as [|[name child] es IH]; [constructor|].
  apply andb_true_iff in Hall as [Hhere Hrest].
  apply andb_true_iff in Hhere as [Hname Hchild].
  constructor; [split; assumption|exact (IH Hrest)].
Qed.

Lemma split_slash_proper (c : string) :
  forallb (fun a => negb (Ascii.eqb a slash)) (list_ascii_of_string c) = true ->
  split_slash c = [c].
Proof.
  induction c as [|a c IH]; simpl; [reflexivity|].
  intros H. apply andb_true_iff in H as [Ha Hc].
  apply negb_true_iff in Ha. rewrite Ha, (IH Hc). reflexivity.
Qed.

Lemma components_proper (c : string) :
  proper_name c = true -> components c = [c] /\ is_absolute c = false.
Proof.
  unfold proper_name. intros H. apply andb_true_iff in H as [Hn Hs].
  split.
  - unfold components. rewrite (split_slash_proper _ Hs).
    rewrite filter_cons, filter_nil.
    destruct (decide (is_name c = true)); [reflexivity|contradiction].
  - destruct c as [|a c]; [reflexivity|]. simpl in *.
    apply andb_true_iff in Hs as [Ha _]. apply negb_true_iff in Ha. exact Ha.
Qed.

Lemma resolve_app (cs cs' : list string) :
  forall n n', resolve cs n = Some n' ->
    resolve (cs ++ cs') n = resolve cs' n'.
Proof.
  induction cs as [|c cs IH]; intros n n' H; simpl in *.
  - injection H as ->. reflexivity.
  - destruct n as [|m es]; [discriminate|].
    destruct (assoc c es) as [child|]; [|discriminate].
    exact (IH _ _ H).
Qed.

Lemma path_join_not_empty (root name : string) :
  root <> EmptyString -> is_absolute root = false ->
  is_absolute name = false ->
  String.eqb (path_join root name) EmptyString = false
  /\ is_absolute (path_join root name) = false.
Proof.
  intros Hr Ha Hn. unfold path_join. rewrite Hn.
  destruct root as [|a root]; [contradiction|].
  destruct (_ || _); simpl; auto.
Qed.

(** The entry [name] of the directory that [top] names. *)
Lemma fs_lookup_join (root : node) (top name : string) (m : Z)
    (es : list (string * node)) :
  fs_lookup root top = Some (Dir m es) -> proper_name name = true ->
  fs_lookup root (path_join top name) = assoc name es.
Proof.
  unfold fs_lookup. intros Ht Hn.
  destruct (components_proper _ Hn) as [Hc Ha].
  destruct (String.eqb_spec top EmptyString) as [->|Hne]; [discriminate|].
  destruct (is_absolute top) eqn:Hat; [discriminate|]. simpl in Ht.
  destruct (path_join_not_empty top name Hne Hat Ha) as [-> ->]. simpl.
  rewrite (components_join _ _ Ha), Hc, (resolve_app _ _ _ _ Ht). simpl.
  destruct (assoc name es); reflexivity.
Qed.

Lemma assoc_NoDup {A} (name : string) (v : A) (l : list (string * A)) :
  NoDup (map fst l) -> (name, v) ∈ l -> assoc name l = Some v.
Proof.
  induction l as [|[k x] l IH]; intros Hnd Hin; [inversion Hin|].
  simpl in *. apply NoDup_cons in Hnd as [Hk Hnd].
  apply elem_of_cons in Hin as [[= -> ->]|Hin].
  - rewrite String.eqb_refl. reflexivity.
  - destruct (String.eqb_spec name k) as [->|_]; [|exact (IH Hnd Hin)].
    exfalso. apply Hk. apply list_elem_of_fmap. exists (k, v). auto.
Qed.

Lemma assoc_Some_elem {A} (name : string) (v : A) (l : list (string * A)) :
  assoc name l = Some v -> (name, v) ∈ l.
Proof.
  induction l as [|[k x] l IH]; intros H; [discriminate|].
  cbn [assoc] in H. destruct (String.eqb_spec name k) as [->|_].
  - injection H as ->. left.
  - right. exact (IH H).
Qed.

Lemma assoc_is_Some {A} (name : string) (l : list (string * A)) :
  name ∈ map fst l -> is_Some (assoc name l).
Proof.
  induction l as [|[k x] l IH]; intros Hin; [inversion Hin|].
  simpl in *. destruct (String.eqb_spec name k); [eauto|].
  apply IH. apply elem_of_cons in Hin as [?|Hin]; [contradiction|exact Hin].
Qed.

Lemma entry_names_elem (want_dirs : bool) (es : list (string * node))
    (name : string) :
  name ∈ entry_names want_dirs es -> name ∈ map fst es.
Proof.
  unfold entry_names. intros H.
  apply list_elem_of_fmap in H as (e & -> & He).
  apply list_elem_of_filter in He as [_ He].
  apply list_elem_of_fmap. eauto.
Qed.

(** Every path of the walk of a well-formed tree names something. *)
Lemma os_walk_finds (root : node) (n : node) :
  forall top,
    well_formed n = true -> fs_lookup root top = Some n ->
    Forall (fun t => forall name, name ∈ snd t ++ snd (fst t) ->
                       is_Some (fs_lookup root (path_join (fst (fst t)) name)))
      (os_walk top n).
Proof.
  induction n as [c m|m es IH] using node_induction; intros top Hwf Ht;
    simpl; [constructor|].
  destruct (well_formed_Dir _ _ Hwf) as [Hnd Hall].
  apply Forall_app. split.
  - match goal with
    | |- Forall ?P (?below es) =>
        assert (Hb : forall l, (forall e, e ∈ l -> e ∈ es) ->
                       Forall P (below l))
    end.
    { induction l as [|[name child] l IHl]; intros Hsub; [constructor|].
      apply Forall_app. split.
      - assert (Hin : (name, child) ∈ es) by (apply Hsub; left).
        pose proof (proj1 (Forall_forall _ _) Hall _ Hin) as [Hname Hchild].
        pose proof (proj1 (Forall_forall _ _) IH _ Hin) as IHc.
        simpl in Hname, Hchild, IHc.
        apply IHc; [exact Hchild|].
        rewrite (fs_lookup_join _ _ _ _ _ Ht Hname).
        exact (assoc_NoDup _ _ _ Hnd Hin).
      - apply IHl. intros e He. apply Hsub. right. exact He. }
    apply Hb. auto.
  - constructor; [|constructor]. simpl. intros name Hin.
    assert (Hname : name ∈ map fst es).
    { apply elem_of_app in Hin as [Hin|Hin];
        exact (entry_names_elem _ _ _ Hin). }
    pose proof Hname as Hname'.
    apply list_elem_of_fmap in Hname' as ([k v] & -> & He).
    pose proof (proj1 (Forall_forall _ _) Hall _ He) as [Hp _].
    simpl in Hp |- *.
    rewrite (fs_lookup_join _ _ _ _ _ Ht Hp).
    exact (assoc_is_Some _ _ Hname).
Qed.

Lemma is_unsent_of_a_path_there (path : string) (w : world) :
  is_Some (fs_lookup (fs w) path) -> exists b, is_unsent path w = Ret b w.
Proof.
  intros [n Hn]. unfold is_unsent, isdir, getmtime, stat. unfold_monad.
  rewrite Hn. destruct (negb _); simpl; [|eauto].
  destruct (record w !! path) as [[o [t|]]|]; simpl; eauto.
  rewrite Hn. eauto.
Qed.

Lemma well_formed_share (w : world) (n : node) :
  well_formed (fs w) = true -> fs_lookup (fs w) share_dir = Some n ->
  well_formed n = true.
Proof.
  intros Hwf Hl. unfold fs_lookup in Hl.
  change (String.eqb share_dir EmptyString || is_absolute share_dir)
    with false in Hl.
  change (components share_dir) with ["share"%string] in Hl.
  destruct (fs w) as [|m es]; [discriminate|]. cbn [resolve] in Hl.
  destruct (well_formed_Dir _ _ Hwf) as [_ Hall].
  destruct (assoc "share" es) as [child|] eqn:Ha; [|discriminate].
  injection Hl as ->. apply assoc_Some_elem in Ha.
  exact (proj2 (proj1 (Forall_forall _ _) Hall _ Ha)).
Qed.

(** X18. On a well-formed file tree (proper names, no name twice in a
    directory) [get_unsent_files] raises nothing: every path that
    [os.walk] gives names an entry of the tree, so [os.path.getmtime]
    finds it, and the list is returned. *)
Theorem get_unsent_files_returns (w : world) :
  well_formed (fs w) = true ->
  exists l, get_unsent_files w = Ret l w.
Proof.
  intros Hwf.
  assert (Hall : Forall (fun p => exists b, is_unsent p w = Ret b w)
                   (walk_paths w)).
  { unfold walk_paths.
    destruct (fs_lookup (fs w) share_dir) as [n|] eqn:Hn; [|constructor].
    pose proof (os_walk_finds (fs w) n share_dir
                  (well_formed_share _ _ Hwf Hn) Hn) as Hfind.
    induction Hfind as [|[[root dirs] files] l Hhere _ IH]; [constructor|].
    simpl. apply Forall_app. split; [|exact IH].
    apply Forall_forall. intros p Hp.
    apply list_elem_of_fmap in Hp as (name & -> & Hname).
    apply is_unsent_of_a_path_there. exact (Hhere name Hname). }
  unfold get_unsent_files, walk_paths in *.
  rewrite (run_bind _ _ w w
             (match fs_lookup (fs w) share_dir with
              | Some n => os_walk share_dir n
              | None => []
              end)) by reflexivity.
  assert (Hinner : forall root names acc,
             Forall (fun p => exists b, is_unsent p w = Ret b w)
               (map (path_join root) names) ->
             exists l,
               fold_each names
                 (fun unsent_file_lst name =>
                    b ← is_unsent (path_join root name);
                    ret (if b : bool
                         then unsent_file_lst ++ [path_join root name]
                         else unsent_file_lst)) acc w = Ret l w).
  { clear. intros root names. induction names as [|name names IH];
      intros acc Hall; simpl; [eauto|].
    inversion Hall as [|? ? [b Hb] Hrest]; subst.
    destruct (IH (if b then acc ++ [path_join root name] else acc) Hrest)
      as [l Hl].
    exists l.
    rewrite (run_bind _ _ w w
               (if b then acc ++ [path_join root name] else acc));
      [exact Hl|].
    rewrite (run_bind _ _ _ _ _ Hb). reflexivity. }
  revert Hall. generalize (@nil string) at 2.
  generalize (match fs_lookup (fs w) share_dir with
              | Some n => os_walk share_dir n
              | None => []
              end).
  intros walk. induction walk as [|[[root dirs] files] walk IH];
    intros acc Hall; simpl; [eauto|].
  simpl in Hall. apply Forall_app in Hall as [Hhere Hrest].
  destruct (Hinner root (files ++ dirs) acc Hhere) as [acc1 H1].
  destruct (IH acc1 Hrest) as [l Hl]. exists l.
  rewrite (run_bind _ _ w w acc1) by exact H1. exact Hl.
Qed.

(** ** [resume] *)

Lemma keeps_outcome (R : world -> world -> Prop) (o : option errno) :
  (forall w, R w w) -> keeps R (outcome o).
Proof. intros HR w w' H. destruct o; injection H as <-; apply HR. Qed.

Lemma keeps_same_modify (f : world -> world) :
  (forall w, same_record_and_files w (f w)) ->
  keeps same_record_and_files (modify f).
Proof. intros Hf w w' [= <-]. apply Hf. Qed.

Ltac keeps_same :=
  repeat first
    [ progress keeps_steps same_record_and_files_refl
                           same_record_and_files_trans
    | apply keeps_outcome; exact same_record_and_files_refl
    | apply keeps_same_modify; intros; split; reflexivity
    | apply keeps_sock_accept
    | apply keeps_socket_new
    | match goal with
      | |- keeps _ (match ?x with _ => _ end) => destruct x
      | |- keeps _ (if ?x then _ else _) => destruct x
      end ].

(** X19. [resume] touches neither the record nor the files, however it
    ends, and it raises in server mode only (what the [accept] raises):
    as a client it makes its attempt to become the server and, when the
    attempt fails, restarts; neither raises. *)
Theorem resume_raises_in_server_mode_only (fuel : nat) :
  keeps same_record_and_files (resume peer_ip port fuel)
  /\ forall w e w', resume peer_ip port fuel w = Raise e w' -> mode w = 2.
Proof.
  split.
  - unfold resume, start, run_as_client, run_as_server, sock_connect,
      sock_bind, sock_listen, log.
    keeps_same.
  - intros w e w' H. destruct (Z.eq_dec (mode w) 2) as [Hm|Hm]; [exact Hm|].
    exfalso. apply Z.eqb_neq in Hm.
    unfold resume in H.
    apply bind_Raise in H as [H|(u0 & w0 & H0 & H)]; [discriminate|].
    unfold log, modify in H0. injection H0 as _ <-.
    apply bind_Raise in H as [H|(m & w0' & Hm0 & H)]; [discriminate|].
    apply gets_Ret in Hm0 as [-> ->]. simpl in H. rewrite Hm in H.
    apply bind_Raise in H as [H|(s & w1 & Hs & H)]; [discriminate|].
    apply bind_Raise in H as [H|(u1 & w2 & Hset & H)]; [discriminate|].
    destruct (run_as_server_outcomes port w2)
      as (k & w3 & [(Hr & _)|[(Hr & _)|(Hr & _)]] & _);
      (apply bind_Raise in H as [H|(u2 & w3' & Hsrv & H)];
       [rewrite Hr in H; discriminate|]).
    all: apply bind_Raise in H as [H|(m3 & w3'' & Hm3 & H)];
      [discriminate|]; apply gets_Ret in Hm3 as [-> ->].
    all: destruct (negb _); simpl in H; [|discriminate].
    all: apply bind_Raise in H as [H|(u4 & w4 & Hs4 & H)]; [discriminate|].
    all: unfold modify in Hs4; injection Hs4 as _ <-.
    all: pose proof (start_from_mode_0 fuel (set_mode 0 w3') eq_refl) as Hst.
    all: rewrite H in Hst; exact Hst.
Qed.

End Extra.

(** * The further properties at work on the example worlds *)

Import Cases.

Lemma header_pack_unpack_inverse_witness :
  header_pack 17 3 = Ok (be32 17 ++ be32 3)
  /\ len (be32 17 ++ be32 3) = header_len
  /\ header_unpack (be32 17 ++ be32 3) = Ok (17, 3)
  /\ header_pack (-1) 3 = Err StructError.
Proof.
  destruct (header_pack_unpack_inverse 17 3 (be32 17 ++ be32 3))
    as (_ & Hpack & _).
  destruct (header_pack_unpack_inverse (-1) 3 []) as (Herr & _).
  assert (H : header_pack 17 3 = Ok (be32 17 ++ be32 3)) by reflexivity.
  split; [exact H|]. split; [exact (proj1 (Hpack H))|].
  split; [exact (proj2 (Hpack H))|].
  apply (proj2 Herr). lia.
Defined.

Lemma get_unsent_files_is_a_filter_witness :
  get_unsent_files w_client
  = Ret ["./share/d/b.txt"; "./share/a.txt"]%string w_client
  /\ ["./share/d/b.txt"; "./share/a.txt"]%string
     = filter (fun p => returns_true (is_unsent p w_client) = true)
         (walk_paths w_client)
  /\ Forall (fun p => isdir p w_client = Ret false w_client)
       ["./share/d/b.txt"; "./share/a.txt"]%string.
Proof.
  assert (H : get_unsent_files w_client
              = Ret ["./share/d/b.txt"; "./share/a.txt"]%string w_client)
    by (vm_compute; reflexivity).
  split; [exact H|].
  exact (proj2 (get_unsent_files_is_a_filter w_client w_client _ H)).
Defined.

Lemma record_file_holds_the_record_witness :
  exists w',
    set_ownership json_dumps "./share/a.txt" true w_client = Ret tt w'
    /\ read_file "./sync_record.json" w'
       = Ret (encode (json_dumps (record w'))) w'.
Proof.
  eexists. split; [vm_compute; reflexivity|].
  apply (record_file_holds_the_record json_dumps "./share/a.txt" true
           w_client _ tt).
  left. vm_compute. reflexivity.
Defined.




Lemma send_leaves_nothing_unsent_witness :
  send json_dumps w_client = Ret tt w_sent
  /\ get_unsent_files w_sent = Ret [] w_sent.
Proof.
  assert (H : send json_dumps w_client = Ret tt w_sent)
    by (vm_compute; reflexivity).
  split; [exact H|].
  exact (send_leaves_nothing_unsent json_dumps w_client w_sent tt H).
Defined.

Lemma interrupted_send_is_unsent_witness :
  exists w',
    send_file json_dumps "./share/a.txt" w_send_cut
    = Raise ConnectionResetError w'
    /\ record w' = <[ "./share/a.txt" := Rec true None ]> (record w_send_cut)
    /\ is_unsent "./share/a.txt" w' = Ret true w'.
Proof.
  eexists. split; [vm_compute; reflexivity|].
  destruct (interrupted_send_is_unsent json_dumps "./share/a.txt"
              w_send_cut _ ConnectionResetError
              ltac:(vm_compute; reflexivity) eq_refl) as [Hr Hu].
  split; [exact Hr|]. apply Hu. vm_compute. reflexivity.
Defined.

Lemma interrupted_receive_is_not_unsent_witness :
  exists w',
    receive_file json_dumps main.buffer_size 3 13 3 w_receive_cut
    = Raise ConnectionResetError w'
    /\ record w' !! "./share/f.txt" = Some (Rec false None)
    /\ is_unsent "./share/f.txt" w' = Ret false w'.
Proof.
  eexists. split; [vm_compute; reflexivity|].
  destruct (interrupted_receive_is_not_unsent json_dumps main.buffer_size
              3 13 3 w_receive_cut _ ConnectionResetError
              ltac:(vm_compute; reflexivity) eq_refl)
    as [H|(pb & w1 & path & Hrecv & Hdec & Hr & Hu)].
  - vm_compute in H. discriminate.
  - assert (path = "./share/f.txt"%string) as ->.
    { vm_compute in Hrecv. injection Hrecv as <- _.
      vm_compute in Hdec. injection Hdec as <-. reflexivity. }
    split; [exact Hr|exact Hu].
Defined.



Lemma recorder_on_a_missing_key_witness :
  record w_client !! "./share/a.txt" = None
  /\ add_rec json_dumps "./share/a.txt" w_client
     = Raise KeyError (add_event (EAddRec "./share/a.txt") w_client)
  /\ exists w', del_rec json_dumps "./share/a.txt" w_client = Ret tt w'
                /\ record w' = record w_client.
Proof.
  assert (H : record w_client !! "./share/a.txt" = None) by reflexivity.
  destruct (recorder_on_a_missing_key json_dumps "./share/a.txt" w_client H)
    as (_ & Hdel & Hadd & _).
  split; [exact H|]. split; [exact Hadd|].
  eexists. split; [vm_compute; reflexivity|].
  apply (Hdel tt). vm_compute. reflexivity.
Defined.

Lemma sync_step_keeps_connected_witness :
  connected w_server_reset
  /\ exists w',
       sync_step json_dumps peer_ip main.port main.buffer_size 1
         w_server_reset = Ret tt w'
       /\ connected w'.
Proof.
  assert (Hc : connected w_server_reset) by (right; split; reflexivity).
  split; [exact Hc|].
  eexists. split; [vm_compute; reflexivity|].
  refine (proj2 (sync_step_keeps_connected json_dumps peer_ip main.port
                   main.buffer_size 1 w_server_reset _ tt) Hc _).
  vm_compute. reflexivity.
Defined.

Lemma sent_frame_is_received_witness :
  exists w',
    receive_frame json_dumps main.buffer_size 2 w_frame_arrives = Ret true w'
    /\ read_file "./share/a.txt" w' = Ret [x61; x62] w'.
Proof.
  eexists. split; [vm_compute; reflexivity|].
  refine (proj2 (sent_frame_is_received json_dumps main.buffer_size 2
                   w_frame_arrives _ "./share/a.txt" [x61; x62] [] true
                   _ _ _ _ _ _)).
  - reflexivity.
  - vm_compute. discriminate.
  - vm_compute. discriminate.
  - vm_compute. reflexivity.
  - right. exists "share"%string, ["a.txt"]%string.
    split; [vm_compute; reflexivity|discriminate].
  - vm_compute. reflexivity.
Defined.

Lemma send_changes_the_record_file_only_witness :
  send json_dumps w_client = Ret tt w_sent
  /\ same_files_but_record_file w_client w_sent.
Proof.
  assert (H : send json_dumps w_client = Ret tt w_sent)
    by (vm_compute; reflexivity).
  split; [exact H|].
  apply (send_changes_the_record_file_only json_dumps w_client w_sent).
  rewrite H. reflexivity.
Defined.


Lemma receive_raises_only_witness :
  exists w',
    receive json_dumps main.buffer_size 1 w_server_timed_out
    = Raise TimeoutError w'
    /\ receive_error TimeoutError = true.
Proof.
  eexists. split; [vm_compute; reflexivity|].
  refine (receive_raises_only json_dumps main.buffer_size 1
            w_server_timed_out TimeoutError _ _).
  vm_compute. reflexivity.
Defined.

Lemma get_unsent_files_returns_witness :
  well_formed (fs w_client) = true
  /\ exists l, get_unsent_files w_client = Ret l w_client.
Proof.
  assert (H : well_formed (fs w_client) = true) by (vm_compute; reflexivity).
  split; [exact H|]. exact (get_unsent_files_returns w_client H).
Defined.

Lemma resume_raises_in_server_mode_only_witness :
  exists w',
    resume peer_ip main.port 1 w_server_reset_abort
    = Raise ConnectionAbortedError w'
    /\ mode w_server_reset_abort = 2
    /\ same_record_and_files w_server_reset_abort w'.
Proof.
  eexists. split; [vm_compute; reflexivity|].
  destruct (resume_raises_in_server_mode_only peer_ip main.port 1)
    as [Hk Hr].
  split.
  - refine (Hr w_server_reset_abort ConnectionAbortedError _ _).
    vm_compute. reflexivity.
  - apply Hk. vm_compute. reflexivity.
Defined.
